(** * ODataBuilder: a shallow embedding of [src/lib/odata-builder.ts]

    The builder reads the OData options of a request ([$filter], [$orderby],
    [$expand], [$top], [$skip]), drives a TypeORM [SelectQueryBuilder] and
    shapes the page that comes back.  The query builder is an external
    object: the embedding records the calls made on it, in order.

    Strings are sequences of UTF-16 code units.  Numbers are IEEE 754
    doubles: a finite double is kept as the rational it is, and every
    operation rounds its exact result to the nearest double. *)

From Stdlib Require Import Ascii String DecimalNat.
From Stdlib Require Import List Bool Arith NArith ZArith QArith Qround Qpower Lia Lqa.
From Stdlib Require Qcanon.
Import ListNotations.
Close Scope Q_scope.

Set Implicit Arguments.

(* ================================================================= *)
(** ** JavaScript strings *)

Module JsString.

(** A string is a list of UTF-16 code units. *)
Definition t := list N.

(** String literals of this file are ASCII. *)
Definition js (s : string) : t := map N_of_ascii (list_ascii_of_string s).

Definition eqb (a b : t) : bool :=
  if list_eq_dec N.eq_dec a b then true else false.

(** ECMA-262 LineTerminator: LF, CR, LS, PS. *)
Definition isLineTerminator (c : N) : bool :=
  ((c =? 10) || (c =? 13) || (c =? 8232) || (c =? 8233))%N.

(** ECMA-262 WhiteSpace: TAB, VT, FF, ZWNBSP and the space separators. *)
Definition isWhiteSpace (c : N) : bool :=
  ((c =? 9) || (c =? 11) || (c =? 12) || (c =? 32) || (c =? 160)
   || (c =? 5760) || ((8192 <=? c) && (c <=? 8202))
   || (c =? 8239) || (c =? 8287) || (c =? 12288) || (c =? 65279))%N.

(** What [trim], [Number] and [parseInt] strip. *)
Definition isTrimmed (c : N) : bool := isWhiteSpace c || isLineTerminator c.

Fixpoint dropWhile (p : N -> bool) (s : t) : t :=
  match s with
  | [] => []
  | c :: s' => if p c then dropWhile p s' else s
  end.

Definition trimStart (s : t) : t := dropWhile isTrimmed s.
Definition trimEnd (s : t) : t := rev (dropWhile isTrimmed (rev s)).

(** [String.prototype.trim] *)
Definition trim (s : t) : t := trimEnd (trimStart s).

(** [s.startsWith(p)] *)
Fixpoint startsWith (p s : t) : bool :=
  match p, s with
  | [], _ => true
  | _ :: _, [] => false
  | a :: p', b :: s' => (a =? b)%N && startsWith p' s'
  end.

(** [s.endsWith(p)] *)
Definition endsWith (p s : t) : bool := startsWith (rev p) (rev s).

(** [s.includes(p)] *)
Fixpoint includes (p s : t) : bool :=
  startsWith p s ||
  match s with
  | [] => false
  | _ :: s' => includes p s'
  end.

(** [s.slice(start, end)], with negative positions counted from the end. *)
Definition slice (start stop : Z) (s : t) : t :=
  let len := Z.of_nat (length s) in
  let from := if (start <? 0)%Z then Z.max (len + start) 0 else Z.min start len in
  let to := if (stop <? 0)%Z then Z.max (len + stop) 0 else Z.min stop len in
  firstn (Z.to_nat (Z.max (to - from) 0)) (skipn (Z.to_nat from) s).

(** [s.split(sep)] for a non-empty separator: the pieces between the
    occurrences of [sep], found left to right without overlap.  [skip] counts
    the code units of a separator that are still to be stepped over, [cur] is
    the piece being read, in reverse. *)
Fixpoint split_go (sep : t) (skip : nat) (cur : t) (s : t) : list t :=
  match s with
  | [] => [rev cur]
  | c :: s' =>
      match skip with
      | S k => split_go sep k cur s'
      | O => if startsWith sep s
             then rev cur :: split_go sep (length sep - 1) [] s'
             else split_go sep 0 (c :: cur) s'
      end
  end.

Definition split (sep : t) (s : t) : list t := split_go sep 0 [] s.

(** [list.includes(x)] on an array of strings. *)
Definition arrayIncludes (x : t) (l : list t) : bool := existsb (eqb x) l.

(** Truthiness of an optional string property: [undefined] and [""] are
    falsy. *)
Definition truthy (o : option t) : bool :=
  match o with
  | Some (_ :: _) => true
  | _ => false
  end.

(** The decimal digits of an array index, as [`${index}`] prints them. *)
Fixpoint ofUint (d : Decimal.uint) : t :=
  match d with
  | Decimal.Nil => []
  | Decimal.D0 d => 48%N :: ofUint d
  | Decimal.D1 d => 49%N :: ofUint d
  | Decimal.D2 d => 50%N :: ofUint d
  | Decimal.D3 d => 51%N :: ofUint d
  | Decimal.D4 d => 52%N :: ofUint d
  | Decimal.D5 d => 53%N :: ofUint d
  | Decimal.D6 d => 54%N :: ofUint d
  | Decimal.D7 d => 55%N :: ofUint d
  | Decimal.D8 d => 56%N :: ofUint d
  | Decimal.D9 d => 57%N :: ofUint d
  end.

Definition ofIndex (n : nat) : t := ofUint (Nat.to_uint n).

End JsString.

Import JsString.
Abbreviation jsstring := JsString.t.

(* ================================================================= *)
(** ** JavaScript numbers *)

Module JsNumber.

(** A number is NaN, an infinity, a finite value or [-0].  A finite value is
    kept as the rational the double is; [Fin 0] is [+0].  The operations
    return doubles: each rounds its exact result with [round]. *)
Inductive t : Type :=
| NaN
| Infinity (negative : bool)
| Fin (q : Q)
| NegZero.

Definition ofZ (z : Z) : t := Fin (inject_Z z).

(** [a > 0] *)
Definition gtZero (a : t) : bool :=
  match a with
  | NaN => false
  | Infinity negative => negb negative
  | Fin q => if Qlt_le_dec 0 q then true else false
  | NegZero => false
  end.

(** [a === 0] *)
Definition isZero (a : t) : bool :=
  match a with
  | Fin q => Qeq_bool q 0
  | NegZero => true
  | _ => false
  end.

Definition isNaN (a : t) : bool :=
  match a with
  | NaN => true
  | _ => false
  end.

Definition qNegative (q : Q) : bool := if Qlt_le_dec q 0 then true else false.

(** *** Rounding to a double (ECMA-262, 6.1.6.1, the Number value for [x])

    Of the finite doubles and of [2^1024], the one closest to [x]; of two
    equally close, the one with the even significand; [2^1024] stands for
    the infinity, and a negative [x] that rounds to zero gives [-0]. *)

Definition pow2 (e : Z) : Q := (2 ^ e)%Q.

(** The binary exponent of a positive rational: [2^e <= q < 2^(e+1)]. *)
Definition ilog2 (q : Q) : Z :=
  let e := (Z.log2 (Qnum q) - Z.log2 (Zpos (Qden q)))%Z in
  if Qle_bool (pow2 e) q then e else (e - 1)%Z.

(** The nearest integer, the even one of two equally near. *)
Definition roundHalfEven (q : Q) : Z :=
  let m := Qfloor q in
  match (q - inject_Z m ?= 1 # 2)%Q with
  | Lt => m
  | Gt => (m + 1)%Z
  | Eq => if Z.even m then m else (m + 1)%Z
  end.

(** For a positive [q]: the doubles around [q] are the multiples of [2^u],
    where [u] is 52 below the exponent of [q], and -1074 for the
    subnormals; the significand is the multiple. *)
Definition nearest (q : Q) : Q :=
  let u := Z.max (ilog2 q - 52) (-1074) in
  Qred (inject_Z (roundHalfEven (q / pow2 u)) * pow2 u).

Definition round (q : Q) : t :=
  match (q ?= 0)%Q with
  | Eq => Fin 0
  | Gt => let v := nearest q in
          if Qle_bool (pow2 1024) v then Infinity false else Fin v
  | Lt => let v := nearest (- q) in
          if Qle_bool (pow2 1024) v then Infinity true
          else if Qeq_bool v 0 then NegZero
          else Fin (Qred (- v))
  end.

(** The sign of a number that is not NaN, and the value of a finite one. *)
Definition isNegative (a : t) : bool :=
  match a with
  | NaN => false
  | Infinity negative => negative
  | Fin q => qNegative q
  | NegZero => true
  end.

Definition valueOf (a : t) : Q :=
  match a with
  | Fin q => q
  | _ => 0
  end.

Definition zero (negative : bool) : t := if negative then NegZero else Fin 0.

(** [-a] *)
Definition neg (a : t) : t :=
  match a with
  | NaN => NaN
  | Infinity negative => Infinity (negb negative)
  | Fin q => if Qeq_bool q 0 then NegZero else Fin (Qred (- q))
  | NegZero => Fin 0
  end.

(** [a + b] (Number::add) *)
Definition add (a b : t) : t :=
  match a, b with
  | NaN, _ | _, NaN => NaN
  | Infinity s, Infinity s' => if Bool.eqb s s' then Infinity s else NaN
  | Infinity s, _ | _, Infinity s => Infinity s
  | NegZero, NegZero => NegZero
  | _, _ => round (valueOf a + valueOf b)
  end.

(** [a / b] (Number::divide) *)
Definition div (a b : t) : t :=
  match a, b with
  | NaN, _ | _, NaN => NaN
  | Infinity _, Infinity _ => NaN
  | Infinity s, _ => Infinity (xorb s (isNegative b))
  | _, Infinity s => zero (xorb (isNegative a) s)
  | _, _ =>
      if isZero b
      then (if isZero a then NaN else Infinity (xorb (isNegative a) (isNegative b)))
      else if isZero a then zero (xorb (isNegative a) (isNegative b))
      else round (valueOf a / valueOf b)
  end.

(** [Math.floor(a)] and [Math.ceil(a)] *)
Definition floor (a : t) : t :=
  match a with
  | Fin q => ofZ (Qfloor q)
  | _ => a
  end.

Definition ceil (a : t) : t :=
  match a with
  | Fin q => if qNegative q && (Qceiling q =? 0)%Z then NegZero else ofZ (Qceiling q)
  | _ => a
  end.

(** *** Numeric literals *)

Definition isDigit (c : N) : bool := ((48 <=? c) && (c <=? 57))%N.

(** The value of a code unit as a digit of some radix up to 36. *)
Definition digitValue (c : N) : option N :=
  if isDigit c then Some (c - 48)%N
  else if ((97 <=? c) && (c <=? 122))%N then Some (c - 87)%N
  else if ((65 <=? c) && (c <=? 90))%N then Some (c - 55)%N
  else None.

(** The longest prefix of radix-[R] digits, as digit values, and the rest. *)
Fixpoint spanDigits (R : N) (s : JsString.t) : list N * JsString.t :=
  match s with
  | [] => ([], [])
  | c :: s' =>
      match digitValue c with
      | Some d =>
          if (d <? R)%N
          then let (ds, rest) := spanDigits R s' in (d :: ds, rest)
          else ([], s)
      | None => ([], s)
      end
  end.

Definition valueOfDigits (R : N) (ds : list N) : N :=
  fold_left (fun acc d => (acc * R + d)%N) ds 0%N.

Definition signed (negative : bool) (z : Z) : Z := if negative then (- z)%Z else z.

(** A leading [+] or [-]. *)
Definition readSign (s : JsString.t) : bool * JsString.t :=
  match s with
  | c :: s' =>
      if (c =? 45)%N then (true, s')
      else if (c =? 43)%N then (false, s')
      else (false, s)
  | [] => (false, s)
  end.

(** [parseInt(s)] with no radix argument (ECMA-262, 19.2.5): the digits
    denote an integer, zero keeps the sign, anything else is rounded to a
    double.  Beyond 20 significant decimal digits the standard lets an
    implementation read the further digits as zeros; the integer is taken
    whole here. *)
Definition parseInt (s : JsString.t) : t :=
  let (negative, s1) := readSign (trimStart s) in
  let (R, s2) :=
    match s1 with
    | c :: x :: s' =>
        if ((c =? 48) && ((x =? 120) || (x =? 88)))%N then (16%N, s') else (10%N, s1)
    | _ => (10%N, s1)
    end in
  match fst (spanDigits R s2) with
  | [] => NaN
  | ds =>
      let mathInt := Z.of_N (valueOfDigits R ds) in
      if (mathInt =? 0)%Z then zero negative
      else round (inject_Z (signed negative mathInt))
  end.

(** [m * 10^e] *)
Definition scale10 (m : Z) (e : Z) : Q :=
  match e with
  | Zneg p => Qred (m # (10 ^ p))
  | _ => inject_Z (m * 10 ^ e)
  end.

(** The exponent part [e±ddd] of a decimal literal, or nothing, up to the
    end of the string. *)
Definition readExponent (s : JsString.t) : option Z :=
  match s with
  | [] => Some 0%Z
  | c :: s' =>
      if ((c =? 101) || (c =? 69))%N
      then let (negative, s1) := readSign s' in
           match spanDigits 10 s1 with
           | ((_ :: _) as ds, []) => Some (signed negative (Z.of_N (valueOfDigits 10 ds)))
           | _ => None
           end
      else None
  end.

(** StrDecimalLiteral, after its sign: the unsigned literal is rounded to a
    double, and a [-] negates the double (so [-0] reads as [-0]).  Beyond 20
    significant digits the standard lets an implementation round at the 20th
    digit first; the value is taken whole here. *)
Definition readUnsignedDecimal (negative : bool) (s : JsString.t) : t :=
  if JsString.eqb s (js "Infinity") then Infinity negative
  else
    let (ip, s1) := spanDigits 10 s in
    let (fp, s2) :=
      match s1 with
      | c :: s' => if (c =? 46)%N then spanDigits 10 s' else ([], s1)
      | [] => ([], s1)
      end in
    match ip ++ fp with
    | [] => NaN
    | ds =>
        match readExponent s2 with
        | Some e =>
            let a := round (scale10 (Z.of_N (valueOfDigits 10 ds))
                                    (e - Z.of_nat (length fp))) in
            if negative then neg a else a
        | None => NaN
        end
    end.

(** NonDecimalIntegerLiteral: [0x], [0o], [0b] and digits up to the end. *)
Definition readNonDecimal (s : JsString.t) : option t :=
  match s with
  | c :: x :: s' =>
      let radix :=
        if negb (c =? 48)%N then None
        else if ((x =? 120) || (x =? 88))%N then Some 16%N
        else if ((x =? 111) || (x =? 79))%N then Some 8%N
        else if ((x =? 98) || (x =? 66))%N then Some 2%N
        else None in
      match radix with
      | Some R =>
          match spanDigits R s' with
          | ((_ :: _) as ds, []) => Some (round (inject_Z (Z.of_N (valueOfDigits R ds))))
          | _ => Some NaN
          end
      | None => None
      end
  | _ => None
  end.

(** [Number(s)] on a string (ECMA-262, 7.1.4.1.1 StringToNumber). *)
Definition Number (s : JsString.t) : t :=
  match trim s with
  | [] => ofZ 0
  | s0 =>
      match readNonDecimal s0 with
      | Some n => n
      | None => let (negative, s1) := readSign s0 in readUnsignedDecimal negative s1
      end
  end.

(** *** Printing (ECMA-262, 6.1.6.1.20 Number::toString, radix 10) *)

Definition pow10 (e : Z) : Q := (10 ^ e)%Q.

Definition digitsOf (z : Z) : JsString.t := ofUint (N.to_uint (Z.to_N z)).

(** The decimal exponent of a positive rational: the [n] with
    [10^(n-1) <= q < 10^n]. *)
Definition decimalExponent (q : Q) : Z :=
  if Qle_bool 1 q
  then Z.of_nat (length (digitsOf (Qfloor q)))
  else (1 - Z.of_nat (length (digitsOf (Qceiling (/ q) - 1))))%Z.

(** Whether [s * 10^(n-k)] is a decimal of the double [q]. *)
Definition printsAs (q : Q) (k : Z) (c : Z * Z) : bool :=
  match round (inject_Z (fst c) * pow10 (snd c - k)) with
  | Fin v => Qeq_bool v q
  | _ => false
  end.

(** The [k]-digit decimal [(s, n)] of [q], if there is one: the multiple of
    [10^(n-k)] below [q] or the one above, the closer one if both are, the
    even one if they are equally close. *)
Definition decimalOfLength (q : Q) (k : Z) : option (Z * Z) :=
  let n := decimalExponent q in
  let scale := pow10 (n - k) in
  let s := Qfloor (q / scale) in
  let below := (s, n) in
  let above := if (s + 1 <? 10 ^ k)%Z then ((s + 1)%Z, n) else ((10 ^ (k - 1))%Z, (n + 1)%Z) in
  match printsAs q k below, printsAs q k above with
  | true, true =>
      match (q - inject_Z s * scale ?= inject_Z (s + 1) * scale - q)%Q with
      | Lt => Some below
      | Gt => Some above
      | Eq => if Z.even s then Some below else Some above
      end
  | true, false => Some below
  | false, true => Some above
  | false, false => None
  end.

(** The shortest decimal of [q]: [k] as small as possible; 17 digits tell
    any two doubles apart. *)
Fixpoint shortestFrom (q : Q) (k : Z) (fuel : nat) : Z * Z * Z :=
  match fuel with
  | O => (Qfloor (q / pow10 (decimalExponent q - k)), decimalExponent q, k)
  | S fuel' =>
      match decimalOfLength q k with
      | Some (s, n) => (s, n, k)
      | None => shortestFrom q (k + 1) fuel'
      end
  end.

Definition zeros (n : Z) : JsString.t := repeat 48%N (Z.to_nat n).

Definition toStringPositive (q : Q) : JsString.t :=
  let '(s, n, k) := shortestFrom q 1 17 in
  let ds := digitsOf s in
  if ((k <=? n) && (n <=? 21))%Z then ds ++ zeros (n - k)
  else if ((0 <? n) && (n <=? 21))%Z
       then firstn (Z.to_nat n) ds ++ js "." ++ skipn (Z.to_nat n) ds
  else if ((-6 <? n) && (n <=? 0))%Z then js "0." ++ zeros (- n) ++ ds
  else
    let e := (n - 1)%Z in
    let exponent := (if (e <? 0)%Z then js "e-" else js "e+") ++ digitsOf (Z.abs e) in
    match ds with
    | d :: ((_ :: _) as more) => d :: js "." ++ more ++ exponent
    | _ => ds ++ exponent
    end.

Definition toString (a : t) : JsString.t :=
  match a with
  | NaN => js "NaN"
  | Infinity negative => if negative then js "-Infinity" else js "Infinity"
  | NegZero => js "0"
  | Fin q =>
      match (q ?= 0)%Q with
      | Eq => js "0"
      | Lt => js "-" ++ toStringPositive (- q)
      | Gt => toStringPositive q
      end
  end.

End JsNumber.

(* ================================================================= *)
(** ** The regular expressions of the filter grammar *)

Module Regex.

(** The patterns of [parseAndApplyFilter] are sequences of literal
    characters and of the two capturing groups [(.+?)] and [(.+)]. *)
Inductive item : Type :=
| Chr (c : N)
| LazyDots
| GreedyDots.

Record t : Type := { ignoreCase : bool; items : list item }.

Definition lits (s : string) : list item := map Chr (js s).

Definition asciiUpper (c : N) : N :=
  if ((97 <=? c) && (c <=? 122))%N then (c - 32)%N else c.

(** A literal of the pattern against a code unit of the input.  The
    literals are ASCII, for which the canonicalisation of the [i] flag is the
    ASCII case folding. *)
Definition chrMatches (ic : bool) (l c : N) : bool :=
  if ic then (asciiUpper l =? asciiUpper c)%N else (l =? c)%N.

(** [.] matches any code unit but a line terminator. *)
Definition dot (c : N) : bool := negb (isLineTerminator c).

(** The group [(.+?)] followed by the rest of the pattern [k]: after each
    code unit it takes, the rest is tried, and one more code unit is taken
    when the rest fails.  [taken] is what the group holds so far, in reverse. *)
Fixpoint lazyDots (k : JsString.t -> option (list JsString.t))
         (taken : JsString.t) (s : JsString.t) : option (list JsString.t) :=
  match s with
  | [] => None
  | c :: s' =>
      if dot c then
        match k s' with
        | Some caps => Some (rev (c :: taken) :: caps)
        | None => lazyDots k (c :: taken) s'
        end
      else None
  end.

(** The group [(.+)] followed by the rest of the pattern [k]: it first takes
    all it can, and gives back one code unit at a time while the rest fails. *)
Fixpoint greedyDots (k : JsString.t -> option (list JsString.t))
         (taken : JsString.t) (s : JsString.t) : option (list JsString.t) :=
  match s with
  | [] => None
  | c :: s' =>
      if dot c then
        match greedyDots k (c :: taken) s' with
        | Some r => Some r
        | None =>
            match k s' with
            | Some caps => Some (rev (c :: taken) :: caps)
            | None => None
            end
        end
      else None
  end.

(** Backtracking match of the items at the start of [s]; the result is the
    list of captures, in group order. *)
Fixpoint matchHere (ic : bool) (p : list item) (s : JsString.t) : option (list JsString.t) :=
  match p with
  | [] => Some []
  | Chr l :: p' =>
      match s with
      | c :: s' => if chrMatches ic l c then matchHere ic p' s' else None
      | [] => None
      end
  | LazyDots :: p' => lazyDots (matchHere ic p') [] s
  | GreedyDots :: p' => greedyDots (matchHere ic p') [] s
  end.

(** The leftmost match, as [RegExp.prototype.exec] finds it without the
    [g] flag. *)
Fixpoint search (ic : bool) (p : list item) (s : JsString.t) : option (list JsString.t) :=
  match matchHere ic p s with
  | Some caps => Some caps
  | None =>
      match s with
      | [] => None
      | _ :: s' => search ic p s'
      end
  end.

(** [s.match(re)]: the captures [match[1]], [match[2]], ... of the leftmost
    match, or [null]. *)
Definition exec (re : t) (s : JsString.t) : option (list JsString.t) :=
  search (ignoreCase re) (items re) s.

End Regex.

(* ================================================================= *)
(** ** The query builder and the builder's effects *)

(** What [parseValue] returns: a string, a number, a boolean or [null]. *)
Inductive jsvalue : Type :=
| VString (s : jsstring)
| VNumber (n : JsNumber.t)
| VBoolean (b : bool)
| VNull.

(** The calls made on the [SelectQueryBuilder].  The parameters object of
    [andWhere] is the list of its own properties. *)
Inductive call : Type :=
| andWhere (condition : jsstring) (parameters : list (jsstring * jsvalue))
| addOrderBy (sort : jsstring) (order : jsstring)
| leftJoinAndSelect (property : jsstring) (alias : jsstring)
| take (n : JsNumber.t)
| skip (n : JsNumber.t).

Inductive error : Type :=
| TypeError
| Upstream.

(** A method either returns or throws; in both cases the calls already made
    on the query builder stay made. *)
Inductive outcome (A : Type) : Type :=
| Ok (a : A) (qb : list call)
| Throw (e : error) (qb : list call).

Arguments Throw {A} e qb.

Definition M (A : Type) : Type := list call -> outcome A.

Definition ret {A : Type} (a : A) : M A := fun qb => Ok a qb.

Definition bind {A B : Type} (m : M A) (k : A -> M B) : M B :=
  fun qb =>
    match m qb with
    | Ok a qb' => k a qb'
    | Throw e qb' => Throw e qb'
    end.

Definition throw {A : Type} (e : error) : M A := fun qb => Throw e qb.

(** One call on the query builder. *)
Definition emit (c : call) : M unit := fun qb => Ok tt (qb ++ [c]).

Notation "m ;; k" := (bind m (fun _ => k)) (at level 61, right associativity).
Notation "x <- m ;; k" := (bind m (fun x => k))
  (at level 61, m at next level, right associativity).

(** [array.forEach((x, index) => f(x, index))], counting from [index]. *)
Fixpoint forEachFrom {A : Type} (index : nat) (f : A -> nat -> M unit) (l : list A) : M unit :=
  match l with
  | [] => ret tt
  | x :: l' => f x index ;; forEachFrom (S index) f l'
  end.

Definition forEach {A : Type} (f : A -> nat -> M unit) (l : list A) : M unit :=
  forEachFrom 0 f l.

(* ================================================================= *)
(** ** ODataBuilder *)

(** The request, already decoded: each option is absent or a string. *)
Record Request : Type := {
  _filter : option jsstring;
  _orderby : option jsstring;
  _expand : option jsstring;
  _top : option jsstring;
  _skip : option jsstring
}.

Record ODataBuilder : Type := {
  request : Request;
  allowedFiltersList : list jsstring;
  allowedSortsList : list jsstring;
  allowedExpandsList : list jsstring
}.

(** [ODataBuilder.for(repo, request)] *)
Definition for_ (req : Request) : ODataBuilder :=
  {| request := req; allowedFiltersList := []; allowedSortsList := [];
     allowedExpandsList := [] |}.

Definition allowedFilters (filters : list jsstring) (this : ODataBuilder) : ODataBuilder :=
  {| request := request this; allowedFiltersList := filters;
     allowedSortsList := allowedSortsList this;
     allowedExpandsList := allowedExpandsList this |}.

Definition allowedSorts (sorts : list jsstring) (this : ODataBuilder) : ODataBuilder :=
  {| request := request this; allowedFiltersList := allowedFiltersList this;
     allowedSortsList := sorts;
     allowedExpandsList := allowedExpandsList this |}.

Definition allowedExpands (expands : list jsstring) (this : ODataBuilder) : ODataBuilder :=
  {| request := request this; allowedFiltersList := allowedFiltersList this;
     allowedSortsList := allowedSortsList this;
     allowedExpandsList := expands |}.

(** The object [execute] resolves to. *)
Record ODataResponse (T : Type) : Type := {
  data : list T;
  current_page : JsNumber.t;
  from : JsNumber.t;
  last_page : JsNumber.t;
  per_page : JsNumber.t;
  to : JsNumber.t;
  total : JsNumber.t
}.

(** A clause strategy: the pattern and what to do with the captures. *)
Record strategy : Type := {
  pattern : Regex.t;
  handle : jsstring -> option jsstring -> M unit
}.

(** A value that may be [undefined], where a string is expected (a template
    literal, the argument of [parseInt]). *)
Definition templated (o : option jsstring) : jsstring :=
  match o with
  | Some s => s
  | None => js "undefined"
  end.

(** [parseValue]; code unit 34 is the double quote. *)
Definition parseValue (value : jsstring) : jsvalue :=
  if startsWith [34%N] value && endsWith [34%N] value then VString (slice 1 (-1) value)
  else if startsWith (js "'") value && endsWith (js "'") value then VString (slice 1 (-1) value)
  else if JsString.eqb value (js "true") then VBoolean true
  else if JsString.eqb value (js "false") then VBoolean false
  else if JsString.eqb value (js "null") then VNull
  else if negb (JsNumber.isNaN (JsNumber.Number value)) then VNumber (JsNumber.Number value)
  else VString value.

(** [addWhere] *)
Definition addWhere (condition : jsstring) (parameters : list (jsstring * jsvalue)) : M unit :=
  let condition :=
    if negb (startsWith (js "entity.") condition) && negb (includes (js ".") condition)
    then js "entity." ++ condition
    else condition in
  emit (andWhere condition parameters).

Section Builder.

(** Two conversions of the host are taken as they come: how a number prints
    inside a template literal, and [String.prototype.toUpperCase]. *)
Variable NumberToString : JsNumber.t -> jsstring.
Variable toUpperCase : jsstring -> jsstring.

(** [`${v}`] *)
Definition ToString (v : jsvalue) : jsstring :=
  match v with
  | VString s => s
  | VNumber n => NumberToString n
  | VBoolean true => js "true"
  | VBoolean false => js "false"
  | VNull => js "null"
  end.

(** [this.parseValue(value)] where [value] may be [undefined]: calling
    [startsWith] on [undefined] is a TypeError. *)
Definition parseValueOf (value : option jsstring) : M jsvalue :=
  match value with
  | Some v => ret (parseValue v)
  | None => throw TypeError
  end.

Definition nullStrategy (src sql : string) : strategy :=
  {| pattern := {| Regex.ignoreCase := true;
                   Regex.items := Regex.LazyDots :: Regex.lits src |};
     handle := fun field _ => addWhere (field ++ js sql) [] |}.

Definition compareStrategy (index : nat) (src sql : string) : strategy :=
  {| pattern := {| Regex.ignoreCase := false;
                   Regex.items := Regex.LazyDots :: Regex.lits src ++ [Regex.GreedyDots] |};
     handle := fun field value =>
       v <- parseValueOf value ;;
       addWhere (field ++ js sql ++ js ":val" ++ ofIndex index)
                [(js "val" ++ ofIndex index, v)] |}.

Definition likeStrategy (index : nat) (src : string) (before after : string) : strategy :=
  {| pattern := {| Regex.ignoreCase := false;
                   Regex.items := Regex.lits src ++ [Regex.LazyDots] ++ Regex.lits ","
                                    ++ [Regex.LazyDots] ++ Regex.lits ")" |};
     handle := fun field value =>
       v <- parseValueOf value ;;
       addWhere (field ++ js " LIKE :val" ++ ofIndex index)
                [(js "val" ++ ofIndex index,
                  VString (js before ++ ToString v ++ js after))] |}.

(** The [strategies] array of [parseAndApplyFilter]. *)
Definition strategies (index : nat) : list strategy :=
  [ nullStrategy " eq 'null'" " IS NULL";
    nullStrategy " ne 'null'" " IS NOT NULL";
    compareStrategy index " eq " " = ";
    compareStrategy index " ne " " != ";
    compareStrategy index " gt " " > ";
    compareStrategy index " ge " " >= ";
    compareStrategy index " lt " " < ";
    compareStrategy index " le " " <= ";
    likeStrategy index "contains(" "%" "%";
    likeStrategy index "startswith(" "" "%";
    likeStrategy index "endswith(" "%" "" ].

(** The loop [for (const strategy of strategies)]: the first pattern that
    matches decides, and the method returns. *)
Fixpoint tryStrategies (this : ODataBuilder) (filter : jsstring) (l : list strategy) : M unit :=
  match l with
  | [] => ret tt
  | strategy :: l' =>
      match Regex.exec (pattern strategy) filter with
      | Some captures =>
          match nth_error captures 0 with
          | None => throw TypeError
          | Some g1 =>
              let field := trim g1 in
              let value := option_map trim (nth_error captures 1) in
              if (0 <? length (allowedFiltersList this))
                 && negb (arrayIncludes field (allowedFiltersList this))
              then ret tt
              else handle strategy field value
          end
      | None => tryStrategies this filter l'
      end
  end.

(** [parseAndApplyFilter] *)
Definition parseAndApplyFilter (this : ODataBuilder) (filter : jsstring) (index : nat) : M unit :=
  tryStrategies this filter (strategies index).

(** [applyFilters] *)
Definition applyFilters (this : ODataBuilder) : M unit :=
  match _filter (request this) with
  | Some ((_ :: _) as f) =>
      forEach (fun part index => parseAndApplyFilter this (trim part) index)
              (split (js " and ") f)
  | _ => ret tt
  end.

(** [applySorts] *)
Definition applySorts (this : ODataBuilder) : M unit :=
  match _orderby (request this) with
  | Some ((_ :: _) as o) =>
      forEach (fun sort _ =>
                 let parts := split (js " ") (trim sort) in
                 let field := nth_error parts 0 in
                 let dir := nth_error parts 1 in
                 if (0 <? length (allowedSortsList this))
                    && negb (match field with
                             | Some f => arrayIncludes f (allowedSortsList this)
                             | None => false
                             end)
                 then ret tt
                 else match dir with
                      | Some d => emit (addOrderBy (js "entity." ++ templated field) (toUpperCase d))
                      | None => throw TypeError
                      end)
              (split (js ",") o)
  | _ => ret tt
  end.

(** [applyExpands] *)
Definition applyExpands (this : ODataBuilder) : M unit :=
  match _expand (request this) with
  | Some ((_ :: _) as e) =>
      forEach (fun expand _ =>
                 let relation := trim expand in
                 if (0 <? length (allowedExpandsList this))
                    && negb (arrayIncludes relation (allowedExpandsList this))
                 then ret tt
                 else emit (leftJoinAndSelect (js "entity." ++ relation) relation))
              (split (js ",") e)
  | _ => ret tt
  end.

(** [applyPagination] *)
Definition applyPagination (this : ODataBuilder) : M unit :=
  (if truthy (_top (request this))
   then emit (take (JsNumber.parseInt (templated (_top (request this)))))
   else ret tt) ;;
  (if truthy (_skip (request this))
   then emit (skip (JsNumber.parseInt (templated (_skip (request this)))))
   else ret tt).

(** Lines 45-46 of [execute]: the bounds as the envelope uses them. *)
Definition requestSkip (this : ODataBuilder) : JsNumber.t :=
  if truthy (_skip (request this))
  then JsNumber.parseInt (templated (_skip (request this)))
  else JsNumber.ofZ 0.

Definition requestLimit (this : ODataBuilder) : JsNumber.t :=
  if truthy (_top (request this))
  then JsNumber.parseInt (templated (_top (request this)))
  else JsNumber.ofZ 0.

Section Execute.

Variable T : Type.

(** [queryBuilder.getManyAndCount()]: the rows and the count come from the
    database; the call may be rejected. *)
Variable getManyAndCount : M (list T * JsNumber.t).

(** [execute] *)
Definition execute (this : ODataBuilder) : M (ODataResponse T) :=
  applyFilters this ;;
  applySorts this ;;
  applyExpands this ;;
  applyPagination this ;;
  r <- getManyAndCount ;;
  let (data, total) := r in
  let skip := requestSkip this in
  let limit := requestLimit this in
  let per_page := if JsNumber.gtZero limit then limit else total in
  let current_page :=
    if JsNumber.gtZero limit
    then JsNumber.add (JsNumber.floor (JsNumber.div skip limit)) (JsNumber.ofZ 1)
    else JsNumber.ofZ 1 in
  let last_page :=
    if JsNumber.gtZero limit
    then JsNumber.ceil (JsNumber.div total limit)
    else JsNumber.ofZ 1 in
  let from := if JsNumber.isZero total then JsNumber.ofZ 0
              else JsNumber.add skip (JsNumber.ofZ 1) in
  let to := if JsNumber.isZero total then JsNumber.ofZ 0
            else JsNumber.add skip (JsNumber.ofZ (Z.of_nat (length data))) in
  ret {| data := data; current_page := current_page; from := from;
         last_page := last_page; per_page := per_page; to := to; total := total |}.

End Execute.

End Builder.

(* ================================================================= *)
(** ** Running the builder *)

(** To run the builder the two host conversions have to be given.  Numbers
    print with [JsNumber.toString]; upper-casing is given on ASCII strings,
    where it is what the host does. *)
Definition asciiToUpperCase (s : jsstring) : jsstring := map Regex.asciiUpper s.

(** A request with no option set. *)
Definition noRequest : Request :=
  {| _filter := None; _orderby := None; _expand := None; _top := None; _skip := None |}.

(** Run a method on a fresh query builder. *)
Definition run {A : Type} (m : M A) : outcome A := m [].

Definition withFilter (f : string) : ODataBuilder :=
  for_ {| _filter := Some (js f); _orderby := None; _expand := None;
          _top := None; _skip := None |}.

Definition withOrderby (o : string) : ODataBuilder :=
  for_ {| _filter := None; _orderby := Some (js o); _expand := None;
          _top := None; _skip := None |}.

Definition withExpand (e : string) : ODataBuilder :=
  for_ {| _filter := None; _orderby := None; _expand := Some (js e);
          _top := None; _skip := None |}.

Definition withPage (top skip : string) : ODataBuilder :=
  for_ {| _filter := None; _orderby := None; _expand := None;
          _top := Some (js top); _skip := Some (js skip) |}.

(* ================================================================= *)
(** ** Vocabulary of the properties *)

(** A field passes an allow-list when the list is empty or has it. *)
Definition authorized (allowList : list jsstring) (field : jsstring) : Prop :=
  allowList = [] \/ In field allowList.

(** A field as the conditions refer to it: under the root alias unless it
    is already a dotted path. *)
Definition qualify (field : jsstring) : jsstring :=
  if includes (js ".") field then field else js "entity." ++ field.

(** The parameter name of the clause at position [index]. *)
Definition placeholder (index : nat) : jsstring := js "val" ++ ofIndex index.

(** The first strategy of [l] whose pattern matches, with the captures. *)
Fixpoint firstMatch (filter : jsstring) (l : list strategy) : option (strategy * list jsstring) :=
  match l with
  | [] => None
  | strategy :: l' =>
      match Regex.exec (pattern strategy) filter with
      | Some captures => Some (strategy, captures)
      | None => firstMatch filter l'
      end
  end.

(** The number of capturing groups of a pattern. *)
Fixpoint groups (p : list Regex.item) : nat :=
  match p with
  | [] => 0
  | Regex.Chr _ :: p' => groups p'
  | _ :: p' => S (groups p')
  end.


(** The least integer not below [n / d], for a positive [d]. *)
Definition ceilDiv (n d : Z) : Z := (- ((- n) / d))%Z.

(** The grammar of the clauses, as the [strategies] array lists it: the
    text of each pattern after or around its groups, and the SQL text or the
    wildcards of its handler. *)
Definition nullForms : list (string * string) :=
  [ (" eq 'null'", " IS NULL"); (" ne 'null'", " IS NOT NULL") ]%string.

Definition compareForms : list (string * string) :=
  [ (" eq ", " = "); (" ne ", " != "); (" gt ", " > "); (" ge ", " >= ");
    (" lt ", " < "); (" le ", " <= ") ]%string.

Definition likeForms : list (string * string * string) :=
  [ ("contains(", "%", "%"); ("startswith(", "", "%"); ("endswith(", "%", "") ]%string.

(** The calls of a loop whose body makes the calls [g x index]. *)
Fixpoint callsFrom {A : Type} (index : nat) (g : A -> nat -> list call) (l : list A) : list call :=
  match l with
  | [] => []
  | x :: l' => g x index ++ callsFrom (S index) g l'
  end.

(** What the handler of a matching strategy asks of the query builder,
    from the captures of the match: the condition on the qualified field and
    the parameters. *)
Inductive handled (nts : JsNumber.t -> jsstring) (index : nat) (st : strategy) (g1 : jsstring)
  : list jsstring -> call -> Prop :=
| handledNull (src sql : string) :
    In (src, sql) nullForms ->
    st = nullStrategy src sql ->
    handled nts index st g1 [g1] (andWhere (qualify (trim g1) ++ js sql) [])
| handledCompare (src sql : string) (g2 : jsstring) :
    In (src, sql) compareForms ->
    st = compareStrategy index src sql ->
    handled nts index st g1 [g1; g2]
      (andWhere (qualify (trim g1) ++ js sql ++ js ":" ++ placeholder index)
                [(placeholder index, parseValue (trim g2))])
| handledLike (src before after : string) (g2 : jsstring) :
    In (src, before, after) likeForms ->
    st = likeStrategy nts index src before after ->
    handled nts index st g1 [g1; g2]
      (andWhere (qualify (trim g1) ++ js " LIKE :" ++ placeholder index)
                [(placeholder index,
                  VString (js before ++ ToString nts (parseValue (trim g2)) ++ js after))]).

(** What follows the qualified field in a condition. *)
Definition conditionRests (index : nat) : list jsstring :=
  map (fun f => js (snd f)) nullForms
  ++ map (fun f => js (snd f) ++ js ":" ++ placeholder index) compareForms
  ++ [js " LIKE :" ++ placeholder index].

(** The calls a clause makes on the query builder. *)
Definition clauseCalls (nts : JsNumber.t -> jsstring) (this : ODataBuilder)
           (filter : jsstring) (index : nat) : list call :=
  match parseAndApplyFilter nts this filter index [] with
  | Ok _ calls => calls
  | Throw _ calls => calls
  end.

(** The allow-list test as the guards compute it. *)
Definition authorizedb (allowList : list jsstring) (field : jsstring) : bool :=
  negb ((0 <? length allowList) && negb (arrayIncludes field allowList)).

(** The tokens of an [$orderby] entry: the field, the direction, and
    whatever follows. *)
Definition sortTokens (sort : jsstring) : list jsstring := split (js " ") (trim sort).

(** The ordering an [$orderby] entry asks for, when its field passes the
    allow-list and it has a direction token. *)
Definition sortCall (up : jsstring -> jsstring) (allowList : list jsstring) (sort : jsstring)
  : list call :=
  match sortTokens sort with
  | field :: dir :: _ =>
      if authorizedb allowList field
      then [addOrderBy (js "entity." ++ field) (up dir)]
      else []
  | _ => []
  end.

(** An entry that passes the allow-list and has no direction token. *)
Definition lacksDirection (allowList : list jsstring) (sort : jsstring) : bool :=
  match sortTokens sort with
  | [field] => authorizedb allowList field
  | _ => false
  end.

(** The number of joins of the relation [r] among the calls. *)
Definition joins (r : jsstring) (calls : list call) : nat :=
  length (filter (fun c => match c with
                           | leftJoinAndSelect property alias =>
                               JsString.eqb property (js "entity." ++ r) && JsString.eqb alias r
                           | _ => false
                           end) calls).

(** The number of entries of a list that are [r]. *)
Definition occurrences (r : jsstring) (l : list jsstring) : nat :=
  length (filter (JsString.eqb r) l).

(** Decimal literals: an optional [-], digits, and an optional fraction. *)
Definition digitChar (d : N) : N := (48 + d mod 10)%N.

Definition decimalLiteral (negative : bool) (ip fp : list N) : jsstring :=
  (if negative then js "-" else [])
  ++ map digitChar ip
  ++ match fp with
     | [] => []
     | _ => js "." ++ map digitChar fp
     end.

(** The number a decimal literal denotes. *)
Definition decimalValue (negative : bool) (ip fp : list N) : Q :=
  JsNumber.scale10
    (JsNumber.signed negative
       (Z.of_N (JsNumber.valueOfDigits 10 (map (fun d => (d mod 10)%N) (ip ++ fp)))))
    (- Z.of_nat (length fp)).

(** A text between two double quotes (code unit 34). *)
Definition doubleQuoted (s : jsstring) : jsstring := 34%N :: s ++ [34%N].

(** The parameters of a call. *)
Definition parametersOf (c : call) : list (jsstring * jsvalue) :=
  match c with
  | andWhere _ parameters => parameters
  | _ => []
  end.

(** A call that adds a condition. *)
Definition isAndWhere (c : call) : bool :=
  match c with
  | andWhere _ _ => true
  | _ => false
  end.

(** The clauses of a request, as [applyFilters] visits them. *)
Definition clausesOf (this : ODataBuilder) : list jsstring :=
  match _filter (request this) with
  | Some ((_ :: _) as f) => split (js " and ") f
  | _ => []
  end.

(** The entries of [$orderby] and of [$expand], as the loops visit them. *)
Definition sortEntriesOf (this : ODataBuilder) : list jsstring :=
  match _orderby (request this) with
  | Some ((_ :: _) as o) => split (js ",") o
  | _ => []
  end.

Definition expandEntriesOf (this : ODataBuilder) : list jsstring :=
  match _expand (request this) with
  | Some ((_ :: _) as e) => split (js ",") e
  | _ => []
  end.

(** The join an [$expand] entry asks for, when it passes the allow-list. *)
Definition expandCall (allowList : list jsstring) (expand : jsstring) : list call :=
  if authorizedb allowList (trim expand)
  then [leftJoinAndSelect (js "entity." ++ trim expand) (trim expand)]
  else [].

(** The bounds [applyPagination] forwards. *)
Definition pageCallsOf (this : ODataBuilder) : list call :=
  match _top (request this) with
  | Some ((_ :: _) as t) => [take (JsNumber.parseInt t)]
  | _ => []
  end
  ++ match _skip (request this) with
     | Some ((_ :: _) as s) => [skip (JsNumber.parseInt s)]
     | _ => []
     end.

(** The conditions of the whole filter. *)
Definition filterCallsOf (nts : JsNumber.t -> jsstring) (this : ODataBuilder) : list call :=
  callsFrom 0 (fun part index => clauseCalls nts this (trim part) index) (clausesOf this).

(** The pieces of a list written one after the other with the separator
    [c] between them, as [pieces.join(c)] writes them. *)
Fixpoint joinWith (c : N) (pieces : list jsstring) : jsstring :=
  match pieces with
  | [] => []
  | [p] => p
  | p :: ps => p ++ c :: joinWith c ps
  end.

(** White space only. *)
Definition blank (s : jsstring) : bool := forallb isTrimmed s.

(** A token: not empty, with no white space and no comma (code unit 44). *)
Definition isToken (s : jsstring) : bool :=
  match s with
  | [] => false
  | _ => forallb (fun c => negb (isTrimmed c) && negb (c =? 44)%N) s
  end.

(** An [$orderby] entry as a client writes it: a field, one space, a
    direction, with optional white space around. *)
Record sortEntry : Type := {
  spaceBefore : jsstring;
  sortField : jsstring;
  sortDirection : jsstring;
  spaceAfter : jsstring
}.

Definition writeSort (e : sortEntry) : jsstring :=
  spaceBefore e ++ sortField e ++ js " " ++ sortDirection e ++ spaceAfter e.

Definition wellFormedSort (e : sortEntry) : bool :=
  blank (spaceBefore e) && isToken (sortField e)
  && isToken (sortDirection e) && blank (spaceAfter e).

(** An [$expand] entry as a client writes it: a relation name with optional
    white space around. *)
Record expandEntry : Type := {
  expandBefore : jsstring;
  relation : jsstring;
  expandAfter : jsstring
}.

Definition writeExpand (e : expandEntry) : jsstring :=
  expandBefore e ++ relation e ++ expandAfter e.

Definition wellFormedExpand (e : expandEntry) : bool :=
  blank (expandBefore e) && isToken (relation e) && blank (expandAfter e).

(** A plain word: not empty, with no white space or line terminator, no
    parenthesis and no comma (code units 40, 41, 44). *)
Definition isPlain (s : jsstring) : bool :=
  match s with
  | [] => false
  | _ => forallb (fun c => negb (isTrimmed c)
                           && negb (c =? 40)%N && negb (c =? 41)%N
                           && negb (c =? 44)%N) s
  end.

(** The digits of a decimal number, most significant first. *)
Fixpoint uintDigits (d : Decimal.uint) : list N :=
  match d with
  | Decimal.Nil => []
  | Decimal.D0 d => 0%N :: uintDigits d
  | Decimal.D1 d => 1%N :: uintDigits d
  | Decimal.D2 d => 2%N :: uintDigits d
  | Decimal.D3 d => 3%N :: uintDigits d
  | Decimal.D4 d => 4%N :: uintDigits d
  | Decimal.D5 d => 5%N :: uintDigits d
  | Decimal.D6 d => 6%N :: uintDigits d
  | Decimal.D7 d => 7%N :: uintDigits d
  | Decimal.D8 d => 8%N :: uintDigits d
  | Decimal.D9 d => 9%N :: uintDigits d
  end.

(** A clause as a client writes it: a null test, a comparison or a function
    form, on plain words. *)
Inductive clause : Type :=
| NullTest (src sql : string) (f : jsstring)
| Comparison (src sql : string) (f v : jsstring)
| FunctionForm (src before after : string) (f v : jsstring).

Definition writeClause (c : clause) : jsstring :=
  match c with
  | NullTest src _ f => f ++ js src
  | Comparison src _ f v => f ++ js src ++ v
  | FunctionForm src _ _ f v => js src ++ f ++ js "," ++ v ++ js ")"
  end.

Definition clauseField (c : clause) : jsstring :=
  match c with
  | NullTest _ _ f | Comparison _ _ f _ | FunctionForm _ _ _ f _ => f
  end.

(** The operator is one of the grammar, the words are plain, and the value
    of a comparison is neither a quoted [null] nor the word [and]. *)
Definition wellFormedClause (c : clause) : Prop :=
  match c with
  | NullTest src sql f => In (src, sql) nullForms /\ isPlain f = true
  | Comparison src sql f v =>
      In (src, sql) compareForms /\ isPlain f = true /\ isPlain v = true
      /\ Regex.matchHere true (Regex.lits "'null'") v = None
      /\ v <> js "and"
  | FunctionForm src before after f v =>
      In (src, before, after) likeForms /\ isPlain f = true /\ isPlain v = true
  end.

(** The condition a clause at position [index] stands for. *)
Definition clauseCall (nts : JsNumber.t -> jsstring) (index : nat) (c : clause) : call :=
  match c with
  | NullTest _ sql f => andWhere (qualify f ++ js sql) []
  | Comparison _ sql f v =>
      andWhere (qualify f ++ js sql ++ js ":val" ++ ofIndex index)
               [(js "val" ++ ofIndex index, parseValue v)]
  | FunctionForm _ before after f v =>
      andWhere (qualify f ++ js " LIKE :val" ++ ofIndex index)
               [(js "val" ++ ofIndex index,
                 VString (js before ++ ToString nts (parseValue v) ++ js after))]
  end.

(** Clauses written one after the other with [" and "] between them. *)
Fixpoint joinAnd (pieces : list jsstring) : jsstring :=
  match pieces with
  | [] => []
  | [p] => p
  | p :: ps => p ++ js " and " ++ joinAnd ps
  end.


(** The join of a relation name: [leftJoinAndSelect(`entity.${name}`, name)]. *)
Definition joinOf (name : jsstring) : call :=
  leftJoinAndSelect (js "entity." ++ name) name.

(** A [$top] or [$skip] as the builder reads it: an option that is absent
    or empty counts as 0, any other is what [parseInt] makes of it. *)
Definition readBound (bound : option jsstring) : JsNumber.t :=
  match bound with
  | Some ((_ :: _) as s) => JsNumber.parseInt s
  | _ => JsNumber.ofZ 0
  end.

(** The number a decimal literal reads as: the double nearest to the value
    of its digits, negated under a [-] (so that [-0] reads as [-0]). *)
Definition decimalNumber (negative : bool) (ip fp : list N) : JsNumber.t :=
  let a := JsNumber.round (decimalValue false ip fp) in
  if negative then JsNumber.neg a else a.

(** A text between two single quotes (code unit 39). *)
Definition singleQuoted (s : jsstring) : jsstring := 39%N :: s ++ [39%N].

(** [s] begins and ends with the quote [q]; the string that is [q] alone
    does both. *)
Definition quotedBy (q : N) (s : jsstring) : bool :=
  startsWith [q] s && endsWith [q] s.

(* ===== Properties ===== *)

Example parseInt_ex1 : JsNumber.parseInt (js " 10px") = JsNumber.ofZ 10. Proof. reflexivity. Qed.
Example parseInt_ex2 : JsNumber.parseInt (js "-5") = JsNumber.ofZ (-5). Proof. reflexivity. Qed.
Example parseInt_ex3 : JsNumber.parseInt (js "abc") = JsNumber.NaN. Proof. reflexivity. Qed.
Example parseInt_ex4 : JsNumber.parseInt (js "0x1f") = JsNumber.ofZ 31. Proof. reflexivity. Qed.
Example Number_ex1 : JsNumber.Number (js "42") = JsNumber.ofZ 42. Proof. reflexivity. Qed.
Example Number_ex2 : JsNumber.Number (js "-1.50") = JsNumber.Fin (-3 # 2). Proof. reflexivity. Qed.
Example Number_ex3 : JsNumber.Number (js "1e3") = JsNumber.ofZ 1000. Proof. reflexivity. Qed.
Example Number_ex4 : JsNumber.Number (js "0x10") = JsNumber.ofZ 16. Proof. reflexivity. Qed.
Example Number_ex5 : JsNumber.Number (js "") = JsNumber.ofZ 0. Proof. reflexivity. Qed.
Example Number_ex6 : JsNumber.Number (js "12abc") = JsNumber.NaN. Proof. reflexivity. Qed.
Example Number_ex7 : JsNumber.Number (js "-Infinity") = JsNumber.Infinity true. Proof. reflexivity. Qed.
Example Number_ex8 : JsNumber.Number (js ".") = JsNumber.NaN. Proof. reflexivity. Qed.
Example Number_ex9 : JsNumber.Number (js "5.") = JsNumber.ofZ 5. Proof. reflexivity. Qed.
Example Number_ex10 : JsNumber.Number (js "-0x10") = JsNumber.NaN. Proof. reflexivity. Qed.
Example Number_ex11 : JsNumber.Number (js "1e") = JsNumber.NaN. Proof. reflexivity. Qed.
Example Number_ex12 : JsNumber.Number (js ".5e1") = JsNumber.ofZ 5. Proof. reflexivity. Qed.
(** *** Doubles: rounding, signed zero, printing *)

Example parseInt_ex5 :
  JsNumber.parseInt (js "9007199254740993") = JsNumber.ofZ 9007199254740992.
Proof. reflexivity. Qed.

Example parseInt_ex6 : JsNumber.parseInt (js "-0") = JsNumber.NegZero.
Proof. reflexivity. Qed.

Example Number_ex13 : JsNumber.Number (js "1e400") = JsNumber.Infinity false.
Proof. vm_compute. reflexivity. Qed.

Example Number_ex14 : JsNumber.Number (js "1e-400") = JsNumber.ofZ 0.
Proof. vm_compute. reflexivity. Qed.

Example Number_ex15 : JsNumber.Number (js "-0.0") = JsNumber.NegZero.
Proof. reflexivity. Qed.

Example Number_ex16 :
  JsNumber.Number (js "0.1") = JsNumber.Fin (3602879701896397 # 36028797018963968).
Proof. vm_compute. reflexivity. Qed.

Example add_ex1 :
  JsNumber.add (JsNumber.ofZ 9007199254740992) (JsNumber.ofZ 1) = JsNumber.ofZ 9007199254740992.
Proof. reflexivity. Qed.

Example add_ex2 :
  JsNumber.toString (JsNumber.add (JsNumber.Number (js "0.1")) (JsNumber.Number (js "0.2")))
  = js "0.30000000000000004".
Proof. vm_compute. reflexivity. Qed.

Example div_ex1 :
  JsNumber.floor (JsNumber.div (JsNumber.ofZ 13510798882111490) (JsNumber.ofZ 3))
  = JsNumber.ofZ 4503599627370497.
Proof. vm_compute. reflexivity. Qed.

Example div_ex2 :
  JsNumber.div (JsNumber.ofZ 1) JsNumber.NegZero = JsNumber.Infinity true
  /\ JsNumber.div (JsNumber.ofZ 0) (JsNumber.ofZ (-5)) = JsNumber.NegZero
  /\ JsNumber.div (JsNumber.ofZ 0) (JsNumber.ofZ 0) = JsNumber.NaN.
Proof. repeat split. Qed.

Example ceil_ex1 :
  JsNumber.ceil (JsNumber.div (JsNumber.ofZ (-1)) (JsNumber.ofZ 2)) = JsNumber.NegZero.
Proof. reflexivity. Qed.

Example toString_ex1 :
  map (fun s => JsNumber.toString (JsNumber.Number (js s)))
      [ "42"; "-1.50"; "1e21"; "1e-7"; "0.000001"; "123456789012345680000";
        "5e-324"; "1.7976931348623157e308"; "9007199254740993"; "-0"; "0x1F" ]%string
  = map js [ "42"; "-1.5"; "1e+21"; "1e-7"; "0.000001"; "123456789012345680000";
             "5e-324"; "1.7976931348623157e+308"; "9007199254740992"; "0"; "31" ]%string.
Proof. vm_compute. reflexivity. Qed.

Example exec_eq :
  Regex.exec {| Regex.ignoreCase := false;
                Regex.items := Regex.LazyDots :: Regex.lits " eq " ++ [Regex.GreedyDots] |}
             (js "name eq 'John' eq x") = Some [js "name"; js "'John' eq x"].
Proof. reflexivity. Qed.

Example exec_contains :
  Regex.exec {| Regex.ignoreCase := false;
                Regex.items := Regex.lits "contains(" ++ [Regex.LazyDots] ++ Regex.lits ","
                                 ++ [Regex.LazyDots] ++ Regex.lits ")" |}
             (js "x contains(a,b,c)) ") = Some [js "a"; js "b,c"].
Proof. reflexivity. Qed.

(** *** The unit tests of the repository *)

Example test_pagination :
  run (applyPagination (withPage "10" "5"))
  = Ok tt [take (JsNumber.ofZ 10); skip (JsNumber.ofZ 5)].
Proof. reflexivity. Qed.

Example test_sorting :
  run (applySorts asciiToUpperCase (withOrderby "name ASC"))
  = Ok tt [addOrderBy (js "entity.name") (js "ASC")].
Proof. reflexivity. Qed.

Example test_sorting_allowed :
  run (applySorts asciiToUpperCase (allowedSorts [js "name"] (withOrderby "name ASC, age DESC")))
  = Ok tt [addOrderBy (js "entity.name") (js "ASC")].
Proof. reflexivity. Qed.

Example test_filter_eq :
  run (applyFilters JsNumber.toString (withFilter "name eq 'John'"))
  = Ok tt [andWhere (js "entity.name = :val0") [(js "val0", VString (js "John"))]].
Proof. reflexivity. Qed.

Example test_filter_contains :
  run (applyFilters JsNumber.toString (withFilter "contains(name,'John')"))
  = Ok tt [andWhere (js "entity.name LIKE :val0") [(js "val0", VString (js "%John%"))]].
Proof. reflexivity. Qed.

Example test_expand :
  run (applyExpands (withExpand "profile"))
  = Ok tt [leftJoinAndSelect (js "entity.profile") (js "profile")].
Proof. reflexivity. Qed.

Example test_expand_allowed :
  run (applyExpands (allowedExpands [js "profile"] (withExpand "profile, posts")))
  = Ok tt [leftJoinAndSelect (js "entity.profile") (js "profile")].
Proof. reflexivity. Qed.

Example test_response_first_page :
  run (execute JsNumber.toString asciiToUpperCase (ret ([tt], JsNumber.ofZ 15)) (withPage "10" "0"))
  = Ok {| data := [tt]; current_page := JsNumber.ofZ 1; from := JsNumber.ofZ 1;
          last_page := JsNumber.ofZ 2; per_page := JsNumber.ofZ 10;
          to := JsNumber.ofZ 1; total := JsNumber.ofZ 15 |}
       [take (JsNumber.ofZ 10); skip (JsNumber.ofZ 0)].
Proof. reflexivity. Qed.

Example test_response_second_page :
  run (execute JsNumber.toString asciiToUpperCase (ret ([tt], JsNumber.ofZ 15)) (withPage "10" "10"))
  = Ok {| data := [tt]; current_page := JsNumber.ofZ 2; from := JsNumber.ofZ 11;
          last_page := JsNumber.ofZ 2; per_page := JsNumber.ofZ 10;
          to := JsNumber.ofZ 11; total := JsNumber.ofZ 15 |}
       [take (JsNumber.ofZ 10); skip (JsNumber.ofZ 10)].
Proof. reflexivity. Qed.

(* ================================================================= *)
(** ** Doubles *)

Lemma pow2_pos (e : Z) : (0 < JsNumber.pow2 e)%Q.
Proof. apply Qpower_0_lt. reflexivity. Qed.

Lemma pow2_add (a b : Z) : (JsNumber.pow2 (a + b) == JsNumber.pow2 a * JsNumber.pow2 b)%Q.
Proof. apply Qpower_plus. discriminate. Qed.

Lemma pow2_Z (e : Z) : (0 <= e)%Z -> (JsNumber.pow2 e == inject_Z (2 ^ e))%Q.
Proof. intros H. symmetry. apply (Zpower_Qpower 2 e H). Qed.

Lemma pow2_le (a b : Z) : (a <= b)%Z -> (JsNumber.pow2 a <= JsNumber.pow2 b)%Q.
Proof. intros H. apply Qpower_le_compat_l; [exact H | discriminate]. Qed.

Lemma pow2_inv (e : Z) : (JsNumber.pow2 e * JsNumber.pow2 (- e) == 1)%Q.
Proof. rewrite <- pow2_add, Z.add_opp_diag_r. reflexivity. Qed.

(** The exponent is not above the number. *)
Lemma ilog2_lower (q : Q) : (0 < q)%Q -> (JsNumber.pow2 (JsNumber.ilog2 q) <= q)%Q.
Proof.
  intros Hq. unfold JsNumber.ilog2.
  destruct (Qle_bool _ q) eqn:E; [now apply Qle_bool_iff|]. clear E.
  destruct q as [n d]. unfold Qlt in Hq. cbn [Qnum Qden] in *.
  rewrite Z.mul_1_r in Hq.
  pose proof (Z.log2_spec n Hq) as [Ln _].
  pose proof (Z.log2_spec (Zpos d) eq_refl) as [_ Ld].
  pose proof (Z.log2_nonneg n) as Nn.
  pose proof (Z.log2_nonneg (Zpos d)) as Nd.
  set (ln := Z.log2 n) in *. set (ld := Z.log2 (Zpos d)) in *.
  apply (Qmult_le_r _ _ (JsNumber.pow2 (Z.succ ld))); [apply pow2_pos|].
  rewrite <- pow2_add.
  replace (ln - ld - 1 + Z.succ ld)%Z with ln by lia.
  rewrite !pow2_Z by lia.
  unfold Qle, Qmult, inject_Z. cbn [Qnum Qden].
  rewrite Pos.mul_1_r, Z.mul_1_r.
  assert (0 < 2 ^ ln)%Z by (apply Z.pow_pos_nonneg; lia).
  nia.
Qed.

Lemma roundHalfEven_near (q : Q) :
  (q - (1 # 2) <= inject_Z (JsNumber.roundHalfEven q) <= q + (1 # 2))%Q.
Proof.
  unfold JsNumber.roundHalfEven.
  pose proof (Qfloor_le q) as L. pose proof (Qlt_floor q) as U.
  rewrite inject_Z_plus in U.
  destruct (Qcompare_spec (q - inject_Z (Qfloor q)) (1 # 2)) as [E|E|E];
    [destruct (Z.even (Qfloor q))| |];
    rewrite ?inject_Z_plus; change (inject_Z 1) with 1%Q in *; split; lra.
Qed.

Lemma roundHalfEven_integer (q : Q) (z : Z) :
  (q == inject_Z z)%Q -> JsNumber.roundHalfEven q = z.
Proof.
  intros E. unfold JsNumber.roundHalfEven.
  rewrite (Qfloor_comp _ _ E), Qfloor_Z.
  destruct (Qcompare_spec (q - inject_Z z) (1 # 2)); [lra | reflexivity | lra].
Qed.

Lemma Qred_inject_Z (z : Z) : Qred (inject_Z z) = inject_Z z.
Proof. apply Qcanon.Qred_identity. cbn. apply Z.gcd_1_r. Qed.

(** A multiple of the unit of its binade is a double. *)
Lemma nearest_multiple (q : Q) (k : Z) :
  (q == inject_Z k * JsNumber.pow2 (Z.max (JsNumber.ilog2 q - 52) (-1074)))%Q ->
  (JsNumber.nearest q == q)%Q.
Proof.
  intros E. unfold JsNumber.nearest.
  set (u := Z.max (JsNumber.ilog2 q - 52) (-1074)) in *.
  rewrite Qred_correct.
  rewrite (@roundHalfEven_integer _ k); [now symmetry|].
  rewrite E. field. pose proof (pow2_pos u). lra.
Qed.

(** The integers up to [2^53] are doubles. *)
Lemma nearest_integer (q : Q) (z : Z) :
  (0 < z <= 2 ^ 53)%Z -> (q == inject_Z z)%Q -> JsNumber.nearest q = inject_Z z.
Proof.
  intros Hz E.
  assert (Hq : (0 < q)%Q).
  { rewrite E. change 0%Q with (inject_Z 0). rewrite <- Zlt_Qlt. lia. }
  pose proof (ilog2_lower Hq) as L.
  assert (He : (JsNumber.ilog2 q <= 53)%Z).
  { destruct (Z_le_gt_dec (JsNumber.ilog2 q) 53) as [|G]; [assumption|exfalso].
    pose proof (@pow2_le 54 (JsNumber.ilog2 q) ltac:(lia)) as P.
    rewrite pow2_Z in P by lia.
    assert (X : (inject_Z (2 ^ 54) <= inject_Z z)%Q) by (rewrite <- E; lra).
    rewrite <- Zle_Qle in X. lia. }
  assert (N : (JsNumber.nearest q == q)%Q).
  { set (u := Z.max (JsNumber.ilog2 q - 52) (-1074)).
    destruct (Z_le_gt_dec u 0) as [U|U].
    - apply (@nearest_multiple q (z * 2 ^ (- u))). fold u.
      rewrite inject_Z_mult, <- pow2_Z by lia.
      rewrite E. pose proof (pow2_inv u). 
      transitivity (inject_Z z * (JsNumber.pow2 u * JsNumber.pow2 (- u)))%Q; [rewrite H; ring | ring].
    - assert (u = 1%Z) by lia.
      assert (JsNumber.ilog2 q = 53%Z) as E53 by lia.
      rewrite E53, pow2_Z in L by lia.
      assert (X : (inject_Z (2 ^ 53) <= inject_Z z)%Q) by (rewrite <- E; lra).
      rewrite <- Zle_Qle in X.
      apply (@nearest_multiple q (2 ^ 52)). fold u. rewrite H.
      rewrite E, pow2_Z by lia. rewrite <- inject_Z_mult.
      assert (z = 2 ^ 53)%Z as -> by lia. reflexivity. }
  rewrite <- Qred_inject_Z. unfold JsNumber.nearest in *.
  apply Qred_complete. rewrite Qred_correct in N. now rewrite N.
Qed.

Lemma nearest_below_overflow (v : Q) (z : Z) :
  (v <= inject_Z z)%Q -> (z <= 2 ^ 53)%Z -> Qle_bool (JsNumber.pow2 1024) v = false.
Proof.
  intros Hv Hz. destruct (Qle_bool _ v) eqn:E; [exfalso | reflexivity].
  apply Qle_bool_iff in E.
  pose proof (@pow2_le 54 1024 ltac:(lia)) as P. rewrite (@pow2_Z 54) in P by lia.
  assert (X : (inject_Z (2 ^ 54) <= inject_Z z)%Q) by lra.
  rewrite <- Zle_Qle in X. lia.
Qed.

(** Rounding leaves the integers up to [2^53] as they are. *)
Lemma round_integer (q : Q) (z : Z) :
  (- 2 ^ 53 <= z <= 2 ^ 53)%Z -> (q == inject_Z z)%Q -> JsNumber.round q = JsNumber.ofZ z.
Proof.
  intros Hz E. unfold JsNumber.round, JsNumber.ofZ.
  destruct (Qcompare_spec q 0) as [C|C|C].
  - rewrite E in C. change 0%Q with (inject_Z 0) in C. apply (proj1 (inject_Z_injective z 0)) in C. now subst z.
  - assert (Hn : (0 < - z)%Z).
    { rewrite E in C. change 0%Q with (inject_Z 0) in C. rewrite <- Zlt_Qlt in C. lia. }
    assert (E' : (- q == inject_Z (- z))%Q) by (rewrite inject_Z_opp, E; reflexivity).
    rewrite (@nearest_integer (- q) (- z)) by (lia || assumption).
    rewrite (@nearest_below_overflow _ (- z)) by (lia || apply Qle_refl).
    destruct (Qeq_bool (inject_Z (- z)) 0) eqn:Z0.
    + apply Qeq_bool_iff in Z0. change 0%Q with (inject_Z 0) in Z0.
      apply (proj1 (inject_Z_injective (- z) 0)) in Z0. lia.
    + f_equal. rewrite <- (Qred_inject_Z z). apply Qred_complete.
      rewrite inject_Z_opp. ring.
  - assert (Hp : (0 < z)%Z).
    { rewrite E in C. change 0%Q with (inject_Z 0) in C. rewrite <- Zlt_Qlt in C. lia. }
    rewrite (@nearest_integer q z) by (lia || assumption).
    now rewrite (@nearest_below_overflow _ z) by (lia || apply Qle_refl).
Qed.

(** The double nearest to a quotient of integers below [2^53] that is not
    an integer lies strictly between the integers around the quotient: the
    quotient is at least [1/b] away from them, and its rounding moves it by
    less. *)
Lemma nearest_quotient (a b : Z) :
  (0 < a < 2 ^ 53)%Z -> (0 < b < 2 ^ 53)%Z -> (a mod b <> 0)%Z ->
  (inject_Z (a / b) < JsNumber.nearest (inject_Z a / inject_Z b)
   < inject_Z (a / b) + 1)%Q.
Proof.
  intros Ha Hb Hr.
  set (q := (inject_Z a / inject_Z b)%Q).
  assert (HB : (0 < inject_Z b)%Q).
  { change 0%Q with (inject_Z 0). rewrite <- Zlt_Qlt. lia. }
  assert (HA : (0 < inject_Z a)%Q).
  { change 0%Q with (inject_Z 0). rewrite <- Zlt_Qlt. lia. }
  assert (Eq : (q * inject_Z b == inject_Z a)%Q).
  { unfold q. field. lra. }
  assert (Hq : (0 < q)%Q).
  { unfold q. apply Qlt_shift_div_l; lra. }
  pose proof (ilog2_lower Hq) as L.
  unfold JsNumber.nearest. fold q.
  set (u := Z.max (JsNumber.ilog2 q - 52) (-1074)).
  rewrite Qred_correct.
  pose proof (pow2_pos u) as HP.
  pose proof (roundHalfEven_near (q / JsNumber.pow2 u)) as [N1 N2].
  set (R := inject_Z (JsNumber.roundHalfEven (q / JsNumber.pow2 u))) in *.
  (* the unit is small against [1/b] *)
  assert (W : (inject_Z b * JsNumber.pow2 u < 2)%Q).
  { assert (A53 : (inject_Z a < inject_Z (2 ^ 53))%Q) by (rewrite <- Zlt_Qlt; lia).
    assert (B53 : (inject_Z b < inject_Z (2 ^ 53))%Q) by (rewrite <- Zlt_Qlt; lia).
    pose proof (pow2_pos (-52)) as P52.
    assert (T : (inject_Z (2 ^ 53) * JsNumber.pow2 (-52) == 2)%Q).
    { pose proof (pow2_inv 52) as I52. rewrite (@pow2_Z 52) in I52 by lia.
      change (inject_Z (2 ^ 53)) with (2 * inject_Z (2 ^ 52))%Q.
      rewrite <- Qmult_assoc. change (- (52))%Z with (-52)%Z in I52. rewrite I52. reflexivity. }
    generalize dependent (inject_Z (2 ^ 53)). intros c53 A53 B53 T.
    destruct (Z.max_spec (JsNumber.ilog2 q - 52) (-1074)) as [[_ U]|[_ U]]; fold u in U; rewrite U.
    - pose proof (@pow2_le (-1074) (-52) ltac:(lia)) as M.
      apply Qle_lt_trans with (inject_Z b * JsNumber.pow2 (-52))%Q.
      + apply Qmult_le_l; assumption.
      + rewrite <- T. apply Qmult_lt_r; assumption.
    - replace (JsNumber.ilog2 q - 52)%Z with (JsNumber.ilog2 q + - 52)%Z by lia.
      rewrite pow2_add, Qmult_assoc, <- T.
      apply Qmult_lt_r; [assumption|].
      apply Qle_lt_trans with (inject_Z a); [|assumption].
      rewrite <- Eq, (Qmult_comm q). apply Qmult_le_l; assumption. }
  (* the rounding moves the quotient by less than [1/b] *)
  assert (Em : (q / JsNumber.pow2 u * JsNumber.pow2 u == q)%Q) by (field; lra).
  set (m := (q / JsNumber.pow2 u)%Q) in *.
  (* the integers around it are at least [1/b] away *)
  pose proof (Z.div_mod a b ltac:(lia)) as D.
  pose proof (Z.mod_pos_bound a b ltac:(lia)) as Bd.
  assert (D1 : (inject_Z (a / b) * inject_Z b + 1 <= inject_Z a)%Q).
  { rewrite <- inject_Z_mult. change 1%Q with (inject_Z 1). rewrite <- inject_Z_plus, <- Zle_Qle. nia. }
  assert (D2 : (inject_Z a + 1 <= (inject_Z (a / b) + 1) * inject_Z b)%Q).
  { change 1%Q with (inject_Z 1). rewrite <- !inject_Z_plus, <- inject_Z_mult, <- Zle_Qle. nia. }
  set (K := inject_Z (a / b)) in *.
  set (w := (JsNumber.pow2 u * inject_Z b)%Q).
  assert (Hw : (0 < w < 2)%Q).
  { unfold w. split; [apply Qmult_lt_0_compat; assumption | now rewrite Qmult_comm]. }
  assert (MA : (m * w == inject_Z a)%Q).
  { unfold w. now rewrite Qmult_assoc, Em. }
  assert (Lo : ((m - (1 # 2)) * w <= R * w)%Q) by (apply Qmult_le_r; lra).
  assert (Hi : (R * w <= (m + (1 # 2)) * w)%Q) by (apply Qmult_le_r; lra).
  assert (Lo' : (inject_Z a - (1 # 2) * w <= R * w)%Q).
  { rewrite <- MA. setoid_replace (m * w - (1 # 2) * w)%Q with ((m - (1 # 2)) * w)%Q by ring.
    exact Lo. }
  assert (Hi' : (R * w <= inject_Z a + (1 # 2) * w)%Q).
  { rewrite <- MA. setoid_replace (m * w + (1 # 2) * w)%Q with ((m + (1 # 2)) * w)%Q by ring.
    exact Hi. }
  assert (Ew : (R * JsNumber.pow2 u * inject_Z b == R * w)%Q) by (unfold w; ring).
  split.
  - apply (Qmult_lt_r _ _ (inject_Z b) HB). rewrite Ew. lra.
  - apply (Qmult_lt_r _ _ (inject_Z b) HB). rewrite Ew. lra.
Qed.

(** The exponent is the one of the binade: the number is below the next
    power of two. *)
Lemma ilog2_upper (q : Q) : (0 < q)%Q -> (q < JsNumber.pow2 (JsNumber.ilog2 q + 1))%Q.
Proof.
  intros Hq. unfold JsNumber.ilog2.
  destruct (Qle_bool _ q) eqn:E.
  - clear E. destruct q as [n d]. unfold Qlt in Hq. cbn [Qnum Qden] in *.
    rewrite Z.mul_1_r in Hq.
    pose proof (Z.log2_spec n Hq) as [_ Ln].
    pose proof (Z.log2_spec (Zpos d) eq_refl) as [Ld _].
    pose proof (Z.log2_nonneg n) as Nn.
    pose proof (Z.log2_nonneg (Zpos d)) as Nd.
    set (ln := Z.log2 n) in *. set (ld := Z.log2 (Zpos d)) in *.
    apply (Qmult_lt_r _ _ (JsNumber.pow2 ld)); [apply pow2_pos|].
    rewrite <- pow2_add.
    replace (ln - ld + 1 + ld)%Z with (Z.succ ln) by lia.
    rewrite !pow2_Z by lia.
    unfold Qlt, Qmult, inject_Z. cbn [Qnum Qden].
    rewrite Pos.mul_1_r, Z.mul_1_r.
    assert (0 < 2 ^ ld)%Z by (apply Z.pow_pos_nonneg; lia).
    nia.
  - replace (Z.log2 (Qnum q) - Z.log2 (Z.pos (Qden q)) - 1 + 1)%Z
      with (Z.log2 (Qnum q) - Z.log2 (Z.pos (Qden q)))%Z by lia.
    apply Qnot_le_lt. intros L. apply Qle_bool_iff in L. congruence.
Qed.

(** What [nearest] returns is a double or [2^1024], and no double is
    nearer: it is [r * 2^u] for a significand [r] of at most 53 bits, with
    the full 53 bits unless [u] is the least exponent, and it is within half
    a unit [2^u] of the number. *)
Lemma nearest_spec (q : Q) :
  (0 < q)%Q ->
  exists r u,
    (JsNumber.nearest q == inject_Z r * JsNumber.pow2 u)%Q
    /\ (0 <= r <= 2 ^ 53)%Z
    /\ (-1074 <= u)%Z
    /\ (u = -1074 \/ 2 ^ 52 <= r)%Z
    /\ (q - JsNumber.pow2 u * (1 # 2) <= JsNumber.nearest q
        <= q + JsNumber.pow2 u * (1 # 2))%Q.
Proof.
  intros Hq.
  pose proof (ilog2_lower Hq) as L. pose proof (ilog2_upper Hq) as U.
  unfold JsNumber.nearest.
  set (e := JsNumber.ilog2 q) in *.
  set (u := Z.max (e - 52) (-1074)).
  exists (JsNumber.roundHalfEven (q / JsNumber.pow2 u)), u.
  pose proof (pow2_pos u) as HP.
  pose proof (roundHalfEven_near (q / JsNumber.pow2 u)) as [N1 N2].
  set (r := JsNumber.roundHalfEven (q / JsNumber.pow2 u)) in *.
  assert (Em : (q / JsNumber.pow2 u * JsNumber.pow2 u == q)%Q) by (field; lra).
  set (m := (q / JsNumber.pow2 u)%Q) in *.
  assert (Hm : (0 < m)%Q) by (unfold m; apply Qlt_shift_div_l; lra).
  (* the significand has at most 53 bits *)
  assert (M53 : (m < inject_Z (2 ^ 53))%Q).
  { apply (Qmult_lt_r _ _ (JsNumber.pow2 u) HP). rewrite Em.
    apply Qlt_le_trans with (JsNumber.pow2 (e + 1)); [exact U|].
    rewrite <- (@pow2_Z 53) by lia. rewrite <- pow2_add. apply pow2_le. lia. }
  split; [apply Qred_correct|].
  split.
  { split.
    - assert (X : (inject_Z (-1) < inject_Z r)%Q) by (change (inject_Z (-1)) with (-1)%Q; lra).
      rewrite <- Zlt_Qlt in X. lia.
    - assert (X : (inject_Z r < inject_Z (2 ^ 53 + 1))%Q).
      { rewrite inject_Z_plus. change (inject_Z 1) with 1%Q. lra. }
      rewrite <- Zlt_Qlt in X. lia. }
  split; [lia|].
  split.
  { destruct (Z.max_spec (e - 52) (-1074)) as [[_ Eu]|[_ Eu]]; fold u in Eu; [now left | right].
    assert (M52 : (inject_Z (2 ^ 52) <= m)%Q).
    { apply (Qmult_le_r _ _ (JsNumber.pow2 u) HP). rewrite Em.
      apply Qle_trans with (JsNumber.pow2 e); [|exact L].
      rewrite <- (@pow2_Z 52) by lia. rewrite <- pow2_add.
      apply pow2_le. lia. }
    assert (X : (inject_Z (2 ^ 52 - 1) < inject_Z r)%Q).
    { unfold Z.sub. rewrite inject_Z_plus. change (inject_Z (- (1))) with (-1)%Q. lra. }
    rewrite <- Zlt_Qlt in X. lia. }
  rewrite Qred_correct.
  assert (Lo : ((m - (1 # 2)) * JsNumber.pow2 u <= inject_Z r * JsNumber.pow2 u)%Q)
    by (apply Qmult_le_r; lra).
  assert (Hi : (inject_Z r * JsNumber.pow2 u <= (m + (1 # 2)) * JsNumber.pow2 u)%Q)
    by (apply Qmult_le_r; lra).
  split.
  - apply Qle_trans with ((m - (1 # 2)) * JsNumber.pow2 u)%Q; [|exact Lo].
    setoid_replace ((m - (1 # 2)) * JsNumber.pow2 u)%Q
      with (m * JsNumber.pow2 u - JsNumber.pow2 u * (1 # 2))%Q by ring.
    rewrite Em. apply Qle_refl.
  - apply Qle_trans with ((m + (1 # 2)) * JsNumber.pow2 u)%Q; [exact Hi|].
    setoid_replace ((m + (1 # 2)) * JsNumber.pow2 u)%Q
      with (m * JsNumber.pow2 u + JsNumber.pow2 u * (1 # 2))%Q by ring.
    rewrite Em. apply Qle_refl.
Qed.

Lemma Qfloor_between (v : Q) (k : Z) :
  (inject_Z k <= v)%Q -> (v < inject_Z k + 1)%Q -> Qfloor v = k.
Proof.
  intros L U.
  pose proof (Qfloor_resp_le _ _ L) as L'. rewrite Qfloor_Z in L'.
  pose proof (Qfloor_le v) as F.
  assert (X : (inject_Z (Qfloor v) < inject_Z (k + 1))%Q).
  { rewrite inject_Z_plus. change (inject_Z 1) with 1%Q. lra. }
  rewrite <- Zlt_Qlt in X. lia.
Qed.

Lemma Qceiling_between (v : Q) (k : Z) :
  (inject_Z k < v)%Q -> (v <= inject_Z k + 1)%Q -> Qceiling v = (k + 1)%Z.
Proof.
  intros L U.
  assert (U' : (v <= inject_Z (k + 1))%Q).
  { rewrite inject_Z_plus. now change (inject_Z 1) with 1%Q. }
  apply Qceiling_resp_le in U'. rewrite Qceiling_Z in U'.
  pose proof (Qle_ceiling v) as C.
  assert (X : (inject_Z k < inject_Z (Qceiling v))%Q) by lra.
  rewrite <- Zlt_Qlt in X. lia.
Qed.

Lemma ceilDiv_cases (a b : Z) :
  (0 < b)%Z -> ceilDiv a b = if (a mod b =? 0)%Z then (a / b)%Z else (a / b + 1)%Z.
Proof.
  intros Hb. unfold ceilDiv.
  pose proof (Z.div_mod a b ltac:(lia)) as D.
  pose proof (Z.mod_pos_bound a b Hb) as B.
  pose proof (Z.div_mod (- a) b ltac:(lia)) as D'.
  pose proof (Z.mod_pos_bound (- a) b Hb) as B'.
  destruct (Z.eqb_spec (a mod b) 0); nia.
Qed.

Lemma qNegative_nonneg (q : Q) : (0 <= q)%Q -> JsNumber.qNegative q = false.
Proof.
  intros H. unfold JsNumber.qNegative. destruct (Qlt_le_dec q 0); [lra | reflexivity].
Qed.

Lemma gtZero_ofZ (z : Z) : JsNumber.gtZero (JsNumber.ofZ z) = (0 <? z)%Z.
Proof.
  unfold JsNumber.gtZero, JsNumber.ofZ.
  destruct (Qlt_le_dec 0 (inject_Z z)) as [L|L]; symmetry.
  - apply Z.ltb_lt. unfold Qlt in L. simpl in L. lia.
  - apply Z.ltb_ge. unfold Qle in L. simpl in L. lia.
Qed.

Lemma isZero_ofZ (z : Z) : JsNumber.isZero (JsNumber.ofZ z) = (z =? 0)%Z.
Proof.
  unfold JsNumber.isZero, JsNumber.ofZ.
  destruct (Qeq_bool (inject_Z z) 0) eqn:E; symmetry.
  - apply Qeq_bool_iff in E. unfold Qeq in E. simpl in E. apply Z.eqb_eq. lia.
  - apply Z.eqb_neq. intros ->. discriminate E.
Qed.

(** On integers whose sum is within [2^53], [a + b] is the sum. *)
Lemma add_ofZ (a b : Z) :
  (- 2 ^ 53 <= a + b <= 2 ^ 53)%Z ->
  JsNumber.add (JsNumber.ofZ a) (JsNumber.ofZ b) = JsNumber.ofZ (a + b).
Proof.
  intros H. unfold JsNumber.add, JsNumber.ofZ, JsNumber.valueOf.
  apply round_integer; [exact H | now rewrite inject_Z_plus].
Qed.

(** On non-negative integers below [2^53], [a / b] is a double with the
    integer part of the quotient. *)
Lemma div_ofZ (a b : Z) :
  (0 <= a < 2 ^ 53)%Z -> (0 < b < 2 ^ 53)%Z ->
  exists v, JsNumber.div (JsNumber.ofZ a) (JsNumber.ofZ b) = JsNumber.Fin v
            /\ (0 <= v)%Q /\ Qfloor v = (a / b)%Z /\ Qceiling v = ceilDiv a b.
Proof.
  intros Ha Hb. rewrite ceilDiv_cases by lia.
  unfold JsNumber.div.
  change (JsNumber.isNegative (JsNumber.ofZ ?z)) with (JsNumber.qNegative (inject_Z z)).
  rewrite !isZero_ofZ.
  assert (HB : (0 < inject_Z b)%Q).
  { change 0%Q with (inject_Z 0). rewrite <- Zlt_Qlt. lia. }
  destruct (Z.eqb_spec b 0) as [|_]; [lia|].
  cbn [JsNumber.ofZ JsNumber.valueOf].
  pose proof (Z.div_mod a b ltac:(lia)) as D.
  pose proof (Z.mod_pos_bound a b ltac:(lia)) as Bd.
  pose proof (Z.div_pos a b ltac:(lia) ltac:(lia)) as Kp.
  destruct (Z.eqb_spec a 0) as [->|Na].
  - exists 0%Q. rewrite !qNegative_nonneg by (lra || apply Qle_refl).
    repeat split; try reflexivity. apply Qle_refl.
  - destruct (Z.eqb_spec (a mod b) 0) as [R0|R0].
    + exists (inject_Z (a / b)).
      assert (E : (inject_Z a / inject_Z b == inject_Z (a / b))%Q).
      { rewrite D at 1. rewrite R0, Z.add_0_r, inject_Z_mult. field. lra. }
      rewrite (@round_integer _ (a / b)) by (nia || exact E).
      split; [reflexivity|]. split; [|split].
      * change 0%Q with (inject_Z 0). rewrite <- Zle_Qle. lia.
      * apply Qfloor_Z.
      * apply Qceiling_Z.
    + pose proof (@nearest_quotient a b ltac:(lia) ltac:(lia) R0) as [L U].
      set (q := (inject_Z a / inject_Z b)%Q) in *.
      assert (Hq : (0 < q)%Q) by (unfold q; apply Qlt_shift_div_l; [lra|]; 
                                   rewrite Qmult_0_l; change 0%Q with (inject_Z 0);
                                   rewrite <- Zlt_Qlt; lia).
      exists (JsNumber.nearest q).
      unfold JsNumber.round. apply Qgt_alt in Hq. rewrite Hq.
      assert (K0 : (0 <= inject_Z (a / b))%Q).
      { change 0%Q with (inject_Z 0). rewrite <- Zle_Qle. lia. }
      rewrite (@nearest_below_overflow _ (a / b + 1)).
      * split; [reflexivity|]. split; [lra|]. split.
        -- apply Qfloor_between; lra.
        -- apply Qceiling_between; lra.
      * rewrite inject_Z_plus. change (inject_Z 1) with 1%Q. lra.
      * nia.
Qed.

(** So [Math.floor(a / b)] is the quotient of the division, *)
Lemma floor_div_ofZ (a b : Z) :
  (0 <= a < 2 ^ 53)%Z -> (0 < b < 2 ^ 53)%Z ->
  JsNumber.floor (JsNumber.div (JsNumber.ofZ a) (JsNumber.ofZ b)) = JsNumber.ofZ (a / b).
Proof.
  intros Ha Hb. destruct (div_ofZ Ha Hb) as (v & -> & _ & F & _).
  unfold JsNumber.floor. now rewrite F.
Qed.

(** and [Math.ceil(a / b)] is the quotient rounded up. *)
Lemma ceil_div_ofZ (a b : Z) :
  (0 <= a < 2 ^ 53)%Z -> (0 < b < 2 ^ 53)%Z ->
  JsNumber.ceil (JsNumber.div (JsNumber.ofZ a) (JsNumber.ofZ b)) = JsNumber.ofZ (ceilDiv a b).
Proof.
  intros Ha Hb. destruct (div_ofZ Ha Hb) as (v & -> & P & _ & C).
  unfold JsNumber.ceil. now rewrite (qNegative_nonneg P), C.
Qed.

(* ================================================================= *)
(** ** Strings *)

Lemma eqb_eq (a b : jsstring) : JsString.eqb a b = true <-> a = b.
Proof.
  unfold JsString.eqb. destruct (list_eq_dec N.eq_dec a b); split; congruence.
Qed.

Lemma eqb_neq (a b : jsstring) : JsString.eqb a b = false <-> a <> b.
Proof.
  unfold JsString.eqb. destruct (list_eq_dec N.eq_dec a b); split; congruence.
Qed.

Lemma arrayIncludes_In (x : jsstring) (l : list jsstring) :
  arrayIncludes x l = true <-> In x l.
Proof.
  unfold arrayIncludes. rewrite existsb_exists. split.
  - intros [y [Hy E]]. apply eqb_eq in E. now subst.
  - intros H. exists x. split; [assumption | now apply eqb_eq].
Qed.

(** The guard of the three allow-lists. *)
Lemma guard_authorized (allowList : list jsstring) (field : jsstring) :
  (0 <? length allowList) && negb (arrayIncludes field allowList) = false
  <-> authorized allowList field.
Proof.
  unfold authorized. destruct allowList as [|a l].
  - simpl. split; auto.
  - change (0 <? length (a :: l)) with true. rewrite andb_true_l, negb_false_iff.
    rewrite arrayIncludes_In. split; [now right | intros [H|H]; [discriminate | assumption]].
Qed.

Lemma startsWith_app (p s : jsstring) : startsWith p (p ++ s) = true.
Proof.
  induction p as [|a p IH]; simpl; [reflexivity|].
  now rewrite N.eqb_refl, IH.
Qed.

Lemma startsWith_inv (p s : jsstring) :
  startsWith p s = true -> exists r, s = p ++ r.
Proof.
  revert s. induction p as [|a p IH]; intros s H.
  - now exists s.
  - destruct s as [|b s]; [discriminate|]. simpl in H.
    apply andb_true_iff in H as [E H]. apply N.eqb_eq in E. subst b.
    destruct (IH _ H) as [r ->]. now exists r.
Qed.

(** A one-character search is a search for that code unit. *)
Lemma includes_char (c : N) (s : jsstring) :
  includes [c] s = existsb (N.eqb c) s.
Proof.
  induction s as [|b s IH]; [reflexivity|].
  simpl. rewrite <- IH. now rewrite andb_true_r.
Qed.

Lemma includes_char_app (c : N) (a b : jsstring) :
  includes [c] (a ++ b) = includes [c] a || includes [c] b.
Proof. rewrite !includes_char. apply existsb_app. Qed.

Lemma includes_prefix (p r : jsstring) : includes p (p ++ r) = true.
Proof.
  destruct p as [|a p]; [now destruct r|].
  cbn [app includes]. change (a :: p ++ r) with ((a :: p) ++ r).
  now rewrite startsWith_app.
Qed.

(** Digits of an index: no dot among them, and no two indexes print alike. *)
Lemma ofUint_digits (d : Decimal.uint) : Forall (fun c => JsNumber.isDigit c = true) (ofUint d).
Proof. induction d; simpl; constructor; auto. Qed.

Lemma ofIndex_no_dot (n : nat) : includes (js ".") (ofIndex n) = false.
Proof.
  change (js ".") with [46%N]. rewrite includes_char. unfold ofIndex.
  induction (ofUint_digits (Nat.to_uint n)) as [|c l Hc _ IH]; [reflexivity|].
  cbn [existsb]. rewrite IH, orb_false_r.
  apply N.eqb_neq. intros <-. discriminate.
Qed.




(** [addWhere] prefixes a condition exactly when it has no dot: a condition
    that starts with [entity.] has one. *)
Lemma addWhere_qualify (condition : jsstring) (parameters : list (jsstring * jsvalue)) (qb : list call) :
  addWhere condition parameters qb = Ok tt (qb ++ [andWhere (qualify condition) parameters]).
Proof.
  unfold addWhere, qualify, emit.
  destruct (includes (js ".") condition) eqn:E.
  - now rewrite andb_false_r.
  - rewrite andb_true_r.
    destruct (startsWith (js "entity.") condition) eqn:S; [|reflexivity].
    apply startsWith_inv in S as [r ->].
    change (js "entity." ++ r) with (js "entity" ++ (js "." ++ r)) in E.
    change (js ".") with [46%N] in E. rewrite includes_char_app in E.
    change ([46%N] ++ r) with (46%N :: r) in E. simpl in E. discriminate.
Qed.

(** The rest of a condition, after the field, has no dot: qualifying the
    condition qualifies the field. *)
Lemma qualify_app (field rest : jsstring) :
  includes (js ".") rest = false -> qualify (field ++ rest) = qualify field ++ rest.
Proof.
  intros H. unfold qualify. change (js ".") with [46%N] in *.
  rewrite includes_char_app, H, orb_false_r.
  destruct (includes [46%N] field); [reflexivity | now rewrite app_assoc].
Qed.

(* ================================================================= *)
(** ** The effects *)

Lemma bind_Ok {A B : Type} (m : M A) (k : A -> M B) (qb qb' : list call) (a : A) :
  m qb = Ok a qb' -> bind m k qb = k a qb'.
Proof. unfold bind. now intros ->. Qed.

Lemma bind_Throw {A B : Type} (m : M A) (k : A -> M B) (qb qb' : list call) (e : error) :
  m qb = Throw e qb' -> bind m k qb = Throw e qb'.
Proof. unfold bind. now intros ->. Qed.

(** A loop whose body returns on each element, after the calls [g x index]. *)
Lemma forEachFrom_calls_in {A : Type} (f : A -> nat -> M unit) (g : A -> nat -> list call)
      (l : list A) :
  (forall x, In x l -> forall index qb, f x index qb = Ok tt (qb ++ g x index)) ->
  forall index qb, forEachFrom index f l qb = Ok tt (qb ++ callsFrom index g l).
Proof.
  induction l as [|x l IH]; intros H index qb; simpl.
  - unfold ret. now rewrite app_nil_r.
  - rewrite (bind_Ok _ _ _ (H x (or_introl eq_refl) index qb)).
    rewrite IH by (intros; apply H; now right). now rewrite app_assoc.
Qed.

Lemma forEachFrom_calls {A : Type} (f : A -> nat -> M unit) (g : A -> nat -> list call) :
  (forall x index qb, f x index qb = Ok tt (qb ++ g x index)) ->
  forall l index qb, forEachFrom index f l qb = Ok tt (qb ++ callsFrom index g l).
Proof. intros H l. apply forEachFrom_calls_in. intros; apply H. Qed.

(** A loop whose body throws on [x], after returning on what comes before:
    the calls made up to there stay made, the rest of the list is not
    visited. *)
Lemma forEachFrom_throws {A : Type} (f : A -> nat -> M unit) (g : A -> nat -> list call)
      (e : error) (l1 : list A) (x : A) (l2 : list A) :
  (forall y, In y l1 -> forall index qb, f y index qb = Ok tt (qb ++ g y index)) ->
  (forall index qb, f x index qb = Throw e qb) ->
  forall index qb,
    forEachFrom index f (l1 ++ x :: l2) qb = Throw e (qb ++ callsFrom index g l1).
Proof.
  induction l1 as [|y l1 IH]; intros H Hx index qb; cbn [app forEachFrom callsFrom].
  - rewrite (bind_Throw _ _ _ (Hx index qb)). now rewrite app_nil_r.
  - rewrite (bind_Ok _ _ _ (H y (or_introl eq_refl) index qb)).
    rewrite IH by (try assumption; intros; apply H; now right).
    now rewrite app_assoc.
Qed.

(** When the body does not look at the index. *)
Lemma callsFrom_flat_map {A : Type} (h : A -> list call) (l : list A) (index : nat) :
  callsFrom index (fun x _ => h x) l = flat_map h l.
Proof.
  revert index. induction l as [|x l IH]; intros index; simpl; [reflexivity|].
  now rewrite IH.
Qed.

(* ================================================================= *)
(** ** The patterns *)

Lemma lazyDots_length (k : jsstring -> option (list jsstring)) (n : nat) :
  (forall s caps, k s = Some caps -> length caps = n) ->
  forall s taken caps, Regex.lazyDots k taken s = Some caps -> length caps = S n.
Proof.
  intros Hk s. induction s as [|c s IH]; intros taken caps H; simpl in H; [discriminate|].
  destruct (Regex.dot c); [|discriminate].
  destruct (k s) as [caps'|] eqn:E.
  - injection H as <-. simpl. f_equal. eauto.
  - eauto.
Qed.

Lemma greedyDots_length (k : jsstring -> option (list jsstring)) (n : nat) :
  (forall s caps, k s = Some caps -> length caps = n) ->
  forall s taken caps, Regex.greedyDots k taken s = Some caps -> length caps = S n.
Proof.
  intros Hk s. induction s as [|c s IH]; intros taken caps H; simpl in H; [discriminate|].
  destruct (Regex.dot c); [|discriminate].
  destruct (Regex.greedyDots k (c :: taken) s) as [r|] eqn:G.
  - injection H as <-. eauto.
  - destruct (k s) as [caps'|] eqn:E; [|discriminate].
    injection H as <-. simpl. f_equal. eauto.
Qed.

(** A match has one capture for each group of the pattern. *)
Lemma matchHere_length (ic : bool) (p : list Regex.item) :
  forall s caps, Regex.matchHere ic p s = Some caps -> length caps = groups p.
Proof.
  induction p as [|i p IH]; intros s caps H.
  - injection H as <-. reflexivity.
  - destruct i as [l| |]; simpl in H.
    + destruct s as [|c s]; [discriminate|].
      destruct (Regex.chrMatches ic l c); [|discriminate]. simpl. eauto.
    + simpl. eapply lazyDots_length; eauto.
    + simpl. eapply greedyDots_length; eauto.
Qed.

Lemma search_length (ic : bool) (p : list Regex.item) :
  forall s caps, Regex.search ic p s = Some caps -> length caps = groups p.
Proof.
  induction s as [|c s IH]; intros caps H; simpl in H.
  - destruct (Regex.matchHere ic p []) eqn:E; [|discriminate].
    injection H as <-. eapply matchHere_length; eauto.
  - destruct (Regex.matchHere ic p (c :: s)) eqn:E.
    + injection H as <-. eapply matchHere_length; eauto.
    + auto.
Qed.

Lemma exec_length (re : Regex.t) (s : jsstring) (caps : list jsstring) :
  Regex.exec re s = Some caps -> length caps = groups (Regex.items re).
Proof. apply search_length. Qed.

(* ================================================================= *)
(** ** One clause of a filter *)

Lemma firstMatch_In (filter : jsstring) (l : list strategy) (st : strategy) (caps : list jsstring) :
  firstMatch filter l = Some (st, caps) ->
  In st l /\ Regex.exec (pattern st) filter = Some caps.
Proof.
  induction l as [|s0 l IH]; simpl; [discriminate|].
  destruct (Regex.exec (pattern s0) filter) as [c|] eqn:E.
  - intros H. injection H as <- <-. auto.
  - intros H. destruct (IH H). auto.
Qed.

(** The loop over the strategies runs the handler of the first match. *)
Lemma tryStrategies_firstMatch (this : ODataBuilder) (filter : jsstring) (l : list strategy) :
  tryStrategies this filter l =
  match firstMatch filter l with
  | None => ret tt
  | Some (st, captures) =>
      match nth_error captures 0 with
      | None => throw TypeError
      | Some g1 =>
          if (0 <? length (allowedFiltersList this))
             && negb (arrayIncludes (trim g1) (allowedFiltersList this))
          then ret tt
          else handle st (trim g1) (option_map trim (nth_error captures 1))
      end
  end.
Proof.
  induction l as [|s0 l IH]; simpl; [reflexivity|].
  destruct (Regex.exec (pattern s0) filter); [reflexivity | assumption].
Qed.

Lemma strategies_forms (nts : JsNumber.t -> jsstring) (index : nat) :
  strategies nts index =
  map (fun f => nullStrategy (fst f) (snd f)) nullForms
  ++ map (fun f => compareStrategy index (fst f) (snd f)) compareForms
  ++ map (fun f => likeStrategy nts index (fst (fst f)) (snd (fst f)) (snd f)) likeForms.
Proof. reflexivity. Qed.

Lemma rest_no_dot (sql : jsstring) (index : nat) :
  includes (js ".") sql = false ->
  includes (js ".") (sql ++ js ":val" ++ ofIndex index) = false.
Proof.
  intros H. pose proof (ofIndex_no_dot index) as D.
  change (js ".") with [46%N] in *.
  now rewrite !includes_char_app, H, D.
Qed.

Ltac solve_in := simpl; repeat (first [left; reflexivity | right]).

(** The first matching strategy and its captures decide the one call a
    clause can make. *)
Lemma firstMatch_handled (nts : JsNumber.t -> jsstring) (index : nat) (filter : jsstring)
      (st : strategy) (captures : list jsstring) :
  firstMatch filter (strategies nts index) = Some (st, captures) ->
  exists g1 c,
    nth_error captures 0 = Some g1 /\
    handled nts index st g1 captures c /\
    forall this qb,
      parseAndApplyFilter nts this filter index qb =
      if (0 <? length (allowedFiltersList this))
         && negb (arrayIncludes (trim g1) (allowedFiltersList this))
      then Ok tt qb else Ok tt (qb ++ [c]).
Proof.
  intros F. pose proof (firstMatch_In _ _ F) as [HIn Hexec].
  apply exec_length in Hexec.
  simpl in HIn.
  repeat (destruct HIn as [<- | HIn]); try contradiction;
    simpl in Hexec;
    destruct captures as [|g1 [|g2 [|g3 captures]]]; try discriminate Hexec;
    exists g1; eexists; (split; [reflexivity|]).
  1-2: split; [eapply handledNull; [|reflexivity]; solve_in|];
       intros this qb; unfold parseAndApplyFilter;
       rewrite tryStrategies_firstMatch, F; cbn [nth_error handle nullStrategy];
       destruct (_ && _); [reflexivity|];
       rewrite addWhere_qualify, qualify_app by reflexivity; reflexivity.
  1-6: split; [eapply handledCompare; [|reflexivity]; solve_in|];
       intros this qb; unfold parseAndApplyFilter;
       rewrite tryStrategies_firstMatch, F; cbn [nth_error option_map handle compareStrategy];
       destruct (_ && _); [reflexivity|];
       unfold bind, parseValueOf, ret;
       rewrite addWhere_qualify, qualify_app by (apply rest_no_dot; reflexivity);
       reflexivity.
  1-3: split; [eapply handledLike; [|reflexivity]; solve_in|];
       intros this qb; unfold parseAndApplyFilter;
       rewrite tryStrategies_firstMatch, F; cbn [nth_error option_map handle likeStrategy];
       destruct (_ && _); [reflexivity|];
       unfold bind, parseValueOf, ret;
       rewrite addWhere_qualify, qualify_app by (apply (rest_no_dot (js " LIKE ")); reflexivity);
       reflexivity.
Qed.

(** A clause that no pattern matches makes no call. *)
Lemma firstMatch_none (nts : JsNumber.t -> jsstring) (this : ODataBuilder) (index : nat)
      (filter : jsstring) (qb : list call) :
  firstMatch filter (strategies nts index) = None ->
  parseAndApplyFilter nts this filter index qb = Ok tt qb.
Proof.
  intros F. unfold parseAndApplyFilter. rewrite tryStrategies_firstMatch, F. reflexivity.
Qed.

(** A clause never throws: it makes its calls and returns. *)
Lemma parseAndApplyFilter_calls (nts : JsNumber.t -> jsstring) (this : ODataBuilder)
      (filter : jsstring) (index : nat) (qb : list call) :
  parseAndApplyFilter nts this filter index qb
  = Ok tt (qb ++ clauseCalls nts this filter index).
Proof.
  unfold clauseCalls.
  destruct (firstMatch filter (strategies nts index)) as [[st captures]|] eqn:F.
  - destruct (firstMatch_handled _ _ _ F) as (g1 & c & _ & _ & H).
    rewrite (H this qb), (H this []).
    destruct (_ && _); [now rewrite app_nil_r | reflexivity].
  - rewrite !(firstMatch_none _ _ _ _ _ F). now rewrite app_nil_r.
Qed.


(** C1, as the code has it. Injection safety: when the first pattern that
    matches a clause is a value-carrying one (two captures: the field and the
    literal), the call on the query builder has a condition made of the
    qualified field, the SQL operator and the placeholder [:val<index>] only,
    and one parameter [val<index>] that holds the coerced literal; for
    [contains], [startswith] and [endswith] the parameter is the literal with
    a [%] wildcard on both sides, after it, and before it, in this order.
    The condition is the same whatever the literal is. *)
Theorem filter_value_only_in_bindings
        (nts : JsNumber.t -> jsstring) (this : ODataBuilder) (filter : jsstring)
        (index : nat) (qb : list call) (st : strategy) (g1 g2 : jsstring) :
  firstMatch filter (strategies nts index) = Some (st, [g1; g2]) ->
  authorized (allowedFiltersList this) (trim g1) ->
  ((exists src sql,
       In (src, sql) compareForms /\ st = compareStrategy index src sql /\
       parseAndApplyFilter nts this filter index qb
       = Ok tt (qb ++ [andWhere (qualify (trim g1) ++ js sql ++ js ":" ++ placeholder index)
                                [(placeholder index, parseValue (trim g2))]]))
   \/
   (exists src before after,
       In (src, before, after) likeForms /\ st = likeStrategy nts index src before after /\
       parseAndApplyFilter nts this filter index qb
       = Ok tt (qb ++ [andWhere (qualify (trim g1) ++ js " LIKE :" ++ placeholder index)
                                [(placeholder index,
                                  VString (js before ++ ToString nts (parseValue (trim g2))
                                                     ++ js after))]])))
  /\
  (forall filter' g2',
      firstMatch filter' (strategies nts index) = Some (st, [g1; g2']) ->
      exists condition p p',
        parseAndApplyFilter nts this filter index qb = Ok tt (qb ++ [andWhere condition p]) /\
        parseAndApplyFilter nts this filter' index qb = Ok tt (qb ++ [andWhere condition p'])).
Proof.
  intros F A. apply guard_authorized in A.
  destruct (firstMatch_handled _ _ _ F) as (g & c & E & Hc & H).
  injection E as <-. specialize (H this qb) as H1. rewrite A in H1.
  split.
  - inversion Hc; subst; [left | right]; eauto 10.
  - intros filter' g2' F'.
    destruct (firstMatch_handled _ _ _ F') as (g' & c' & E' & Hc' & H').
    injection E' as <-. specialize (H' this qb). rewrite A in H'.
    rewrite H1, H'.
    inversion Hc as [| src sql x I S | src before after x I S];
      inversion Hc' as [| src' sql' x' I' S' | src' before' after' x' I' S']; subst.
    + assert (E : pattern (compareStrategy index src sql)
                  = pattern (compareStrategy index src' sql')) by now rewrite S'.
      assert (sql = sql') as <-.
      { clear - I I' E. simpl in I, I'.
        repeat (destruct I as [I|I]; [injection I as <- <-|]); try contradiction;
          repeat (destruct I' as [I'|I']; [injection I' as <- <-|]); try contradiction;
            first [reflexivity | discriminate E]. }
      eauto.
    + exfalso. clear - I I' S'. apply (f_equal pattern) in S'. simpl in I, I'.
      repeat (destruct I as [I|I]; [injection I as <- <-|]); try contradiction;
        repeat (destruct I' as [I'|I']; [injection I' as <- <- <-|]); try contradiction;
          discriminate S'.
    + exfalso. clear - I I' S'. apply (f_equal pattern) in S'. simpl in I, I'.
      repeat (destruct I as [I|I]; [injection I as <- <- <-|]); try contradiction;
        repeat (destruct I' as [I'|I']; [injection I' as <- <-|]); try contradiction;
          discriminate S'.
    + eauto.
Qed.

Lemma filter_value_only_in_bindings_witness :
  ((exists src sql,
       In (src, sql) compareForms /\ compareStrategy 0 " eq " " = " = compareStrategy 0 src sql /\
       parseAndApplyFilter JsNumber.toString (withFilter "name eq 'x'';--'") (js "name eq 'x'';--'") 0 []
       = Ok tt ([] ++ [andWhere (qualify (trim (js "name")) ++ js sql ++ js ":" ++ placeholder 0)
                                [(placeholder 0, parseValue (trim (js "'x'';--'")))]]))
   \/
   (exists src before after,
       In (src, before, after) likeForms /\
       compareStrategy 0 " eq " " = " = likeStrategy JsNumber.toString 0 src before after /\
       parseAndApplyFilter JsNumber.toString (withFilter "name eq 'x'';--'") (js "name eq 'x'';--'") 0 []
       = Ok tt ([] ++ [andWhere (qualify (trim (js "name")) ++ js " LIKE :" ++ placeholder 0)
                                [(placeholder 0,
                                  VString (js before ++ ToString JsNumber.toString (parseValue (trim (js "'x'';--'")))
                                                     ++ js after))]])))
  /\
  (forall filter' g2',
      firstMatch filter' (strategies JsNumber.toString 0)
      = Some (compareStrategy 0 " eq " " = ", [js "name"; g2']) ->
      exists condition p p',
        parseAndApplyFilter JsNumber.toString (withFilter "name eq 'x'';--'") (js "name eq 'x'';--'") 0 []
        = Ok tt ([] ++ [andWhere condition p]) /\
        parseAndApplyFilter JsNumber.toString (withFilter "name eq 'x'';--'") filter' 0 []
        = Ok tt ([] ++ [andWhere condition p'])).
Proof.
  apply (@filter_value_only_in_bindings JsNumber.toString (withFilter "name eq 'x'';--'")
           (js "name eq 'x'';--'") 0 [] (compareStrategy 0 " eq " " = ")
           (js "name") (js "'x'';--'")).
  - reflexivity.
  - left. reflexivity.
Defined.

(** C1, as stated, fails on the placement of the wildcards: [contains] puts
    one on both sides of the literal, not before it only, and [endswith] puts
    one before it, not on both sides. *)
Lemma like_wildcards_placement :
  parseAndApplyFilter JsNumber.toString (for_ noRequest) (js "contains(name,'John')") 0 []
  = Ok tt [andWhere (js "entity.name LIKE :val0") [(js "val0", VString (js "%John%"))]]
  /\ parseAndApplyFilter JsNumber.toString (for_ noRequest) (js "contains(name,'John')") 0 []
     <> Ok tt [andWhere (js "entity.name LIKE :val0") [(js "val0", VString (js "%John"))]]
  /\ parseAndApplyFilter JsNumber.toString (for_ noRequest) (js "startswith(name,'John')") 0 []
     = Ok tt [andWhere (js "entity.name LIKE :val0") [(js "val0", VString (js "John%"))]]
  /\ parseAndApplyFilter JsNumber.toString (for_ noRequest) (js "endswith(name,'John')") 0 []
     = Ok tt [andWhere (js "entity.name LIKE :val0") [(js "val0", VString (js "%John"))]]
  /\ parseAndApplyFilter JsNumber.toString (for_ noRequest) (js "endswith(name,'John')") 0 []
     <> Ok tt [andWhere (js "entity.name LIKE :val0") [(js "val0", VString (js "%John%"))]].
Proof. repeat split; try reflexivity; discriminate. Qed.

(** C9. Field qualification: whatever strategy matches first (the null tests
    included), the condition of the call starts with the field, trimmed, under
    the root alias [entity.] when the field has no dot, and with the field as
    it is when it has one; what follows is the operator text of the strategy,
    which has no dot. *)
Theorem filter_field_qualification
        (nts : JsNumber.t -> jsstring) (this : ODataBuilder) (filter : jsstring)
        (index : nat) (qb : list call) (st : strategy) (captures : list jsstring)
        (g1 : jsstring) :
  firstMatch filter (strategies nts index) = Some (st, captures) ->
  nth_error captures 0 = Some g1 ->
  authorized (allowedFiltersList this) (trim g1) ->
  exists rest parameters,
    In rest (conditionRests index) /\
    parseAndApplyFilter nts this filter index qb
    = Ok tt (qb ++ [andWhere ((if includes (js ".") (trim g1)
                               then trim g1
                               else js "entity." ++ trim g1) ++ rest) parameters]).
Proof.
  intros F E A. apply guard_authorized in A.
  destruct (firstMatch_handled _ _ _ F) as (g & c & E' & Hc & H).
  rewrite E in E'. injection E' as <-.
  rewrite (H this qb), A. fold (qualify (trim g1)).
  destruct Hc as [src sql I S | src sql g2 I S | src before after g2 I S].
  - exists (js sql), []. split; [|reflexivity].
    unfold conditionRests. apply in_or_app. left.
    now apply (in_map (fun f => js (snd f)) _ (src, sql)).
  - eexists (js sql ++ js ":" ++ placeholder index), _. split; [|reflexivity].
    unfold conditionRests. apply in_or_app. right. apply in_or_app. left.
    now apply (in_map (fun f => js (snd f) ++ js ":" ++ placeholder index) _ (src, sql)).
  - eexists (js " LIKE :" ++ placeholder index), _. split; [|reflexivity].
    unfold conditionRests. apply in_or_app. right. apply in_or_app. right. now left.
Qed.

Lemma filter_field_qualification_witness :
  exists rest parameters,
    In rest (conditionRests 3) /\
    parseAndApplyFilter JsNumber.toString (withFilter "profile.age ge 18") (js "profile.age ge 18") 3 []
    = Ok tt ([] ++ [andWhere ((if includes (js ".") (trim (js "profile.age"))
                               then trim (js "profile.age")
                               else js "entity." ++ trim (js "profile.age")) ++ rest) parameters]).
Proof.
  apply (@filter_field_qualification JsNumber.toString (withFilter "profile.age ge 18")
           (js "profile.age ge 18") 3 [] (compareStrategy 3 " ge " " >= ")
           [js "profile.age"; js "18"] (js "profile.age")).
  - reflexivity.
  - reflexivity.
  - left. reflexivity.
Defined.

Example qualification_examples :
  run (applyFilters JsNumber.toString (withFilter "age ge 18 and profile.city eq 'Rome' and deleted eq 'null'"))
  = Ok tt [ andWhere (js "entity.age >= :val0") [(js "val0", VNumber (JsNumber.ofZ 18))];
            andWhere (js "profile.city = :val1") [(js "val1", VString (js "Rome"))];
            andWhere (js "entity.deleted IS NULL") [] ].
Proof. reflexivity. Qed.

(* ================================================================= *)
(** ** A whole filter *)

Lemma applyFilters_calls (nts : JsNumber.t -> jsstring) (this : ODataBuilder) (qb : list call) :
  applyFilters nts this qb
  = Ok tt (qb ++ match _filter (request this) with
                 | Some ((_ :: _) as f) =>
                     callsFrom 0 (fun part index => clauseCalls nts this (trim part) index)
                               (split (js " and ") f)
                 | _ => []
                 end).
Proof.
  unfold applyFilters.
  destruct (_filter (request this)) as [[|c f]|]; try (unfold ret; now rewrite app_nil_r).
  unfold forEach. apply forEachFrom_calls. intros. apply parseAndApplyFilter_calls.
Qed.








Example placeholders_example :
  run (applyFilters JsNumber.toString (withFilter "a eq 1 and junk and a eq 3"))
  = Ok tt [ andWhere (js "entity.a = :val0") [(js "val0", VNumber (JsNumber.ofZ 1))];
            andWhere (js "entity.a = :val2") [(js "val2", VNumber (JsNumber.ofZ 3))] ].
Proof. reflexivity. Qed.

(* ================================================================= *)
(** ** Sorts, expansions, pagination *)

Lemma split_go_nonempty (sep : jsstring) (s : jsstring) :
  forall skip cur, split_go sep skip cur s <> [].
Proof.
  induction s as [|c s IH]; intros skip cur; simpl; [discriminate|].
  destruct skip; [|apply IH].
  destruct (startsWith sep (c :: s)); [discriminate | apply IH].
Qed.

Lemma split_nonempty (sep s : jsstring) : split sep s <> [].
Proof. apply split_go_nonempty. Qed.

Lemma authorizedb_guard (allowList : list jsstring) (field : jsstring) :
  (0 <? length allowList) && negb (arrayIncludes field allowList)
  = negb (authorizedb allowList field).
Proof. unfold authorizedb. now rewrite negb_involutive. Qed.

Lemma authorizedb_authorized (allowList : list jsstring) (field : jsstring) :
  authorizedb allowList field = true <-> authorized allowList field.
Proof.
  rewrite <- guard_authorized, authorizedb_guard. now rewrite negb_false_iff.
Qed.

(** One turn of the loop of [applySorts]. *)
Lemma sort_entry (up : jsstring -> jsstring) (this : ODataBuilder) (sort : jsstring)
      (qb : list call) :
  (let parts := split (js " ") (trim sort) in
   let field := nth_error parts 0 in
   let dir := nth_error parts 1 in
   if (0 <? length (allowedSortsList this))
      && negb (match field with
               | Some f => arrayIncludes f (allowedSortsList this)
               | None => false
               end)
   then ret tt
   else match dir with
        | Some d => emit (addOrderBy (js "entity." ++ templated field) (up d))
        | None => throw TypeError
        end) qb
  = if lacksDirection (allowedSortsList this) sort
    then Throw TypeError qb
    else Ok tt (qb ++ sortCall up (allowedSortsList this) sort).
Proof.
  unfold sortCall, lacksDirection, sortTokens. cbv zeta.
  pose proof (split_nonempty (js " ") (trim sort)) as NE.
  destruct (split (js " ") (trim sort)) as [|field [|dir rest]]; [contradiction| |];
    cbn [nth_error templated]; rewrite authorizedb_guard;
    destruct (authorizedb (allowedSortsList this) field); cbn [negb];
    unfold ret, emit, throw; rewrite ?app_nil_r; reflexivity.
Qed.

(** C10. Sorts are always put under the root alias: when every entry of
    [$orderby] that passes the allow-list has a direction token, [applySorts]
    returns, and its calls are, entry by entry, [addOrderBy] of [entity.]
    followed by the field token as it is written — also when the field has a
    dot — with the upper-cased direction token. *)
Theorem sorts_always_prefixed
        (up : jsstring -> jsstring) (this : ODataBuilder) (o : jsstring) (qb : list call) :
  _orderby (request this) = Some o ->
  o <> [] ->
  (forall sort, In sort (split (js ",") o) ->
                lacksDirection (allowedSortsList this) sort = false) ->
  applySorts up this qb
  = Ok tt (qb ++ flat_map
                   (fun sort =>
                      match split (js " ") (trim sort) with
                      | field :: dir :: _ =>
                          if authorizedb (allowedSortsList this) field
                          then [addOrderBy (js "entity." ++ field) (up dir)]
                          else []
                      | _ => []
                      end)
                   (split (js ",") o)).
Proof.
  intros Ho Hne Hdir. unfold applySorts. rewrite Ho.
  destruct o as [|c o]; [contradiction|].
  unfold forEach.
  rewrite (forEachFrom_calls_in _ (fun sort _ => sortCall up (allowedSortsList this) sort)).
  - now rewrite callsFrom_flat_map.
  - intros sort HIn index qb0. rewrite sort_entry. now rewrite (Hdir sort HIn).
Qed.

Lemma sorts_always_prefixed_witness :
  applySorts asciiToUpperCase (withOrderby "profile.name asc,age DESC") []
  = Ok tt [ addOrderBy (js "entity.profile.name") (js "ASC");
            addOrderBy (js "entity.age") (js "DESC") ].
Proof.
  apply (@sorts_always_prefixed asciiToUpperCase (withOrderby "profile.name asc,age DESC")
           (js "profile.name asc,age DESC") []).
  - reflexivity.
  - discriminate.
  - intros sort [<-|[<-|[]]]; reflexivity.
Defined.

(** C2. The entry ["name"], with no direction token, passes an empty
    allow-list; [dir] is [undefined] and [dir.toUpperCase()] throws. *)
Theorem sort_without_direction_throws (up : jsstring -> jsstring) :
  run (applySorts up (withOrderby "name")) = Throw TypeError [].
Proof. reflexivity. Qed.

(** An entry after a well-formed one: the first ordering is made, then the
    method throws. *)
Example sort_throws_midway (up : jsstring -> jsstring) :
  run (applySorts up (withOrderby "name ASC,age"))
  = Throw TypeError [addOrderBy (js "entity.name") (up (js "ASC"))].
Proof. reflexivity. Qed.

(** The general case of C2: [applySorts] throws at the first entry that
    passes the allow-list and has no direction token, after the orderings of
    the entries before it. *)
Lemma applySorts_throws_at_bare_entry
      (up : jsstring -> jsstring) (this : ODataBuilder) (o : jsstring)
      (l1 : list jsstring) (x : jsstring) (l2 : list jsstring) (qb : list call) :
  _orderby (request this) = Some o ->
  o <> [] ->
  split (js ",") o = l1 ++ x :: l2 ->
  (forall y, In y l1 -> lacksDirection (allowedSortsList this) y = false) ->
  lacksDirection (allowedSortsList this) x = true ->
  applySorts up this qb
  = Throw TypeError (qb ++ flat_map (sortCall up (allowedSortsList this)) l1).
Proof.
  intros Ho Hne Hs H1 Hx. unfold applySorts. rewrite Ho.
  destruct o as [|c o]; [contradiction|].
  unfold forEach. rewrite Hs.
  rewrite (@forEachFrom_throws _ _ (fun sort _ => sortCall up (allowedSortsList this) sort)
             TypeError l1 x l2).
  - now rewrite callsFrom_flat_map.
  - intros y HIn index qb0. rewrite sort_entry. now rewrite (H1 y HIn).
  - intros index qb0. rewrite sort_entry. now rewrite Hx.
Qed.

(** The calls of [applyExpands]. *)
Lemma applyExpands_calls (this : ODataBuilder) (qb : list call) :
  applyExpands this qb
  = Ok tt (qb ++ match _expand (request this) with
                 | Some ((_ :: _) as e) =>
                     flat_map (fun expand =>
                                 if authorizedb (allowedExpandsList this) (trim expand)
                                 then [leftJoinAndSelect (js "entity." ++ trim expand) (trim expand)]
                                 else [])
                              (split (js ",") e)
                 | _ => []
                 end).
Proof.
  unfold applyExpands.
  destruct (_expand (request this)) as [[|c e]|]; try (unfold ret; now rewrite app_nil_r).
  unfold forEach. rewrite <- (callsFrom_flat_map _ _ 0).
  apply forEachFrom_calls. intros expand index qb0.
  rewrite authorizedb_guard.
  destruct (authorizedb (allowedExpandsList this) (trim expand)); cbn [negb];
    unfold ret, emit; now rewrite ?app_nil_r.
Qed.

(** The joins of a list of entries, as a list of relation names. *)
Lemma expand_joins (allowList : list jsstring) (l : list jsstring) :
  flat_map (fun expand =>
              if authorizedb allowList (trim expand)
              then [leftJoinAndSelect (js "entity." ++ trim expand) (trim expand)]
              else []) l
  = map joinOf (filter (authorizedb allowList) (map trim l)).
Proof.
  induction l as [|x l IH]; [reflexivity|].
  cbn [flat_map map filter]. rewrite IH.
  now destruct (authorizedb allowList (trim x)).
Qed.

Lemma joins_occurrences (allowList : list jsstring) (r : jsstring) (names : list jsstring) :
  authorizedb allowList r = true ->
  joins r (map joinOf (filter (authorizedb allowList) names)) = occurrences r names.
Proof.
  intros Ha. unfold joins, occurrences.
  induction names as [|x l IH]; [reflexivity|].
  cbn [filter].
  destruct (JsString.eqb r x) eqn:E.
  - apply eqb_eq in E. subst x. rewrite Ha. cbn [map filter joinOf length].
    rewrite !(proj2 (eqb_eq _ _) eq_refl). cbn [andb length]. now rewrite IH.
  - destruct (authorizedb allowList x); [|exact IH].
    cbn [map filter joinOf].
    assert (JsString.eqb x r = false) as ->.
    { apply eqb_neq. apply eqb_neq in E. congruence. }
    rewrite andb_false_r. exact IH.
Qed.

(** C7, as the code has it. [applyExpands] takes the comma-separated
    entries of [$expand] in order, trims each, and joins every one whose
    name passes the allow-list, once for each time it is listed: the joins
    are those of the names that pass, in the order and with the repetitions
    of the list.  So a relation that passes is joined as many times as it is
    listed. *)
Theorem expand_joins_each_occurrence
        (this : ODataBuilder) (e r : jsstring) (qb : list call) :
  _expand (request this) = Some e ->
  e <> [] ->
  applyExpands this qb
  = Ok tt (qb ++ map joinOf (filter (authorizedb (allowedExpandsList this))
                                    (map trim (split (js ",") e)))) /\
  (authorized (allowedExpandsList this) r ->
   joins r (map joinOf (filter (authorizedb (allowedExpandsList this))
                               (map trim (split (js ",") e))))
   = occurrences r (map trim (split (js ",") e))).
Proof.
  intros He Hne. split.
  - rewrite applyExpands_calls, He.
    destruct e as [|c e]; [contradiction|]. now rewrite expand_joins.
  - intros Ha. apply joins_occurrences. now apply authorizedb_authorized.
Qed.

Lemma expand_joins_each_occurrence_witness :
  applyExpands (allowedExpands [js "profile"; js "tags"] (withExpand "profile, posts ,tags,profile")) []
  = Ok tt ([] ++ [ leftJoinAndSelect (js "entity.profile") (js "profile");
                   leftJoinAndSelect (js "entity.tags") (js "tags");
                   leftJoinAndSelect (js "entity.profile") (js "profile") ]) /\
  joins (js "profile")
        [ leftJoinAndSelect (js "entity.profile") (js "profile");
          leftJoinAndSelect (js "entity.tags") (js "tags");
          leftJoinAndSelect (js "entity.profile") (js "profile") ]
  = occurrences (js "profile") [js "profile"; js "posts"; js "tags"; js "profile"].
Proof.
  destruct (@expand_joins_each_occurrence
              (allowedExpands [js "profile"; js "tags"] (withExpand "profile, posts ,tags,profile"))
              (js "profile, posts ,tags,profile") (js "profile") [] eq_refl
              ltac:(discriminate)) as [H1 H2].
  split; [exact H1 | apply H2; right; left; reflexivity].
Defined.

(** C7, as stated, fails: the relation listed twice is joined twice. *)
Lemma expand_duplicate_joined_twice :
  run (applyExpands (withExpand "profile, profile"))
  = Ok tt [ leftJoinAndSelect (js "entity.profile") (js "profile");
            leftJoinAndSelect (js "entity.profile") (js "profile") ]
  /\ joins (js "profile")
           [ leftJoinAndSelect (js "entity.profile") (js "profile");
             leftJoinAndSelect (js "entity.profile") (js "profile") ] = 2.
Proof. split; reflexivity. Qed.

Lemma applyPagination_calls (this : ODataBuilder) (qb : list call) :
  applyPagination this qb
  = Ok tt (qb ++ match _top (request this) with
                 | Some ((_ :: _) as t) => [take (JsNumber.parseInt t)]
                 | _ => []
                 end
              ++ match _skip (request this) with
                 | Some ((_ :: _) as s) => [skip (JsNumber.parseInt s)]
                 | _ => []
                 end).
Proof.
  unfold applyPagination, bind, emit, ret.
  destruct (_top (request this)) as [[|c t]|], (_skip (request this)) as [[|c' s]|];
    cbn [truthy templated]; rewrite ?app_nil_r, <- ?app_assoc; reflexivity.
Qed.

(** [execute] when no sort entry makes [applySorts] throw and the query
    returns: the envelope, from the bounds as lines 45-46 read them. *)
Lemma execute_returns
      (nts : JsNumber.t -> jsstring) (up : jsstring -> jsstring) (T : Type)
      (getManyAndCount : M (list T * JsNumber.t)) (this : ODataBuilder)
      (rows : list T) (count : JsNumber.t) (qb : list call) :
  (forall qb0, exists qb1, applySorts up this qb0 = Ok tt qb1) ->
  (forall qb0, getManyAndCount qb0 = Ok (rows, count) qb0) ->
  exists qb',
    execute nts up getManyAndCount this qb
    = Ok {| data := rows;
            current_page :=
              if JsNumber.gtZero (requestLimit this)
              then JsNumber.add
                     (JsNumber.floor (JsNumber.div (requestSkip this) (requestLimit this)))
                     (JsNumber.ofZ 1)
              else JsNumber.ofZ 1;
            from := if JsNumber.isZero count then JsNumber.ofZ 0
                    else JsNumber.add (requestSkip this) (JsNumber.ofZ 1);
            last_page :=
              if JsNumber.gtZero (requestLimit this)
              then JsNumber.ceil (JsNumber.div count (requestLimit this))
              else JsNumber.ofZ 1;
            per_page := if JsNumber.gtZero (requestLimit this)
                        then requestLimit this else count;
            to := if JsNumber.isZero count then JsNumber.ofZ 0
                  else JsNumber.add (requestSkip this)
                                    (JsNumber.ofZ (Z.of_nat (length rows)));
            total := count |} qb'.
Proof.
  intros Hsorts Hq. unfold execute.
  rewrite (bind_Ok _ _ _ (applyFilters_calls nts this qb)).
  destruct (Hsorts (qb ++ match _filter (request this) with
                          | Some ((_ :: _) as f) =>
                              callsFrom 0 (fun part index => clauseCalls nts this (trim part) index)
                                        (split (js " and ") f)
                          | _ => []
                          end)) as [qb1 H1].
  rewrite (bind_Ok _ _ _ H1).
  rewrite (bind_Ok _ _ _ (applyExpands_calls this qb1)).
  rewrite (bind_Ok _ _ _ (applyPagination_calls this _)).
  rewrite (bind_Ok _ _ _ (Hq _)).
  eexists. reflexivity.
Qed.

Lemma requestLimit_readBound (this : ODataBuilder) :
  requestLimit this = readBound (_top (request this)).
Proof. unfold requestLimit, readBound. now destruct (_top (request this)) as [[|c t]|]. Qed.

Lemma requestSkip_readBound (this : ODataBuilder) :
  requestSkip this = readBound (_skip (request this)).
Proof. unfold requestSkip, readBound. now destruct (_skip (request this)) as [[|c t]|]. Qed.

(** C8, as the code has it. [applyPagination] never throws.  An option that
    is absent or empty is not forwarded and counts as 0; any other [$top]
    or [$skip] is forwarded as [parseInt] reads it, whatever that is, and
    [execute] computes the envelope with the same numbers: [from] and [to]
    from the offset, and the pages from the limit when it is positive.  A
    limit that is NaN or not positive is no limit for the envelope: one page
    of [total] rows. *)
Theorem pagination_forwards_parsed
        (nts : JsNumber.t -> jsstring) (up : jsstring -> jsstring) (T : Type)
        (getManyAndCount : M (list T * JsNumber.t)) (this : ODataBuilder)
        (rows : list T) (count : JsNumber.t) (qb : list call) :
  applyPagination this qb
  = Ok tt (qb ++ match _top (request this) with
                 | Some ((_ :: _) as t) => [take (JsNumber.parseInt t)]
                 | _ => []
                 end
              ++ match _skip (request this) with
                 | Some ((_ :: _) as s) => [skip (JsNumber.parseInt s)]
                 | _ => []
                 end)
  /\ ((forall qb0, exists qb1, applySorts up this qb0 = Ok tt qb1) ->
      (forall qb0, getManyAndCount qb0 = Ok (rows, count) qb0) ->
      exists response qb',
        execute nts up getManyAndCount this qb = Ok response qb'
        /\ from response
           = (if JsNumber.isZero count then JsNumber.ofZ 0
              else JsNumber.add (readBound (_skip (request this))) (JsNumber.ofZ 1))
        /\ to response
           = (if JsNumber.isZero count then JsNumber.ofZ 0
              else JsNumber.add (readBound (_skip (request this)))
                                (JsNumber.ofZ (Z.of_nat (length rows))))
        /\ (JsNumber.gtZero (readBound (_top (request this))) = true ->
            per_page response = readBound (_top (request this))
            /\ current_page response
               = JsNumber.add
                   (JsNumber.floor (JsNumber.div (readBound (_skip (request this)))
                                                 (readBound (_top (request this)))))
                   (JsNumber.ofZ 1)
            /\ last_page response
               = JsNumber.ceil (JsNumber.div count (readBound (_top (request this)))))
        /\ (readBound (_top (request this)) = JsNumber.NaN
            \/ readBound (_top (request this)) = JsNumber.NegZero
            \/ (exists z, readBound (_top (request this)) = JsNumber.ofZ z /\ (z <= 0)%Z) ->
            per_page response = count
            /\ current_page response = JsNumber.ofZ 1
            /\ last_page response = JsNumber.ofZ 1)).
Proof.
  split; [apply applyPagination_calls|].
  intros Hsorts Hq.
  destruct (@execute_returns nts up T getManyAndCount this rows count qb Hsorts Hq) as [qb' E].
  rewrite requestLimit_readBound, requestSkip_readBound in E.
  eexists. exists qb'. split; [exact E|]. cbn [from to per_page current_page last_page].
  split; [reflexivity|]. split; [reflexivity|]. split.
  - intros ->. repeat split.
  - intros G.
    assert (JsNumber.gtZero (readBound (_top (request this))) = false) as ->.
    { destruct G as [-> | [-> | (z & -> & Hz)]]; [reflexivity | reflexivity |].
      rewrite gtZero_ofZ. now apply Z.ltb_ge. }
    repeat split.
Qed.

Lemma pagination_forwards_parsed_witness :
  applyPagination (withPage "-5" "7") []
  = Ok tt ([] ++ [take (JsNumber.ofZ (-5))] ++ [skip (JsNumber.ofZ 7)])
  /\ exists response qb',
      execute JsNumber.toString asciiToUpperCase (ret ([1; 2]%nat, JsNumber.ofZ 9))
              (withPage "-5" "7") [] = Ok response qb'
      /\ from response = JsNumber.ofZ 8
      /\ to response = JsNumber.ofZ 9
      /\ per_page response = JsNumber.ofZ 9
      /\ current_page response = JsNumber.ofZ 1
      /\ last_page response = JsNumber.ofZ 1.
Proof.
  destruct (@pagination_forwards_parsed JsNumber.toString asciiToUpperCase nat
              (ret ([1; 2]%nat, JsNumber.ofZ 9)) (withPage "-5" "7")
              [1; 2]%nat (JsNumber.ofZ 9) []) as [H1 H2].
  split; [exact H1|].
  destruct H2 as (response & qb' & E & F & To & _ & N).
  - intros qb0. exists qb0. reflexivity.
  - intros qb0. reflexivity.
  - exists response, qb'. split; [exact E|]. split; [exact F|]. split; [exact To|].
    apply N. right. right. exists (-5)%Z. split; [reflexivity | lia].
Defined.

(** C8, as stated, fails: a negative limit and an unreadable offset are both
    forwarded, and the offset of the envelope is NaN, not 0. *)
Lemma pagination_forwards_negative_and_NaN :
  run (applyPagination (withPage "-5" "abc"))
  = Ok tt [take (JsNumber.ofZ (-5)); skip JsNumber.NaN]
  /\ run (execute JsNumber.toString asciiToUpperCase (ret ([tt], JsNumber.ofZ 3))
                  (withPage "-5" "abc"))
     = Ok {| data := [tt]; current_page := JsNumber.ofZ 1; from := JsNumber.NaN;
             last_page := JsNumber.ofZ 1; per_page := JsNumber.ofZ 3;
             to := JsNumber.NaN; total := JsNumber.ofZ 3 |}
          [take (JsNumber.ofZ (-5)); skip JsNumber.NaN].
Proof. split; reflexivity. Qed.

(** A literal that reads as a number is bound as the number prints, inside
    the wildcards of a [LIKE]. *)
Example like_number_printed :
  run (applyFilters JsNumber.toString (withFilter "contains(price,1.50) and startswith(code,0x1F)"))
  = Ok tt [ andWhere (js "entity.price LIKE :val0") [(js "val0", VString (js "%1.5%"))];
            andWhere (js "entity.code LIKE :val1") [(js "val1", VString (js "31%"))] ].
Proof. vm_compute. reflexivity. Qed.

(* ================================================================= *)
(** ** The envelope *)

(** [ceilDiv] is the number of pages of [d] rows that [n] rows fill. *)
Lemma ceilDiv_spec (n d : Z) :
  (0 < d)%Z -> ((ceilDiv n d - 1) * d < n <= ceilDiv n d * d)%Z.
Proof.
  intros Hd. unfold ceilDiv.
  pose proof (Z.div_mod (- n) d ltac:(lia)) as E.
  pose proof (Z.mod_pos_bound (- n) d Hd) as B.
  nia.
Qed.

(** C6, as the code has it. The envelope: when the request gives the
    non-negative integers [skip] and [limit], the query returns [rows] and
    the non-negative count [total], all below [2^53] (where the doubles are
    the integers) with [skip + rows.length] at most [2^53], and no sort entry
    makes [applySorts] throw, [execute] returns the envelope
    [per_page = limit > 0 ? limit : total],
    [current_page = limit > 0 ? floor(skip / limit) + 1 : 1],
    [last_page = limit > 0 ? ceil(total / limit) : 1],
    [from = total == 0 ? 0 : skip + 1],
    [to = total == 0 ? 0 : skip + rows.length],
    in the integers: no rounding of a sum or of a quotient shows. *)
Theorem envelope_arithmetic
        (nts : JsNumber.t -> jsstring) (up : jsstring -> jsstring) (T : Type)
        (getManyAndCount : M (list T * JsNumber.t)) (this : ODataBuilder)
        (rows : list T) (skip limit total : Z) (qb : list call) :
  (0 <= skip < 2 ^ 53)%Z -> (0 <= limit < 2 ^ 53)%Z -> (0 <= total < 2 ^ 53)%Z ->
  (skip + Z.of_nat (length rows) <= 2 ^ 53)%Z ->
  requestSkip this = JsNumber.ofZ skip ->
  requestLimit this = JsNumber.ofZ limit ->
  (forall qb0, exists qb1, applySorts up this qb0 = Ok tt qb1) ->
  (forall qb0, getManyAndCount qb0 = Ok (rows, JsNumber.ofZ total) qb0) ->
  exists qb',
    execute nts up getManyAndCount this qb
    = Ok {| data := rows;
            per_page := JsNumber.ofZ (if (0 <? limit)%Z then limit else total);
            current_page := JsNumber.ofZ (if (0 <? limit)%Z then skip / limit + 1 else 1);
            last_page := JsNumber.ofZ (if (0 <? limit)%Z then ceilDiv total limit else 1);
            from := JsNumber.ofZ (if (total =? 0)%Z then 0 else skip + 1);
            to := JsNumber.ofZ (if (total =? 0)%Z then 0 else skip + Z.of_nat (length rows));
            total := JsNumber.ofZ total |}
         qb'.
Proof.
  intros Bs Bl Bt Bto Hs Hl Hsorts Hq.
  destruct (@execute_returns nts up T getManyAndCount this rows (JsNumber.ofZ total) qb
              Hsorts Hq) as [qb' E].
  exists qb'. rewrite E. clear E.
  rewrite Hs, Hl, gtZero_ofZ, isZero_ofZ.
  f_equal. f_equal.
  - destruct (0 <? limit)%Z eqn:L; [|reflexivity].
    apply Z.ltb_lt in L.
    rewrite floor_div_ofZ by lia. apply add_ofZ.
    pose proof (Z.div_pos skip limit ltac:(lia) L).
    pose proof (Z.div_le_upper_bound skip limit skip L ltac:(nia)). lia.
  - destruct (total =? 0)%Z; [reflexivity | apply add_ofZ; lia].
  - destruct (0 <? limit)%Z eqn:L; [|reflexivity].
    apply Z.ltb_lt in L. now rewrite ceil_div_ofZ by lia.
  - now destruct (0 <? limit)%Z.
  - destruct (total =? 0)%Z; [reflexivity | apply add_ofZ; lia].
Qed.

Lemma envelope_arithmetic_witness :
  exists qb',
    execute JsNumber.toString asciiToUpperCase
            (ret ([1; 2; 3; 4; 5]%nat, JsNumber.ofZ 15)) (withPage "10" "10") []
    = Ok {| data := [1; 2; 3; 4; 5]%nat;
            per_page := JsNumber.ofZ 10;
            current_page := JsNumber.ofZ 2;
            last_page := JsNumber.ofZ 2;
            from := JsNumber.ofZ 11;
            to := JsNumber.ofZ 15;
            total := JsNumber.ofZ 15 |}
         qb'.
Proof.
  apply (@envelope_arithmetic JsNumber.toString asciiToUpperCase nat
           (ret ([1; 2; 3; 4; 5]%nat, JsNumber.ofZ 15)) (withPage "10" "10")
           [1; 2; 3; 4; 5]%nat 10 10 15 []).
  - lia.
  - lia.
  - lia.
  - simpl. lia.
  - reflexivity.
  - reflexivity.
  - intros qb0. exists qb0. reflexivity.
  - intros qb0. reflexivity.
Defined.

(** C6, as stated for every non-negative integer, fails from [2^53] on: the
    numbers are doubles, and the double nearest to [2^53 + 1] is [2^53].
    With [$skip = 2^53] and one row, [from] and [to] are [2^53], not
    [skip + 1]. *)
Lemma envelope_rounds_from_2_53 :
  requestSkip (withPage "10" "9007199254740992") = JsNumber.ofZ 9007199254740992
  /\ run (execute JsNumber.toString asciiToUpperCase (ret ([tt], JsNumber.ofZ 15))
                  (withPage "10" "9007199254740992"))
     = Ok {| data := [tt]; current_page := JsNumber.ofZ 900719925474100;
             from := JsNumber.ofZ 9007199254740992;
             last_page := JsNumber.ofZ 2; per_page := JsNumber.ofZ 10;
             to := JsNumber.ofZ 9007199254740992; total := JsNumber.ofZ 15 |}
          [take (JsNumber.ofZ 10); skip (JsNumber.ofZ 9007199254740992)]
  /\ JsNumber.ofZ 9007199254740992 <> JsNumber.ofZ (9007199254740992 + 1).
Proof. repeat split; try reflexivity. discriminate. Qed.

(* ================================================================= *)
(** ** Value coercion *)

Lemma quoted_inv (q : N) (s : jsstring) :
  startsWith [q] s && endsWith [q] s = true ->
  s = [q] \/ exists body, s = q :: body ++ [q].
Proof.
  intros H. apply andb_true_iff in H as [S E].
  apply startsWith_inv in S as [r ->].
  unfold endsWith in E. apply startsWith_inv in E as [r' E].
  change ([q] ++ r) with (q :: r) in *.
  destruct (exists_last (l := q :: r) ltac:(discriminate)) as (l & x & Hl).
  rewrite Hl, rev_unit in E. injection E as -> _.
  destruct l as [|y l].
  - injection Hl as ->. now left.
  - injection Hl as <- ->. right. now exists l.
Qed.

Lemma slice_strip (q : N) (body : jsstring) : slice 1 (-1) (q :: body ++ [q]) = body.
Proof.
  unfold slice. cbn [length]. rewrite length_app. cbn [length].
  replace (Z.of_nat (S (length body + 1))) with (Z.of_nat (length body) + 2)%Z by lia.
  change (1 <? 0)%Z with false. change (-1 <? 0)%Z with true. cbv iota.
  replace (Z.to_nat (Z.min 1 (Z.of_nat (length body) + 2))) with 1 by lia.
  replace (Z.to_nat _) with (length body) by lia.
  cbn [skipn]. now rewrite firstn_app, firstn_all, Nat.sub_diag, app_nil_r.
Qed.

Lemma parseValue_quoted (q : N) (body : jsstring) :
  q = 34%N \/ q = 39%N -> parseValue (q :: body ++ [q]) = VString body.
Proof.
  intros Hq. unfold parseValue.
  assert (Q : startsWith [q] (q :: body ++ [q]) && endsWith [q] (q :: body ++ [q]) = true).
  { unfold endsWith. change (q :: body ++ [q]) with ((q :: body) ++ [q]) at 2.
    rewrite rev_unit. cbn. now rewrite N.eqb_refl. }
  destruct Hq as [-> | ->].
  - now rewrite Q, slice_strip.
  - change (js "'") with [39%N]. rewrite Q, slice_strip.
    now destruct (startsWith [34%N] _ && endsWith [34%N] _).
Qed.

Lemma isDigit_bounds (c : N) : JsNumber.isDigit c = true <-> (48 <= c <= 57)%N.
Proof.
  unfold JsNumber.isDigit. rewrite andb_true_iff, !N.leb_le. reflexivity.
Qed.

Lemma digitChar_isDigit (d : N) : JsNumber.isDigit (digitChar d) = true.
Proof.
  apply isDigit_bounds. unfold digitChar.
  pose proof (N.mod_upper_bound d 10 ltac:(discriminate)) as H.
  revert H. generalize (d mod 10)%N. intros n H. lia.
Qed.

(** A digit is none of the other characters the readers look for. *)
Lemma digit_eqb_false (c k : N) :
  JsNumber.isDigit c = true -> (k < 48 \/ 57 < k)%N -> (c =? k)%N = false.
Proof. intros H K. apply isDigit_bounds in H. apply N.eqb_neq. lia. Qed.

Lemma digit_not_trimmed (c : N) : JsNumber.isDigit c = true -> isTrimmed c = false.
Proof.
  intros H. unfold isTrimmed, isWhiteSpace, isLineTerminator.
  rewrite !(digit_eqb_false _ H) by lia.
  apply isDigit_bounds in H.
  assert ((8192 <=? c)%N = false) as -> by (apply N.leb_gt; lia).
  reflexivity.
Qed.

Lemma digitValue_digitChar (d : N) : JsNumber.digitValue (digitChar d) = Some (d mod 10)%N.
Proof.
  unfold JsNumber.digitValue. rewrite digitChar_isDigit. unfold digitChar. f_equal.
  now rewrite N.add_comm, N.add_sub.
Qed.

Lemma spanDigits_digits (ds : list N) (rest : jsstring) :
  JsNumber.spanDigits 10 (map digitChar ds ++ rest)
  = (map (fun d => (d mod 10)%N) ds ++ fst (JsNumber.spanDigits 10 rest),
     snd (JsNumber.spanDigits 10 rest)).
Proof.
  induction ds as [|d ds IH]; cbn [map app JsNumber.spanDigits].
  - now destruct (JsNumber.spanDigits 10 rest).
  - rewrite digitValue_digitChar.
    assert ((d mod 10 <? 10)%N = true) as ->
        by (apply N.ltb_lt, N.mod_upper_bound; discriminate).
    now rewrite IH.
Qed.

Lemma dropWhile_id (p : N -> bool) (s : jsstring) :
  Forall (fun c => p c = false) s -> dropWhile p s = s.
Proof. intros H. destruct H as [|c s Hc _]; simpl; [reflexivity | now rewrite Hc]. Qed.

(** Trimming a string that has no white space changes nothing. *)
Lemma trim_no_space (s : jsstring) :
  Forall (fun c => isTrimmed c = false) s -> trim s = s.
Proof.
  intros H. unfold trim, trimStart, trimEnd.
  rewrite (dropWhile_id _ H), dropWhile_id by now apply Forall_rev.
  apply rev_involutive.
Qed.

Lemma decimalLiteral_no_space (negative : bool) (ip fp : list N) :
  Forall (fun c => isTrimmed c = false) (decimalLiteral negative ip fp).
Proof.
  assert (D : forall l, Forall (fun c => isTrimmed c = false) (map digitChar l)).
  { intros l. apply Forall_forall. intros c Hc. apply in_map_iff in Hc as (d & <- & _).
    apply digit_not_trimmed, digitChar_isDigit. }
  unfold decimalLiteral. apply Forall_app. split; [|apply Forall_app; split].
  - destruct negative; [|constructor]. constructor; [reflexivity | constructor].
  - apply D.
  - destruct fp; [constructor|]. apply Forall_app. split; [|apply D].
    constructor; [reflexivity | constructor].
Qed.

Lemma spanDigits_all (ds : list N) :
  JsNumber.spanDigits 10 (map digitChar ds) = (map (fun d => (d mod 10)%N) ds, []).
Proof.
  rewrite <- (app_nil_r (map digitChar ds)), spanDigits_digits.
  cbn [JsNumber.spanDigits fst snd]. now rewrite app_nil_r.
Qed.

Lemma spanDigits_dot (ds : list N) (rest : jsstring) :
  JsNumber.spanDigits 10 (map digitChar ds ++ 46%N :: rest)
  = (map (fun d => (d mod 10)%N) ds, 46%N :: rest).
Proof.
  rewrite spanDigits_digits.
  change (JsNumber.spanDigits 10 (46%N :: rest)) with (@nil N, 46%N :: rest).
  cbn [fst snd]. now rewrite app_nil_r.
Qed.

Lemma readUnsignedDecimal_literal (negative : bool) (d : N) (ip fp : list N) :
  JsNumber.readUnsignedDecimal negative
    (map digitChar (d :: ip) ++ match fp with
                                | [] => []
                                | _ => js "." ++ map digitChar fp
                                end)
  = decimalNumber negative (d :: ip) fp.
Proof.
  pose proof (digitChar_isDigit d) as Hd.
  unfold JsNumber.readUnsignedDecimal.
  match goal with
  | |- (if JsString.eqb ?s ?i then _ else _) = _ =>
      assert (JsString.eqb s i = false) as ->
  end.
  { apply eqb_neq. intros E. injection E as E _.
    apply isDigit_bounds in Hd. rewrite E in Hd. lia. }
  destruct fp as [|f fp].
  - rewrite app_nil_r, spanDigits_all. unfold decimalNumber, decimalValue.
    rewrite !app_nil_r. reflexivity.
  - change (js "." ++ map digitChar (f :: fp)) with (46%N :: map digitChar (f :: fp)).
    rewrite spanDigits_dot. rewrite N.eqb_refl, spanDigits_all.
    unfold decimalNumber, decimalValue. rewrite map_app, length_map.
    reflexivity.
Qed.

(** An integer or decimal literal, with or without [-], reads as the double
    nearest to the number it denotes. *)
Lemma Number_decimalLiteral (negative : bool) (d : N) (ip fp : list N) :
  JsNumber.Number (decimalLiteral negative (d :: ip) fp)
  = decimalNumber negative (d :: ip) fp.
Proof.
  unfold JsNumber.Number. rewrite trim_no_space by apply decimalLiteral_no_space.
  pose proof (digitChar_isDigit d) as Hd.
  pose proof (readUnsignedDecimal_literal negative d ip fp) as R.
  unfold decimalLiteral. destruct negative.
  - change (js "-" ++ map digitChar (d :: ip) ++ ?r)
      with (45%N :: digitChar d :: (map digitChar ip ++ r)).
    cbv beta iota. unfold JsNumber.readNonDecimal.
    change (negb (45 =? 48)%N) with true. cbv iota.
    unfold JsNumber.readSign. change (45 =? 45)%N with true. cbv iota.
    exact R.
  - cbn [app].
    assert (JsNumber.readNonDecimal
              (map digitChar (d :: ip) ++ match fp with
                                          | [] => []
                                          | _ => js "." ++ map digitChar fp
                                          end) = None) as N0.
    { cbn [map app]. unfold JsNumber.readNonDecimal.
      destruct (map digitChar ip ++ _) as [|x r] eqn:E; [reflexivity|].
      destruct (digitChar d =? 48)%N; [|reflexivity]. cbn [negb].
      assert (X : JsNumber.isDigit x = true \/ x = 46%N).
      { destruct ip as [|i ip]; cbn [map app] in E.
        - destruct fp; [discriminate|]. injection E as <- _. now right.
        - injection E as <- _. left. apply digitChar_isDigit. }
      destruct X as [X | ->]; [|reflexivity].
      now rewrite !(digit_eqb_false _ X) by lia. }
    cbn [map app] in *. rewrite N0.
    unfold JsNumber.readSign. rewrite !(digit_eqb_false _ Hd) by lia.
    exact R.
Qed.

Lemma round_not_NaN (q : Q) : JsNumber.round q <> JsNumber.NaN.
Proof.
  unfold JsNumber.round.
  destruct (q ?= 0)%Q; repeat match goal with
                              | |- context [if ?b then _ else _] => destruct b
                              end; discriminate.
Qed.

Lemma decimalNumber_not_NaN (negative : bool) (ip fp : list N) :
  decimalNumber negative ip fp <> JsNumber.NaN.
Proof.
  unfold decimalNumber.
  pose proof (round_not_NaN (decimalValue false ip fp)) as H.
  destruct negative; [|exact H].
  destruct (JsNumber.round _) as [|s|q|]; [contradiction| | |]; cbn [JsNumber.neg];
    try discriminate.
  destruct (Qeq_bool q 0); discriminate.
Qed.

(** The value of an integer literal. *)
Lemma decimalValue_integer (ds : list N) :
  decimalValue false ds []
  = inject_Z (Z.of_N (JsNumber.valueOfDigits 10 (map (fun d => (d mod 10)%N) ds))).
Proof.
  unfold decimalValue. rewrite app_nil_r. cbn [length Z.of_nat Z.opp JsNumber.scale10 JsNumber.signed].
  now rewrite Z.pow_0_r, Z.mul_1_r.
Qed.

(** A string whose first character opens neither a quoted string nor one of
    the three keywords is a number if [Number] reads it, and itself if not. *)
Lemma parseValue_head (c : N) (r : jsstring) :
  c <> 34%N -> c <> 39%N -> c <> 116%N -> c <> 102%N -> c <> 110%N ->
  parseValue (c :: r)
  = if negb (JsNumber.isNaN (JsNumber.Number (c :: r)))
    then VNumber (JsNumber.Number (c :: r))
    else VString (c :: r).
Proof.
  intros H34 H39 Ht Hf Hn. unfold parseValue.
  change (js "'") with [39%N]. cbn [startsWith].
  rewrite (proj2 (N.eqb_neq 34 c)), (proj2 (N.eqb_neq 39 c)) by congruence.
  cbn [andb].
  rewrite !(proj2 (eqb_neq _ _)); [reflexivity | | |];
    intros E; injection E as E _; congruence.
Qed.

Lemma quotedBy_iff (q : N) (s : jsstring) :
  quotedBy q s = true <-> s = [q] \/ exists body, s = q :: body ++ [q].
Proof.
  split; [apply quoted_inv|].
  unfold quotedBy, endsWith.
  intros [-> | [body ->]].
  - cbn. now rewrite N.eqb_refl.
  - change (q :: body ++ [q]) with ((q :: body) ++ [q]) at 2.
    rewrite rev_unit. cbn. now rewrite N.eqb_refl.
Qed.

(** What is neither quoted nor a keyword is a number if [Number] reads it,
    and itself if not. *)
Lemma parseValue_unquoted (s : jsstring) :
  quotedBy 34 s = false -> quotedBy 39 s = false ->
  s <> js "true" -> s <> js "false" -> s <> js "null" ->
  parseValue s = if JsNumber.isNaN (JsNumber.Number s) then VString s
                 else VNumber (JsNumber.Number s).
Proof.
  unfold quotedBy. intros Q2 Q1 Ht Hf Hn. unfold parseValue.
  change (js "'") with [39%N]. rewrite Q2, Q1.
  rewrite !(proj2 (eqb_neq _ _)) by assumption.
  now destruct (JsNumber.isNaN _).
Qed.

(** C4, as the code has it. Coercion is total, and these rules decide every
    string.  A body between two double quotes or between two single quotes
    gives the body as a String; the string that is one quote character alone
    gives the empty String.  [true] and [false] give a Boolean, [null] gives
    Null.  Any other string (one that does not begin and end with the same
    quote character and is none of the three keywords) gives the Number
    [Number] reads it as, and itself when [Number] reads NaN.  [Number]
    reads every integer and decimal literal with an optional [-] as the
    double nearest to its value, which is the integer itself up to [2^53].
    In particular [true], ['John'], [42] and [null] are coerced as the spec
    lists them. *)
Theorem parseValue_rules :
  (forall body, parseValue (doubleQuoted body) = VString body)
  /\ (forall body, parseValue (singleQuoted body) = VString body)
  /\ parseValue [34%N] = VString []
  /\ parseValue [39%N] = VString []
  /\ parseValue (js "true") = VBoolean true
  /\ parseValue (js "false") = VBoolean false
  /\ parseValue (js "null") = VNull
  /\ (forall s : jsstring,
         quotedBy 34 s = false -> quotedBy 39 s = false ->
         s <> js "true" -> s <> js "false" -> s <> js "null" ->
         parseValue s = if JsNumber.isNaN (JsNumber.Number s) then VString s
                        else VNumber (JsNumber.Number s))
  /\ (forall (q : N) (s : jsstring),
         quotedBy q s = true <-> s = [q] \/ exists body, s = q :: body ++ [q])
  /\ (forall (negative : bool) (d : N) (ip fp : list N),
         parseValue (decimalLiteral negative (d :: ip) fp)
         = VNumber (decimalNumber negative (d :: ip) fp)
         /\ decimalNumber negative (d :: ip) fp <> JsNumber.NaN)
  /\ (forall (negative : bool) (ds : list N) (n : Z),
         n = Z.of_N (JsNumber.valueOfDigits 10 (map (fun d => (d mod 10)%N) ds)) ->
         (0 < n <= 2 ^ 53)%Z ->
         decimalNumber negative ds [] = JsNumber.ofZ (JsNumber.signed negative n))
  /\ parseValue (js "'John'") = VString (js "John")
  /\ parseValue (js "42") = VNumber (JsNumber.ofZ 42).
Proof.
  repeat match goal with |- _ /\ _ => split end; try reflexivity.
  - intros body. apply parseValue_quoted. now left.
  - intros body. apply parseValue_quoted. now right.
  - apply parseValue_unquoted.
  - apply quotedBy_iff.
  - intros negative d ip fp.
    pose proof (decimalNumber_not_NaN negative (d :: ip) fp) as NN.
    split; [|exact NN].
    pose proof (Number_decimalLiteral negative d ip fp) as E.
    pose proof (digitChar_isDigit d) as Hd. apply isDigit_bounds in Hd.
    unfold decimalLiteral in *. destruct negative; cbn [map app] in *.
    + change (js "-" ++ ?r) with (45%N :: r) in *.
      rewrite parseValue_head by discriminate. rewrite E.
      destruct (decimalNumber true (d :: ip) fp); [contradiction|reflexivity..].
    + rewrite parseValue_head by (intros X; rewrite X in Hd; lia). rewrite E.
      destruct (decimalNumber false (d :: ip) fp); [contradiction|reflexivity..].
  - intros negative ds n Hn Bn. unfold decimalNumber. rewrite decimalValue_integer, <- Hn.
    rewrite (@round_integer _ n) by (lia || reflexivity).
    destruct negative; [|reflexivity].
    unfold JsNumber.neg, JsNumber.ofZ, JsNumber.signed.
    destruct (Qeq_bool (inject_Z n) 0) eqn:Z0.
    + apply Qeq_bool_iff in Z0. apply (proj1 (inject_Z_injective n 0)) in Z0. lia.
    + f_equal. rewrite <- inject_Z_opp. apply Qred_inject_Z.
Qed.

Lemma parseValue_rules_witness :
  parseValue (js "12abc") = VString (js "12abc")
  /\ parseValue (js "-1.50") = VNumber (JsNumber.Fin (-3 # 2))
  /\ decimalNumber true [9%N; 0%N; 0%N; 7%N] [] = JsNumber.ofZ (-9007).
Proof.
  destruct parseValue_rules as (_ & _ & _ & _ & _ & _ & _ & U & _ & _ & I & _).
  split; [|split].
  - apply (U (js "12abc")); (reflexivity || discriminate).
  - apply (U (js "-1.50")); (reflexivity || discriminate).
  - apply (I true [9%N; 0%N; 0%N; 7%N] 9007%Z); [reflexivity | lia].
Defined.

(** C4, as stated, fails: these are not integer or decimal literals with an
    optional [-], and they are coerced to numbers, not to themselves. *)
Lemma parseValue_reads_other_numbers :
  parseValue (js "0x10") = VNumber (JsNumber.ofZ 16)
  /\ parseValue (js "0x10") <> VString (js "0x10")
  /\ parseValue (js "") = VNumber (JsNumber.ofZ 0)
  /\ parseValue (js "+5") = VNumber (JsNumber.ofZ 5)
  /\ parseValue (js "Infinity") = VNumber (JsNumber.Infinity false).
Proof. repeat split; try reflexivity. discriminate. Qed.

(* ================================================================= *)
(** ** Null tests *)

(** Only a space matches the space of a pattern, with or without the [i]
    flag. *)
Lemma matchHere_space_head (ic : bool) (p : list Regex.item) (x : N) (r : jsstring) :
  x <> 32%N -> Regex.matchHere ic (Regex.Chr 32 :: p) (x :: r) = None.
Proof.
  intros Hx. cbn [Regex.matchHere].
  assert (Regex.chrMatches ic 32 x = false) as ->; [|reflexivity].
  unfold Regex.chrMatches. destruct ic; apply N.eqb_neq.
  - unfold Regex.asciiUpper. cbn [N.leb N.compare Pos.compare Pos.compare_cont andb].
    destruct ((97 <=? x) && (x <=? 122))%N eqn:E.
    + apply andb_true_iff in E as [E1 E2]. apply N.leb_le in E1, E2.
      change (if (97 <=? 32)%N && (32 <=? 122)%N then (32 - 32)%N else 32%N) with 32%N. lia.
    + change (if (97 <=? 32)%N && (32 <=? 122)%N then (32 - 32)%N else 32%N) with 32%N.
      congruence.
  - congruence.
Qed.

(** The lazy group takes a field that has no space, when the rest of the
    pattern starts with a space and matches after the field. *)
Lemma lazyDots_field (ic : bool) (p : list Regex.item) (rest : jsstring) (caps : list jsstring) :
  Regex.matchHere ic (Regex.Chr 32 :: p) rest = Some caps ->
  forall f taken,
    f <> [] ->
    Forall (fun c => Regex.dot c = true) f ->
    Forall (fun c => c <> 32%N) f ->
    Regex.lazyDots (Regex.matchHere ic (Regex.Chr 32 :: p)) taken (f ++ rest)
    = Some ((rev taken ++ f) :: caps).
Proof.
  intros K f. induction f as [|c f IH]; intros taken Hne Hdot Hsp; [contradiction|].
  inversion Hdot as [|? ? Hc Hdot']. inversion Hsp as [|? ? Hs Hsp']. subst.
  cbn [app Regex.lazyDots]. rewrite Hc.
  destruct f as [|c' f].
  - cbn [app]. rewrite K. cbn [rev]. reflexivity.
  - cbn [app]. rewrite matchHere_space_head by now inversion Hsp'.
    change (c' :: f ++ rest) with ((c' :: f) ++ rest).
    rewrite IH by (assumption || discriminate).
    cbn [rev]. now rewrite <- app_assoc.
Qed.

Lemma search_field (ic : bool) (p : list Regex.item) (f rest : jsstring) (caps : list jsstring) :
  f <> [] ->
  Forall (fun c => Regex.dot c = true) f ->
  Forall (fun c => c <> 32%N) f ->
  Regex.matchHere ic (Regex.Chr 32 :: p) rest = Some caps ->
  Regex.search ic (Regex.LazyDots :: Regex.Chr 32 :: p) (f ++ rest) = Some (f :: caps).
Proof.
  intros Hne Hdot Hsp K.
  assert (M : Regex.matchHere ic (Regex.LazyDots :: Regex.Chr 32 :: p) (f ++ rest)
              = Some (f :: caps)).
  { change (Regex.matchHere ic (Regex.LazyDots :: Regex.Chr 32 :: p) (f ++ rest))
      with (Regex.lazyDots (Regex.matchHere ic (Regex.Chr 32 :: p)) [] (f ++ rest)).
    now rewrite (@lazyDots_field ic p rest caps K f [] Hne Hdot Hsp). }
  destruct (f ++ rest); cbn [Regex.search]; now rewrite M.
Qed.

(** No match when the rest of the pattern matches at no position. *)
Lemma lazyDots_none (k : jsstring -> option (list jsstring)) (s : jsstring) :
  (forall pre post, s = pre ++ post -> k post = None) ->
  forall taken, Regex.lazyDots k taken s = None.
Proof.
  induction s as [|c s IH]; intros H taken; [reflexivity|].
  cbn [Regex.lazyDots]. destruct (Regex.dot c); [|reflexivity].
  rewrite (H [c] s eq_refl). apply IH.
  intros pre post ->. apply (H (c :: pre) post). reflexivity.
Qed.

Lemma search_none (ic : bool) (p : list Regex.item) (s : jsstring) :
  (forall pre post, s = pre ++ post -> Regex.matchHere ic p post = None) ->
  Regex.search ic (Regex.LazyDots :: p) s = None.
Proof.
  induction s as [|c s IH]; intros H.
  - reflexivity.
  - cbn [Regex.search Regex.matchHere]. rewrite lazyDots_none by assumption.
    apply IH. intros pre post ->. apply (H (c :: pre) post). reflexivity.
Qed.

(** After a field that has no space, a pattern that starts with a space can
    only match inside what follows the field. *)
Lemma search_none_after_field (ic : bool) (p : list Regex.item) (f rest : jsstring) :
  Forall (fun c => c <> 32%N) f ->
  (forall l post, rest = l ++ post -> Regex.matchHere ic (Regex.Chr 32 :: p) post = None) ->
  Regex.search ic (Regex.LazyDots :: Regex.Chr 32 :: p) (f ++ rest) = None.
Proof.
  intros Hsp H. apply search_none. intros pre post E.
  apply app_eq_app in E as [l [[-> ->] | [-> ->]]].
  - destruct l as [|x l]; [apply (H [] rest eq_refl)|].
    apply matchHere_space_head.
    apply Forall_app in Hsp as [_ Hsp]. now inversion Hsp.
  - apply (H l post eq_refl).
Qed.

(** Every way to cut a given text in two. *)
Ltac cuts H :=
  repeat match type of H with
         | _ = ?l ++ _ =>
             destruct l as [|? l]; cbn [app] in H;
             [ subst; reflexivity
             | first [discriminate H | injection H as _ H] ]
         end.

Lemma firstMatch_eq_null (nts : JsNumber.t -> jsstring) (index : nat) (f : jsstring) :
  f <> [] ->
  Forall (fun c => Regex.dot c = true) f ->
  Forall (fun c => c <> 32%N) f ->
  firstMatch (f ++ js " eq 'null'") (strategies nts index)
  = Some (nullStrategy " eq 'null'" " IS NULL", [f]).
Proof.
  intros Hne Hdot Hsp. unfold strategies. cbn [firstMatch].
  unfold Regex.exec. cbn [pattern nullStrategy Regex.ignoreCase Regex.items].
  change (Regex.lits " eq 'null'") with (Regex.Chr 32 :: Regex.lits "eq 'null'").
  now rewrite (@search_field true (Regex.lits "eq 'null'") f (js " eq 'null'") []
                 Hne Hdot Hsp eq_refl).
Qed.

Lemma firstMatch_ne_null (nts : JsNumber.t -> jsstring) (index : nat) (f : jsstring) :
  f <> [] ->
  Forall (fun c => Regex.dot c = true) f ->
  Forall (fun c => c <> 32%N) f ->
  firstMatch (f ++ js " ne 'null'") (strategies nts index)
  = Some (nullStrategy " ne 'null'" " IS NOT NULL", [f]).
Proof.
  intros Hne Hdot Hsp. unfold strategies. cbn [firstMatch].
  unfold Regex.exec. cbn [pattern nullStrategy Regex.ignoreCase Regex.items].
  change (Regex.lits " eq 'null'") with (Regex.Chr 32 :: Regex.lits "eq 'null'").
  change (Regex.lits " ne 'null'") with (Regex.Chr 32 :: Regex.lits "ne 'null'").
  rewrite search_none_after_field; [|assumption|].
  - now rewrite (@search_field true (Regex.lits "ne 'null'") f (js " ne 'null'") []
                   Hne Hdot Hsp eq_refl).
  - intros l post E. cuts E.
Qed.

Lemma firstMatch_eq_doubleQuoted_null (nts : JsNumber.t -> jsstring) (index : nat) (f : jsstring) :
  f <> [] ->
  Forall (fun c => Regex.dot c = true) f ->
  Forall (fun c => c <> 32%N) f ->
  firstMatch (f ++ js " eq " ++ doubleQuoted (js "null")) (strategies nts index)
  = Some (compareStrategy index " eq " " = ", [f; doubleQuoted (js "null")]).
Proof.
  intros Hne Hdot Hsp. unfold strategies. cbn [firstMatch].
  unfold Regex.exec.
  cbn [pattern nullStrategy compareStrategy Regex.ignoreCase Regex.items].
  change (Regex.lits " eq 'null'") with (Regex.Chr 32 :: Regex.lits "eq 'null'").
  change (Regex.lits " ne 'null'") with (Regex.Chr 32 :: Regex.lits "ne 'null'").
  change (Regex.lits " eq " ++ [Regex.GreedyDots])
    with (Regex.Chr 32 :: Regex.lits "eq " ++ [Regex.GreedyDots]).
  rewrite search_none_after_field; [|assumption|].
  - rewrite search_none_after_field; [|assumption|].
    + now rewrite (@search_field false (Regex.lits "eq " ++ [Regex.GreedyDots]) f
                     (js " eq " ++ doubleQuoted (js "null")) [doubleQuoted (js "null")]
                     Hne Hdot Hsp eq_refl).
    + intros l post E. cuts E.
  - intros l post E. cuts E.
Qed.

(** C3, as the code has it. For a field with no space and no line terminator
    that passes the allow-list, [f eq 'null'] is the test [f IS NULL] and
    [f ne 'null'] the test [f IS NOT NULL], both with no parameter.  Only
    single quotes make a null test: [f eq "null"] is the equality with the
    string [null]. *)
Theorem null_tests_single_quoted
        (nts : JsNumber.t -> jsstring) (this : ODataBuilder) (f : jsstring)
        (index : nat) (qb : list call) :
  f <> [] ->
  Forall (fun c => isLineTerminator c = false) f ->
  Forall (fun c => c <> 32%N) f ->
  authorized (allowedFiltersList this) (trim f) ->
  parseAndApplyFilter nts this (f ++ js " eq 'null'") index qb
  = Ok tt (qb ++ [andWhere (qualify (trim f) ++ js " IS NULL") []])
  /\ parseAndApplyFilter nts this (f ++ js " ne 'null'") index qb
     = Ok tt (qb ++ [andWhere (qualify (trim f) ++ js " IS NOT NULL") []])
  /\ parseAndApplyFilter nts this (f ++ js " eq " ++ doubleQuoted (js "null")) index qb
     = Ok tt (qb ++ [andWhere (qualify (trim f) ++ js " = :val" ++ ofIndex index)
                              [(js "val" ++ ofIndex index, VString (js "null"))]]).
Proof.
  intros Hne Hlt Hsp A. apply guard_authorized in A.
  assert (Hdot : Forall (fun c => Regex.dot c = true) f).
  { eapply Forall_impl; [|exact Hlt]. intros c Hc. unfold Regex.dot. now rewrite Hc. }
  unfold parseAndApplyFilter. rewrite !tryStrategies_firstMatch.
  rewrite firstMatch_eq_null, firstMatch_ne_null, firstMatch_eq_doubleQuoted_null
    by assumption.
  cbn [nth_error option_map]. rewrite A.
  cbn [handle nullStrategy compareStrategy].
  unfold bind, parseValueOf, ret.
  rewrite !addWhere_qualify.
  rewrite !qualify_app by (reflexivity || (apply rest_no_dot; reflexivity)).
  repeat split; reflexivity.
Qed.

Lemma null_tests_single_quoted_witness :
  parseAndApplyFilter JsNumber.toString (for_ noRequest) (js "deletedAt" ++ js " eq 'null'") 0 []
  = Ok tt ([] ++ [andWhere (qualify (trim (js "deletedAt")) ++ js " IS NULL") []])
  /\ parseAndApplyFilter JsNumber.toString (for_ noRequest) (js "deletedAt" ++ js " ne 'null'") 0 []
     = Ok tt ([] ++ [andWhere (qualify (trim (js "deletedAt")) ++ js " IS NOT NULL") []])
  /\ parseAndApplyFilter JsNumber.toString (for_ noRequest)
       (js "deletedAt" ++ js " eq " ++ doubleQuoted (js "null")) 0 []
     = Ok tt ([] ++ [andWhere (qualify (trim (js "deletedAt")) ++ js " = :val" ++ ofIndex 0)
                              [(js "val" ++ ofIndex 0, VString (js "null"))]]).
Proof.
  apply (@null_tests_single_quoted JsNumber.toString (for_ noRequest) (js "deletedAt") 0 []).
  - discriminate.
  - repeat constructor.
  - repeat (constructor; [discriminate|]). constructor.
  - left. reflexivity.
Defined.

(** C3, as stated, fails on the double-quoted form: it is an equality that
    binds the string [null], not a null test. *)
Lemma double_quoted_null_is_equality :
  parseAndApplyFilter JsNumber.toString (for_ noRequest)
    (js "name eq " ++ doubleQuoted (js "null")) 0 []
  = Ok tt [andWhere (js "entity.name = :val0") [(js "val0", VString (js "null"))]]
  /\ parseAndApplyFilter JsNumber.toString (for_ noRequest)
       (js "name eq " ++ doubleQuoted (js "null")) 0 []
     <> Ok tt [andWhere (js "entity.name IS NULL") []].
Proof. split; [reflexivity | discriminate]. Qed.

(* ================================================================= *)
(** ** More on filters *)

(** The calls of a clause: none, or the one call of the first matching
    strategy, on a field that passes the allow-list. *)
Lemma clauseCalls_cases (nts : JsNumber.t -> jsstring) (this : ODataBuilder)
      (filter : jsstring) (index : nat) :
  clauseCalls nts this filter index = []
  \/ exists st captures g1 c,
      firstMatch filter (strategies nts index) = Some (st, captures) /\
      nth_error captures 0 = Some g1 /\
      handled nts index st g1 captures c /\
      authorized (allowedFiltersList this) (trim g1) /\
      clauseCalls nts this filter index = [c].
Proof.
  unfold clauseCalls.
  destruct (firstMatch filter (strategies nts index)) as [[st captures]|] eqn:F.
  - destruct (firstMatch_handled _ _ _ F) as (g1 & c & E & Hc & H).
    rewrite (H this []).
    destruct (_ && _) eqn:G; [now left|].
    right. exists st, captures, g1, c. apply guard_authorized in G. auto.
  - rewrite (firstMatch_none _ _ _ _ _ F). now left.
Qed.

Lemma callsFrom_Forall {A : Type} (P : call -> Prop) (g : A -> nat -> list call) (l : list A) :
  (forall x index, Forall P (g x index)) ->
  forall index, Forall P (callsFrom index g l).
Proof.
  intros H. induction l as [|x l IH]; intros index; simpl; [constructor|].
  apply Forall_app. split; [apply H | apply IH].
Qed.

Lemma callsFrom_length {A : Type} (g : A -> nat -> list call) (l : list A) :
  (forall x index, length (g x index) <= 1) ->
  forall index, length (callsFrom index g l) <= length l.
Proof.
  intros H. induction l as [|x l IH]; intros index; simpl; [lia|].
  rewrite length_app. specialize (H x index). specialize (IH (S index)). lia.
Qed.

Lemma applyFilters_clauses (nts : JsNumber.t -> jsstring) (this : ODataBuilder) (qb : list call) :
  applyFilters nts this qb
  = Ok tt (qb ++ callsFrom 0 (fun part index => clauseCalls nts this (trim part) index)
                           (clausesOf this)).
Proof.
  rewrite applyFilters_calls. unfold clausesOf.
  now destruct (_filter (request this)) as [[|c f]|].
Qed.

(** X1. A clause whose field is not in a non-empty allow-list makes no call
    and raises nothing: it is dropped. *)
Theorem filter_unauthorized_dropped
        (nts : JsNumber.t -> jsstring) (this : ODataBuilder) (filter : jsstring)
        (index : nat) (qb : list call) (st : strategy) (captures : list jsstring)
        (g1 : jsstring) :
  firstMatch filter (strategies nts index) = Some (st, captures) ->
  nth_error captures 0 = Some g1 ->
  allowedFiltersList this <> [] ->
  ~ In (trim g1) (allowedFiltersList this) ->
  parseAndApplyFilter nts this filter index qb = Ok tt qb.
Proof.
  intros F E Hne Hout.
  destruct (firstMatch_handled _ _ _ F) as (g & c & E' & _ & H).
  rewrite E in E'. injection E' as <-. rewrite (H this qb).
  destruct (_ && _) eqn:G; [reflexivity|].
  apply guard_authorized in G as [G|G]; contradiction.
Qed.

Lemma filter_unauthorized_dropped_witness :
  parseAndApplyFilter JsNumber.toString (allowedFilters [js "name"] (for_ noRequest))
                      (js "password eq 'x'") 0 []
  = Ok tt [].
Proof.
  apply (@filter_unauthorized_dropped JsNumber.toString (allowedFilters [js "name"] (for_ noRequest))
           (js "password eq 'x'") 0 [] (compareStrategy 0 " eq " " = ")
           [js "password"; js "'x'"] (js "password")).
  - reflexivity.
  - reflexivity.
  - discriminate.
  - intros [H|[]]. discriminate H.
Defined.

(** X2. [applyFilters] never throws, whatever the filter is: it returns after
    making conditions only, at most one for each clause of the split on
    [" and "]. *)
Theorem applyFilters_never_throws
        (nts : JsNumber.t -> jsstring) (this : ODataBuilder) (qb : list call) :
  exists calls,
    applyFilters nts this qb = Ok tt (qb ++ calls) /\
    Forall (fun c => isAndWhere c = true) calls /\
    length calls <= length (clausesOf this).
Proof.
  eexists. split; [apply applyFilters_clauses|]. split.
  - apply callsFrom_Forall. intros part index.
    destruct (clauseCalls_cases nts this (trim part) index)
      as [-> | (st & captures & g1 & c & _ & _ & Hc & _ & ->)]; [constructor|].
    constructor; [|constructor]. now destruct Hc.
  - apply callsFrom_length. intros part index.
    destruct (clauseCalls_cases nts this (trim part) index)
      as [-> | (st & captures & g1 & c & _ & _ & _ & _ & ->)]; simpl; lia.
Qed.

(** X3. With a non-empty allow-list, the text of every condition is bounded:
    it is a field of the allow-list, qualified, followed by one of the fixed
    operator texts of some clause position.  Nothing else of the filter
    string reaches a condition. *)
Theorem allow_list_bounds_conditions
        (nts : JsNumber.t -> jsstring) (this : ODataBuilder) (qb : list call) :
  allowedFiltersList this <> [] ->
  exists calls,
    applyFilters nts this qb = Ok tt (qb ++ calls) /\
    Forall (fun c => exists field index rest parameters,
                c = andWhere (qualify field ++ rest) parameters /\
                In field (allowedFiltersList this) /\
                In rest (conditionRests index)) calls.
Proof.
  intros Hne. eexists. split; [apply applyFilters_clauses|].
  apply callsFrom_Forall. intros part index.
  destruct (clauseCalls_cases nts this (trim part) index)
    as [-> | (st & captures & g1 & c & _ & _ & Hc & [A|A] & ->)];
    [constructor | contradiction |].
  constructor; [|constructor].
  exists (trim g1), index.
  destruct Hc as [src sql I S | src sql g2 I S | src before after g2 I S].
  - exists (js sql), []. repeat split; [assumption|].
    unfold conditionRests. apply in_or_app. left.
    now apply (in_map (fun f => js (snd f)) _ (src, sql)).
  - eexists (js sql ++ js ":" ++ placeholder index), _. repeat split; [assumption|].
    unfold conditionRests. apply in_or_app. right. apply in_or_app. left.
    now apply (in_map (fun f => js (snd f) ++ js ":" ++ placeholder index) _ (src, sql)).
  - eexists (js " LIKE :" ++ placeholder index), _. repeat split; [assumption|].
    unfold conditionRests. apply in_or_app. right. apply in_or_app. right. now left.
Qed.

Lemma allow_list_bounds_conditions_witness :
  exists calls,
    applyFilters JsNumber.toString
      (allowedFilters [js "name"] (withFilter "name eq 1 and x;-- ne 'null' and name ne 'null'")) []
    = Ok tt ([] ++ calls) /\
    Forall (fun c => exists field index rest parameters,
                c = andWhere (qualify field ++ rest) parameters /\
                In field (allowedFiltersList
                            (allowedFilters [js "name"]
                               (withFilter "name eq 1 and x;-- ne 'null' and name ne 'null'"))) /\
                In rest (conditionRests index)) calls.
Proof.
  apply (@allow_list_bounds_conditions JsNumber.toString
           (allowedFilters [js "name"] (withFilter "name eq 1 and x;-- ne 'null' and name ne 'null'"))
           []).
  discriminate.
Defined.

(** Without an allow-list the field is whatever stands before the operator. *)
Example field_text_is_not_checked :
  run (applyFilters JsNumber.toString (withFilter "x;-- ne 'null'"))
  = Ok tt [andWhere (js "entity.x;-- IS NOT NULL") []].
Proof. reflexivity. Qed.

Lemma parseValue_not_NaN (s : jsstring) : parseValue s <> VNumber JsNumber.NaN.
Proof.
  unfold parseValue.
  repeat match goal with
         | |- (if ?b then _ else _) <> _ => destruct b eqn:?; try discriminate
         end.
  intros E. injection E as E. rewrite E in *. discriminate.
Qed.

(** X4. No parameter of a filter is ever NaN: a literal is bound as a number
    only when [Number] reads it. *)
Theorem filter_parameters_never_NaN
        (nts : JsNumber.t -> jsstring) (this : ODataBuilder) (qb : list call) :
  exists calls,
    applyFilters nts this qb = Ok tt (qb ++ calls) /\
    Forall (fun c => forall name v, In (name, v) (parametersOf c) ->
                                    v <> VNumber JsNumber.NaN) calls.
Proof.
  eexists. split; [apply applyFilters_clauses|].
  apply callsFrom_Forall. intros part index.
  destruct (clauseCalls_cases nts this (trim part) index)
    as [-> | (st & captures & g1 & c & _ & _ & Hc & _ & ->)]; [constructor|].
  constructor; [|constructor].
  intros name v HIn.
  destruct Hc; simpl in HIn.
  - contradiction.
  - destruct HIn as [E|[]]. injection E as _ <-. apply parseValue_not_NaN.
  - destruct HIn as [E|[]]. injection E as _ <-. discriminate.
Qed.

(* ================================================================= *)
(** ** The whole request *)

Lemma applySorts_entries (up : jsstring -> jsstring) (this : ODataBuilder) (qb : list call) :
  (forall sort, In sort (sortEntriesOf this) ->
                lacksDirection (allowedSortsList this) sort = false) ->
  applySorts up this qb
  = Ok tt (qb ++ flat_map (sortCall up (allowedSortsList this)) (sortEntriesOf this)).
Proof.
  unfold applySorts, sortEntriesOf.
  destruct (_orderby (request this)) as [[|c o]|]; intros H;
    try (unfold ret; now rewrite app_nil_r).
  unfold forEach.
  rewrite (forEachFrom_calls_in _ (fun sort _ => sortCall up (allowedSortsList this) sort)).
  - now rewrite callsFrom_flat_map.
  - intros sort HIn index qb0. rewrite sort_entry. now rewrite (H sort HIn).
Qed.

Lemma applyExpands_entries (this : ODataBuilder) (qb : list call) :
  applyExpands this qb
  = Ok tt (qb ++ flat_map (expandCall (allowedExpandsList this)) (expandEntriesOf this)).
Proof.
  rewrite applyExpands_calls. unfold expandEntriesOf.
  now destruct (_expand (request this)) as [[|c e]|].
Qed.

(** X5. The order of a request: when no sort entry makes [applySorts] throw,
    [execute] makes the conditions of the filter, then the orderings, then the
    joins, then [take] and [skip], and only then runs the query.  A rejected
    query is the failure of [execute], with nothing added; a query that
    returns gives its rows and its count to the envelope. *)
Theorem execute_applies_in_order
        (nts : JsNumber.t -> jsstring) (up : jsstring -> jsstring) (T : Type)
        (getManyAndCount : M (list T * JsNumber.t)) (this : ODataBuilder) (qb : list call) :
  (forall sort, In sort (sortEntriesOf this) ->
                lacksDirection (allowedSortsList this) sort = false) ->
  let built := qb ++ filterCallsOf nts this
                  ++ flat_map (sortCall up (allowedSortsList this)) (sortEntriesOf this)
                  ++ flat_map (expandCall (allowedExpandsList this)) (expandEntriesOf this)
                  ++ pageCallsOf this in
  (forall e qb', getManyAndCount built = Throw e qb' ->
                 execute nts up getManyAndCount this qb = Throw e qb')
  /\ (forall rows count qb',
         getManyAndCount built = Ok (rows, count) qb' ->
         exists response,
           execute nts up getManyAndCount this qb = Ok response qb'
           /\ data response = rows /\ total response = count).
Proof.
  intros Hs built.
  unfold execute.
  rewrite (bind_Ok _ _ _ (applyFilters_clauses nts this qb)).
  rewrite (bind_Ok _ _ _ (applySorts_entries up this _ Hs)).
  rewrite (bind_Ok _ _ _ (applyExpands_entries this _)).
  rewrite (bind_Ok _ _ _ (applyPagination_calls this _)).
  fold (pageCallsOf this). fold (filterCallsOf nts this). rewrite <- !app_assoc.
  fold built. split.
  - intros e qb' H. unfold bind. now rewrite H.
  - intros rows count qb' H. unfold bind. rewrite H. unfold ret.
    eexists. split; [reflexivity|]. split; reflexivity.
Qed.

Lemma execute_applies_in_order_witness :
  let this := allowedSorts [js "name"]
                (for_ {| _filter := Some (js "age gt 18"); _orderby := Some (js "name desc,age");
                         _expand := Some (js "profile"); _top := Some (js "10");
                         _skip := None |}) in
  let query : M (list nat * JsNumber.t) := ret ([1; 2]%nat, JsNumber.ofZ 2) in
  let built := [] ++ filterCallsOf JsNumber.toString this
                  ++ flat_map (sortCall asciiToUpperCase (allowedSortsList this)) (sortEntriesOf this)
                  ++ flat_map (expandCall (allowedExpandsList this)) (expandEntriesOf this)
                  ++ pageCallsOf this in
  (forall e qb', query built = Throw e qb' ->
                 execute JsNumber.toString asciiToUpperCase query this [] = Throw e qb')
  /\ (forall rows count qb',
         query built = Ok (rows, count) qb' ->
         exists response,
           execute JsNumber.toString asciiToUpperCase query this [] = Ok response qb'
           /\ data response = rows /\ total response = count).
Proof.
  apply (@execute_applies_in_order JsNumber.toString asciiToUpperCase nat
           (ret ([1; 2]%nat, JsNumber.ofZ 2))
           (allowedSorts [js "name"]
                (for_ {| _filter := Some (js "age gt 18"); _orderby := Some (js "name desc,age");
                         _expand := Some (js "profile"); _top := Some (js "10");
                         _skip := None |})) []).
  intros sort [<-|[<-|[]]]; reflexivity.
Defined.

Example execute_order_example :
  run (execute JsNumber.toString asciiToUpperCase (throw (A := list nat * JsNumber.t) Upstream)
         (for_ {| _filter := Some (js "age gt 18"); _orderby := Some (js "name desc");
                  _expand := Some (js "profile"); _top := Some (js "10");
                  _skip := Some (js "20") |}))
  = Throw Upstream
      [ andWhere (js "entity.age > :val0") [(js "val0", VNumber (JsNumber.ofZ 18))];
        addOrderBy (js "entity.name") (js "DESC");
        leftJoinAndSelect (js "entity.profile") (js "profile");
        take (JsNumber.ofZ 10);
        skip (JsNumber.ofZ 20) ].
Proof. reflexivity. Qed.

(** X6. A sort entry with no direction stops the request before the query
    is run: [execute] throws the TypeError after the conditions of the filter
    and the orderings of the entries before the bare one; no join, no bound
    and no query follow, whatever the query would have answered. *)
Theorem execute_stops_at_bare_sort_entry
        (nts : JsNumber.t -> jsstring) (up : jsstring -> jsstring) (T : Type)
        (getManyAndCount : M (list T * JsNumber.t)) (this : ODataBuilder)
        (l1 : list jsstring) (x : jsstring) (l2 : list jsstring) (qb : list call) :
  sortEntriesOf this = l1 ++ x :: l2 ->
  (forall y, In y l1 -> lacksDirection (allowedSortsList this) y = false) ->
  lacksDirection (allowedSortsList this) x = true ->
  execute nts up getManyAndCount this qb
  = Throw TypeError (qb ++ filterCallsOf nts this
                        ++ flat_map (sortCall up (allowedSortsList this)) l1).
Proof.
  intros Hs H1 Hx. unfold execute.
  rewrite (bind_Ok _ _ _ (applyFilters_clauses nts this qb)).
  fold (filterCallsOf nts this).
  unfold sortEntriesOf in Hs.
  destruct (_orderby (request this)) as [[|c o]|] eqn:Ho;
    try (destruct l1; discriminate Hs).
  rewrite (bind_Throw _ _ _
             (@applySorts_throws_at_bare_entry up this (c :: o) l1 x l2 _ Ho
                ltac:(discriminate) Hs H1 Hx)).
  now rewrite app_assoc.
Qed.

Lemma execute_stops_at_bare_sort_entry_witness :
  execute JsNumber.toString asciiToUpperCase (ret ([1; 2]%nat, JsNumber.ofZ 2))
          (for_ {| _filter := Some (js "age gt 18"); _orderby := Some (js "age desc,name");
                   _expand := Some (js "profile"); _top := Some (js "10"); _skip := None |}) []
  = Throw TypeError
      ([] ++ filterCallsOf JsNumber.toString
                (for_ {| _filter := Some (js "age gt 18"); _orderby := Some (js "age desc,name");
                         _expand := Some (js "profile"); _top := Some (js "10"); _skip := None |})
          ++ flat_map (sortCall asciiToUpperCase []) [js "age desc"]).
Proof.
  apply (@execute_stops_at_bare_sort_entry JsNumber.toString asciiToUpperCase nat
           (ret ([1; 2]%nat, JsNumber.ofZ 2))
           (for_ {| _filter := Some (js "age gt 18"); _orderby := Some (js "age desc,name");
                    _expand := Some (js "profile"); _top := Some (js "10"); _skip := None |})
           [js "age desc"] (js "name") [] []).
  - reflexivity.
  - intros y [<-|[]]. reflexivity.
  - reflexivity.
Defined.

(* ================================================================= *)
(** ** More on the envelope *)

(** The envelope of a request whose four steps return and whose query
    answers [rows] and [count]. *)
Lemma execute_response
      (nts : JsNumber.t -> jsstring) (up : jsstring -> jsstring) (T : Type)
      (getManyAndCount : M (list T * JsNumber.t)) (this : ODataBuilder)
      (rows : list T) (count : JsNumber.t) (qb : list call) :
  (forall sort, In sort (sortEntriesOf this) ->
                lacksDirection (allowedSortsList this) sort = false) ->
  (forall qb0, getManyAndCount qb0 = Ok (rows, count) qb0) ->
  exists qb',
    execute nts up getManyAndCount this qb
    = Ok {| data := rows;
            current_page :=
              if JsNumber.gtZero (requestLimit this)
              then JsNumber.add
                     (JsNumber.floor (JsNumber.div (requestSkip this) (requestLimit this)))
                     (JsNumber.ofZ 1)
              else JsNumber.ofZ 1;
            from := if JsNumber.isZero count then JsNumber.ofZ 0
                    else JsNumber.add (requestSkip this) (JsNumber.ofZ 1);
            last_page :=
              if JsNumber.gtZero (requestLimit this)
              then JsNumber.ceil (JsNumber.div count (requestLimit this))
              else JsNumber.ofZ 1;
            per_page := if JsNumber.gtZero (requestLimit this)
                        then requestLimit this else count;
            to := if JsNumber.isZero count then JsNumber.ofZ 0
                  else JsNumber.add (requestSkip this)
                                    (JsNumber.ofZ (Z.of_nat (length rows)));
            total := count |} qb'.
Proof.
  intros Hs Hq. unfold execute.
  rewrite (bind_Ok _ _ _ (applyFilters_clauses nts this qb)).
  rewrite (bind_Ok _ _ _ (applySorts_entries up this _ Hs)).
  rewrite (bind_Ok _ _ _ (applyExpands_entries this _)).
  rewrite (bind_Ok _ _ _ (applyPagination_calls this _)).
  rewrite (bind_Ok _ _ _ (Hq _)).
  eexists. reflexivity.
Qed.

(** X7. Pages are consistent: with a positive limit and an offset inside the
    result ([0 <= skip < total]), all below [2^53] where the doubles are the
    integers, the current page is between 1 and the last page; the current
    page is the one that holds row [skip], and the last page is the first
    that reaches [total]. *)
Theorem pages_are_consistent
        (nts : JsNumber.t -> jsstring) (up : jsstring -> jsstring) (T : Type)
        (getManyAndCount : M (list T * JsNumber.t)) (this : ODataBuilder)
        (rows : list T) (skip limit total : Z) (qb : list call) :
  (0 < limit < 2 ^ 53)%Z -> (0 <= skip < total)%Z -> (total < 2 ^ 53)%Z ->
  requestSkip this = JsNumber.ofZ skip ->
  requestLimit this = JsNumber.ofZ limit ->
  (forall sort, In sort (sortEntriesOf this) ->
                lacksDirection (allowedSortsList this) sort = false) ->
  (forall qb0, getManyAndCount qb0 = Ok (rows, JsNumber.ofZ total) qb0) ->
  exists response qb' current last,
    execute nts up getManyAndCount this qb = Ok response qb'
    /\ current_page response = JsNumber.ofZ current
    /\ last_page response = JsNumber.ofZ last
    /\ (1 <= current <= last)%Z
    /\ ((current - 1) * limit <= skip < current * limit)%Z
    /\ ((last - 1) * limit < total <= last * limit)%Z.
Proof.
  intros [Hl Bl] Hsk Bt Es El Hs Hq.
  destruct (@execute_response nts up T getManyAndCount this rows (JsNumber.ofZ total) qb Hs Hq)
    as [qb' E].
  pose proof (ceilDiv_spec total Hl) as C.
  pose proof (Z.div_mod skip limit ltac:(lia)) as D.
  pose proof (Z.mod_pos_bound skip limit Hl) as B.
  pose proof (Z.div_pos skip limit ltac:(lia) Hl) as P.
  rewrite Es, El, gtZero_ofZ, (proj2 (Z.ltb_lt 0 limit) Hl) in E.
  rewrite floor_div_ofZ, add_ofZ, ceil_div_ofZ in E by nia.
  eexists _, qb', (skip / limit + 1)%Z, (ceilDiv total limit).
  split; [exact E|]. cbn [current_page last_page].
  split; [reflexivity|]. split; [reflexivity|].
  repeat split; try lia; nia.
Qed.

Lemma pages_are_consistent_witness :
  exists response qb' current last,
    execute JsNumber.toString asciiToUpperCase (ret ([21; 22; 23]%nat, JsNumber.ofZ 23))
            (withPage "10" "20") []
    = Ok response qb'
    /\ current_page response = JsNumber.ofZ current
    /\ last_page response = JsNumber.ofZ last
    /\ (1 <= current <= last)%Z
    /\ ((current - 1) * 10 <= 20 < current * 10)%Z
    /\ ((last - 1) * 10 < 23 <= last * 10)%Z.
Proof.
  apply (@pages_are_consistent JsNumber.toString asciiToUpperCase nat
           (ret ([21; 22; 23]%nat, JsNumber.ofZ 23)) (withPage "10" "20")
           [21; 22; 23]%nat 20 10 23 []).
  - lia.
  - lia.
  - lia.
  - reflexivity.
  - reflexivity.
  - intros sort [].
  - intros qb0. reflexivity.
Defined.

(** X8. An offset that [parseInt] cannot read is not replaced by 0: when the
    result is not empty, [from] and [to] of the envelope are NaN, and under a
    positive limit so is [current_page]. *)
Theorem unreadable_skip_gives_NaN
        (nts : JsNumber.t -> jsstring) (up : jsstring -> jsstring) (T : Type)
        (getManyAndCount : M (list T * JsNumber.t)) (this : ODataBuilder)
        (rows : list T) (count : JsNumber.t) (qb : list call) :
  requestSkip this = JsNumber.NaN ->
  JsNumber.isZero count = false ->
  (forall sort, In sort (sortEntriesOf this) ->
                lacksDirection (allowedSortsList this) sort = false) ->
  (forall qb0, getManyAndCount qb0 = Ok (rows, count) qb0) ->
  exists response qb',
    execute nts up getManyAndCount this qb = Ok response qb'
    /\ from response = JsNumber.NaN
    /\ to response = JsNumber.NaN
    /\ (JsNumber.gtZero (requestLimit this) = true ->
        current_page response = JsNumber.NaN).
Proof.
  intros Es Hc Hs Hq.
  destruct (@execute_response nts up T getManyAndCount this rows count qb Hs Hq) as [qb' E].
  rewrite Es, Hc in E.
  eexists _, qb'. split; [exact E|]. cbn [from to current_page].
  repeat split. intros ->. reflexivity.
Qed.

Lemma unreadable_skip_gives_NaN_witness :
  exists response qb',
    execute JsNumber.toString asciiToUpperCase (ret ([1; 2]%nat, JsNumber.ofZ 2))
            (withPage "10" "abc") []
    = Ok response qb'
    /\ from response = JsNumber.NaN
    /\ to response = JsNumber.NaN
    /\ (JsNumber.gtZero (requestLimit (withPage "10" "abc")) = true ->
        current_page response = JsNumber.NaN).
Proof.
  apply (@unreadable_skip_gives_NaN JsNumber.toString asciiToUpperCase nat
           (ret ([1; 2]%nat, JsNumber.ofZ 2)) (withPage "10" "abc")
           [1; 2]%nat (JsNumber.ofZ 2) []).
  - reflexivity.
  - reflexivity.
  - intros sort [].
  - intros qb0. reflexivity.
Defined.

(* ================================================================= *)
(** ** Splitting what was joined *)

Lemma startsWith_char (c x : N) (s : jsstring) : startsWith [c] (x :: s) = (c =? x)%N.
Proof. cbn [startsWith]. apply andb_true_r. Qed.

(** Reading a piece that has no separator in it. *)
Lemma split_go_piece (c : N) (p : jsstring) :
  Forall (fun x => x <> c) p ->
  forall cur rest,
    split_go [c] 0 cur (p ++ rest) = split_go [c] 0 (rev p ++ cur) rest.
Proof.
  induction p as [|x p IH]; intros H cur rest; [reflexivity|].
  inversion H as [|? ? Hx Hp]; subst.
  cbn [app split_go]. rewrite startsWith_char.
  rewrite (proj2 (N.eqb_neq c x)) by congruence.
  rewrite IH by assumption. cbn [rev]. now rewrite <- app_assoc.
Qed.

(** [split] gives back the pieces that [join] put together, when no piece
    has the separator in it. *)
Lemma split_joinWith (c : N) (pieces : list jsstring) :
  pieces <> [] ->
  Forall (Forall (fun x => x <> c)) pieces ->
  split [c] (joinWith c pieces) = pieces.
Proof.
  unfold split. induction pieces as [|p ps IH]; intros Hne H; [contradiction|].
  inversion H as [|? ? Hp Hps]; subst.
  destruct ps as [|q ps].
  - cbn [joinWith]. rewrite <- (app_nil_r p) at 1.
    rewrite split_go_piece by assumption. cbn [split_go].
    now rewrite app_nil_r, rev_involutive.
  - change (joinWith c (p :: q :: ps)) with (p ++ c :: joinWith c (q :: ps)).
    rewrite split_go_piece by assumption.
    cbn [split_go]. rewrite startsWith_char, N.eqb_refl.
    rewrite app_nil_r, rev_involutive. cbn [length Nat.sub].
    f_equal. apply IH; [discriminate | assumption].
Qed.

Lemma dropWhile_blank (p : N -> bool) (b s : jsstring) :
  forallb p b = true -> dropWhile p (b ++ s) = dropWhile p s.
Proof.
  induction b as [|x b IH]; intros H; [reflexivity|].
  cbn [forallb] in H. apply andb_true_iff in H as [Hx Hb].
  cbn [app dropWhile]. rewrite Hx. auto.
Qed.

Lemma forallb_rev (p : N -> bool) (s : jsstring) : forallb p (rev s) = forallb p s.
Proof.
  induction s as [|x s IH]; [reflexivity|].
  cbn [rev forallb]. rewrite forallb_app, IH. cbn [forallb].
  rewrite andb_true_r. apply andb_comm.
Qed.

(** [trim] removes the white space around a text that starts and ends with
    something else. *)
Lemma trim_padding (before core after : jsstring) :
  blank before = true -> blank after = true ->
  Forall (fun c => isTrimmed c = false) core ->
  trim (before ++ core ++ after) = core.
Proof.
  unfold blank. intros Hb Ha Hc. unfold trim, trimStart, trimEnd.
  rewrite dropWhile_blank by assumption.
  destruct core as [|x core].
  - cbn [app]. rewrite <- (app_nil_r after) at 1.
    rewrite dropWhile_blank by assumption. reflexivity.
  - inversion Hc as [|? ? Hx Hcore]; subst.
    cbn [app dropWhile]. rewrite Hx.
    change (x :: core ++ after) with ((x :: core) ++ after).
    rewrite rev_app_distr, dropWhile_blank by now rewrite forallb_rev.
    rewrite dropWhile_id by now apply Forall_rev.
    apply rev_involutive.
Qed.

Lemma isToken_inv (s : jsstring) :
  isToken s = true ->
  s <> [] /\ Forall (fun c => isTrimmed c = false) s /\ Forall (fun c => c <> 44%N) s
  /\ Forall (fun c => c <> 32%N) s.
Proof.
  unfold isToken. destruct s as [|x s]; [discriminate|]. intros H.
  split; [discriminate|].
  rewrite forallb_forall in H.
  repeat split; apply Forall_forall; intros c Hc; specialize (H c Hc);
    apply andb_true_iff in H as [H1 H2];
    apply negb_true_iff in H1; apply negb_true_iff in H2.
  - assumption.
  - now apply N.eqb_neq.
  - intros ->. discriminate H1.
Qed.

Lemma blank_no_comma (s : jsstring) : blank s = true -> Forall (fun c => c <> 44%N) s.
Proof.
  unfold blank. rewrite forallb_forall. intros H. apply Forall_forall.
  intros c Hc ->. specialize (H _ Hc). discriminate H.
Qed.

Lemma trim_padding_ends (before : jsstring) (x : N) (mid : jsstring) (y : N) (after : jsstring) :
  blank before = true -> blank after = true ->
  isTrimmed x = false -> isTrimmed y = false ->
  trim (before ++ (x :: mid ++ [y]) ++ after) = x :: mid ++ [y].
Proof.
  unfold blank. intros Hb Ha Hx Hy. unfold trim, trimStart, trimEnd.
  rewrite dropWhile_blank by assumption.
  cbn [app dropWhile]. rewrite Hx.
  change (x :: (mid ++ [y]) ++ after) with ((x :: mid ++ [y]) ++ after).
  rewrite rev_app_distr, dropWhile_blank by now rewrite forallb_rev.
  change (x :: mid ++ [y]) with ((x :: mid) ++ [y]).
  rewrite rev_unit. cbn [dropWhile]. rewrite Hy.
  rewrite <- rev_unit. apply rev_involutive.
Qed.

(* ================================================================= *)
(** ** More on sorts *)

Lemma flat_map_ext_in {A B : Type} (f g : A -> list B) (l : list A) :
  (forall x, In x l -> f x = g x) -> flat_map f l = flat_map g l.
Proof.
  induction l as [|x l IH]; intros H; [reflexivity|].
  cbn [flat_map]. rewrite (H x (or_introl eq_refl)), IH; [reflexivity|].
  intros y Hy. apply H. now right.
Qed.

(** The tokens of an entry written as field, space, direction. *)
Lemma sortTokens_wellFormed (e : sortEntry) :
  wellFormedSort e = true -> sortTokens (writeSort e) = [sortField e; sortDirection e].
Proof.
  unfold wellFormedSort. intros H.
  apply andb_true_iff in H as [H Ha]. apply andb_true_iff in H as [H Hd].
  apply andb_true_iff in H as [Hb Hf].
  apply isToken_inv in Hf as (Hfne & Hft & _ & Hfs).
  apply isToken_inv in Hd as (Hdne & Hdt & _ & Hds).
  unfold sortTokens, writeSort.
  destruct (sortField e) as [|x f] eqn:Ef; [contradiction|].
  destruct (exists_last Hdne) as (d & y & Ed).
  rewrite Ed in *.
  replace (spaceBefore e ++ (x :: f) ++ js " " ++ (d ++ [y]) ++ spaceAfter e)
    with (spaceBefore e ++ (x :: (f ++ 32%N :: d) ++ [y]) ++ spaceAfter e).
  2:{ change (js " ") with [32%N]. cbn [app]. now rewrite <- !app_assoc. }
  rewrite trim_padding_ends; try assumption.
  - replace (x :: (f ++ 32%N :: d) ++ [y]) with (joinWith 32 [x :: f; d ++ [y]]).
    2:{ cbn [joinWith app]. now rewrite <- app_assoc. }
    apply (split_joinWith (c := 32%N)); [discriminate|].
    constructor; [assumption|]. constructor; [assumption | constructor].
  - now inversion Hft.
  - apply Forall_app in Hdt as [_ Hy]. now inversion Hy.
Qed.

(** Every outcome of [applySorts]: the entries are visited in order up to
    the first one that passes the allow-list and has no direction, where it
    throws; with no such entry it returns. *)
Lemma applySorts_outcome (up : jsstring -> jsstring) (this : ODataBuilder) (qb : list call) :
  exists l1 l2,
    sortEntriesOf this = l1 ++ l2 /\
    Forall (fun y => lacksDirection (allowedSortsList this) y = false) l1 /\
    ((l2 = [] /\
      applySorts up this qb
      = Ok tt (qb ++ flat_map (sortCall up (allowedSortsList this)) l1))
     \/
     (exists x l2', l2 = x :: l2' /\ lacksDirection (allowedSortsList this) x = true /\
      applySorts up this qb
      = Throw TypeError (qb ++ flat_map (sortCall up (allowedSortsList this)) l1))).
Proof.
  assert (S : forall l : list jsstring,
             exists l1 l2, l = l1 ++ l2 /\
               Forall (fun y => lacksDirection (allowedSortsList this) y = false) l1 /\
               (l2 = [] \/ exists x l2', l2 = x :: l2'
                                         /\ lacksDirection (allowedSortsList this) x = true)).
  { induction l as [|y l (l1 & l2 & E & F & H)].
    - exists [], []. repeat split; [constructor | now left].
    - destruct (lacksDirection (allowedSortsList this) y) eqn:L.
      + exists [], (y :: l). repeat split; [constructor|]. right. now exists y, l.
      + exists (y :: l1), l2. rewrite E. repeat split; [now constructor | assumption]. }
  destruct (S (sortEntriesOf this)) as (l1 & l2 & E & F & [-> | (x & l2' & -> & L)]).
  - exists l1, []. repeat split; try assumption. left. split; [reflexivity|].
    rewrite app_nil_r in E. rewrite applySorts_entries; rewrite E; [reflexivity|].
    now apply Forall_forall.
  - exists l1, (x :: l2'). repeat split; try assumption. right.
    exists x, l2'. repeat split; try assumption.
    unfold sortEntriesOf in E.
    destruct (_orderby (request this)) as [[|c o]|] eqn:Ho;
      try (destruct l1; discriminate E).
    apply (@applySorts_throws_at_bare_entry up this (c :: o) l1 x l2' qb Ho);
      [discriminate | assumption | now apply Forall_forall | assumption].
Qed.

(** X9. When [applySorts] throws: exactly when some entry of [$orderby]
    passes the allow-list and has a single token, that is, no direction. *)
Theorem applySorts_throws_iff (up : jsstring -> jsstring) (this : ODataBuilder) (qb : list call) :
  (exists e qb', applySorts up this qb = Throw e qb')
  <-> (exists sort, In sort (sortEntriesOf this)
                    /\ lacksDirection (allowedSortsList this) sort = true).
Proof.
  destruct (applySorts_outcome up this qb)
    as (l1 & l2 & E & F & [[-> H] | (x & l2' & -> & L & H)]); rewrite H; split.
  - intros (e & qb' & X). discriminate X.
  - intros (sort & HIn & L). rewrite E, app_nil_r in HIn.
    rewrite Forall_forall in F. rewrite (F _ HIn) in L. discriminate L.
  - intros _. exists x. split; [|assumption]. rewrite E. apply in_or_app. right. now left.
  - intros _. eauto.
Qed.

Lemma sortCall_authorized (up : jsstring -> jsstring) (allowList : list jsstring)
      (l : list jsstring) :
  Forall (fun c => exists field dir,
              c = addOrderBy (js "entity." ++ field) (up dir)
              /\ authorized allowList field)
         (flat_map (sortCall up allowList) l).
Proof.
  induction l as [|y l IH]; cbn [flat_map]; [constructor|].
  apply Forall_app. split; [|assumption].
  unfold sortCall. destruct (sortTokens y) as [|field [|dir rest]]; try constructor.
  destruct (authorizedb allowList field) eqn:A; constructor; [|constructor].
  exists field, dir. split; [reflexivity | now apply authorizedb_authorized].
Qed.

(** X10. Whether [applySorts] returns or throws, every call it has made is an
    ordering on a field that passes the allow-list, put under [entity.]. *)
Theorem sorts_only_authorized_fields
        (up : jsstring -> jsstring) (this : ODataBuilder) (qb : list call) :
  exists calls,
    (applySorts up this qb = Ok tt (qb ++ calls)
     \/ applySorts up this qb = Throw TypeError (qb ++ calls))
    /\ Forall (fun c => exists field dir,
                   c = addOrderBy (js "entity." ++ field) (up dir)
                   /\ authorized (allowedSortsList this) field) calls.
Proof.
  destruct (applySorts_outcome up this qb)
    as (l1 & l2 & E & F & [[-> H] | (x & l2' & -> & L & H)]);
    exists (flat_map (sortCall up (allowedSortsList this)) l1);
    (split; [|apply sortCall_authorized]).
  - left. exact H.
  - right. exact H.
Qed.

(** X11. Orderings written and read back: for entries written as field,
    one space, direction, with optional white space around and commas
    between, [applySorts] returns and makes one ordering for each entry whose
    field passes the allow-list, in order, on [entity.<field>] with the
    upper-cased direction. *)
Theorem sorts_of_written_entries
        (up : jsstring -> jsstring) (this : ODataBuilder) (entries : list sortEntry)
        (qb : list call) :
  entries <> [] ->
  forallb wellFormedSort entries = true ->
  _orderby (request this) = Some (joinWith 44 (map writeSort entries)) ->
  applySorts up this qb
  = Ok tt (qb ++ flat_map
                   (fun e => if authorizedb (allowedSortsList this) (sortField e)
                             then [addOrderBy (js "entity." ++ sortField e)
                                              (up (sortDirection e))]
                             else [])
                   entries).
Proof.
  intros Hne Hw Ho.
  assert (W : forall e, In e entries -> wellFormedSort e = true)
    by now apply forallb_forall.
  assert (Hsplit : split (js ",") (joinWith 44 (map writeSort entries)) = map writeSort entries).
  { apply (split_joinWith (c := 44%N)).
    - destruct entries; [contradiction | discriminate].
    - apply Forall_forall. intros s Hs. apply in_map_iff in Hs as (e & <- & He).
      specialize (W e He). unfold wellFormedSort in W.
      apply andb_true_iff in W as [W Ha]. apply andb_true_iff in W as [W Hd].
      apply andb_true_iff in W as [Hb Hf].
      apply isToken_inv in Hf as (_ & _ & Hf & _).
      apply isToken_inv in Hd as (_ & _ & Hd & _).
      unfold writeSort. apply Forall_app. split; [now apply blank_no_comma|].
      apply Forall_app. split; [assumption|].
      apply Forall_app. split; [constructor; [discriminate | constructor]|].
      apply Forall_app. split; [assumption | now apply blank_no_comma]. }
  assert (Hnonempty : joinWith 44 (map writeSort entries) <> []).
  { destruct entries as [|e entries]; [contradiction|].
    specialize (W e (or_introl eq_refl)).
    pose proof (sortTokens_wellFormed e W) as T.
    intros E. destruct entries as [|e' entries]; cbn [map joinWith] in E.
    - rewrite E in T. discriminate T.
    - apply app_eq_nil in E as [_ E]. discriminate E. }
  assert (Hentries : sortEntriesOf this = map writeSort entries).
  { unfold sortEntriesOf. rewrite Ho.
    destruct (joinWith 44 (map writeSort entries)); [contradiction | exact Hsplit]. }
  rewrite applySorts_entries; rewrite Hentries.
  - f_equal. f_equal. rewrite flat_map_concat_map, map_map, <- flat_map_concat_map.
    apply flat_map_ext_in. intros e He.
    unfold sortCall. now rewrite (sortTokens_wellFormed e (W e He)).
  - intros s Hs. apply in_map_iff in Hs as (e & <- & He).
    unfold lacksDirection. now rewrite (sortTokens_wellFormed e (W e He)).
Qed.

Lemma sorts_of_written_entries_witness :
  applySorts asciiToUpperCase
    (allowedSorts [js "name"; js "age"] (withOrderby "name asc, city desc ,age DESC")) []
  = Ok tt [ addOrderBy (js "entity.name") (js "ASC");
            addOrderBy (js "entity.age") (js "DESC") ].
Proof.
  apply (@sorts_of_written_entries asciiToUpperCase
           (allowedSorts [js "name"; js "age"] (withOrderby "name asc, city desc ,age DESC"))
           [ {| spaceBefore := js ""; sortField := js "name"; sortDirection := js "asc";
                spaceAfter := js "" |};
             {| spaceBefore := js " "; sortField := js "city"; sortDirection := js "desc";
                spaceAfter := js " " |};
             {| spaceBefore := js ""; sortField := js "age"; sortDirection := js "DESC";
                spaceAfter := js "" |} ] []).
  - discriminate.
  - reflexivity.
  - reflexivity.
Defined.

Lemma trim_blank (s : jsstring) : blank s = true -> trim s = [].
Proof.
  intros H. rewrite <- (app_nil_r s). change (s ++ []) with (s ++ [] ++ []).
  now apply trim_padding.
Qed.

(** X12. A blank entry of [$orderby] (the text after a trailing comma, or
    between two commas) is not skipped: with an empty allow-list it is an
    entry with the empty field and no direction, and [applySorts] throws. *)
Theorem blank_sort_entry_throws
        (up : jsstring -> jsstring) (this : ODataBuilder) (entry : jsstring) (qb : list call) :
  allowedSortsList this = [] ->
  In entry (sortEntriesOf this) ->
  blank entry = true ->
  exists calls, applySorts up this qb = Throw TypeError (qb ++ calls).
Proof.
  intros Ha HIn Hb.
  assert (L : lacksDirection (allowedSortsList this) entry = true).
  { unfold lacksDirection, sortTokens. rewrite trim_blank by assumption. now rewrite Ha. }
  destruct (applySorts_outcome up this qb)
    as (l1 & l2 & E & F & [[-> H] | (x & l2' & -> & _ & H)]).
  - rewrite E, app_nil_r in HIn. rewrite Forall_forall in F.
    rewrite (F _ HIn) in L. discriminate L.
  - eauto.
Qed.

Lemma blank_sort_entry_throws_witness :
  exists calls,
    applySorts asciiToUpperCase (withOrderby "name ASC,") [] = Throw TypeError ([] ++ calls).
Proof.
  apply (@blank_sort_entry_throws asciiToUpperCase (withOrderby "name ASC,") (js "") []).
  - reflexivity.
  - right. left. reflexivity.
  - reflexivity.
Defined.

(* ================================================================= *)
(** ** More on expansions *)

(** X13. Joins written and read back: for relation names written with
    optional white space around and commas between, [applyExpands] returns
    and makes one join for each entry whose name passes the allow-list, in
    order, of [entity.<name>] under the alias [<name>]. *)
Theorem expands_of_written_entries
        (this : ODataBuilder) (entries : list expandEntry) (qb : list call) :
  entries <> [] ->
  forallb wellFormedExpand entries = true ->
  _expand (request this) = Some (joinWith 44 (map writeExpand entries)) ->
  applyExpands this qb
  = Ok tt (qb ++ flat_map
                   (fun e => if authorizedb (allowedExpandsList this) (relation e)
                             then [leftJoinAndSelect (js "entity." ++ relation e) (relation e)]
                             else [])
                   entries).
Proof.
  intros Hne Hw He.
  assert (W : forall e, In e entries ->
                        blank (expandBefore e) = true /\ isToken (relation e) = true
                        /\ blank (expandAfter e) = true).
  { intros e HIn. rewrite forallb_forall in Hw. specialize (Hw e HIn).
    unfold wellFormedExpand in Hw.
    apply andb_true_iff in Hw as [Hw Ha]. apply andb_true_iff in Hw as [Hb Hr]. auto. }
  assert (Hsplit : split (js ",") (joinWith 44 (map writeExpand entries))
                   = map writeExpand entries).
  { apply (split_joinWith (c := 44%N)).
    - destruct entries; [contradiction | discriminate].
    - apply Forall_forall. intros s Hs. apply in_map_iff in Hs as (e & <- & HIn).
      destruct (W e HIn) as (Hb & Hr & Ha).
      apply isToken_inv in Hr as (_ & _ & Hr & _).
      unfold writeExpand. apply Forall_app. split; [now apply blank_no_comma|].
      apply Forall_app. split; [assumption | now apply blank_no_comma]. }
  assert (Hnonempty : joinWith 44 (map writeExpand entries) <> []).
  { destruct entries as [|e entries]; [contradiction|].
    destruct (W e (or_introl eq_refl)) as (_ & Hr & _).
    apply isToken_inv in Hr as (Hr & _).
    intros E. destruct entries as [|e' entries]; cbn [map joinWith] in E.
    - unfold writeExpand in E. apply app_eq_nil in E as [_ E].
      apply app_eq_nil in E as [E _]. contradiction.
    - apply app_eq_nil in E as [_ E]. discriminate E. }
  rewrite applyExpands_entries. unfold expandEntriesOf. rewrite He.
  destruct (joinWith 44 (map writeExpand entries)) eqn:J; [contradiction|].
  rewrite Hsplit.
  f_equal. f_equal. rewrite flat_map_concat_map, map_map, <- flat_map_concat_map.
  apply flat_map_ext_in. intros e HIn.
  destruct (W e HIn) as (Hb & Hr & Ha).
  apply isToken_inv in Hr as (_ & Hr & _).
  unfold expandCall, writeExpand. now rewrite trim_padding.
Qed.

Lemma expands_of_written_entries_witness :
  applyExpands (allowedExpands [js "profile"; js "posts"] (withExpand "profile, roles ,posts")) []
  = Ok tt [ leftJoinAndSelect (js "entity.profile") (js "profile");
            leftJoinAndSelect (js "entity.posts") (js "posts") ].
Proof.
  apply (@expands_of_written_entries
           (allowedExpands [js "profile"; js "posts"] (withExpand "profile, roles ,posts"))
           [ {| expandBefore := js ""; relation := js "profile"; expandAfter := js "" |};
             {| expandBefore := js " "; relation := js "roles"; expandAfter := js " " |};
             {| expandBefore := js ""; relation := js "posts"; expandAfter := js "" |} ] []).
  - discriminate.
  - reflexivity.
  - reflexivity.
Defined.

(** X14. A blank entry of [$expand] is not skipped either: with an empty
    allow-list it is joined as the relation with the empty name. *)
Theorem blank_expand_entry_joined (this : ODataBuilder) (entry : jsstring) (qb : list call) :
  allowedExpandsList this = [] ->
  In entry (expandEntriesOf this) ->
  blank entry = true ->
  exists calls,
    applyExpands this qb = Ok tt (qb ++ calls)
    /\ In (leftJoinAndSelect (js "entity.") []) calls.
Proof.
  intros Ha HIn Hb. eexists. split; [apply applyExpands_entries|].
  apply in_flat_map. exists entry. split; [assumption|].
  unfold expandCall. rewrite trim_blank by assumption. rewrite Ha. now left.
Qed.

Lemma blank_expand_entry_joined_witness :
  exists calls,
    applyExpands (withExpand "profile,") [] = Ok tt ([] ++ calls)
    /\ In (leftJoinAndSelect (js "entity.") []) calls.
Proof.
  apply (@blank_expand_entry_joined (withExpand "profile,") (js "") []).
  - reflexivity.
  - right. left. reflexivity.
  - reflexivity.
Defined.

(* ================================================================= *)
(** ** More on the patterns *)

Lemma chrMatches_space (ic : bool) (c : N) : Regex.chrMatches ic 32 c = true -> c = 32%N.
Proof.
  destruct (N.eq_dec c 32) as [E|E]; [trivial|]. intros H.
  pose proof (@matchHere_space_head ic [] c [] E) as M.
  cbn [Regex.matchHere] in M. rewrite H in M. discriminate M.
Qed.

Lemma lazyDots_some (k : jsstring -> option (list jsstring)) (s : jsstring) :
  forall taken r, Regex.lazyDots k taken s = Some r ->
                  exists pre post caps, s = pre ++ post /\ k post = Some caps.
Proof.
  induction s as [|c s IH]; intros taken r H; cbn [Regex.lazyDots] in H; [discriminate|].
  destruct (Regex.dot c); [|discriminate].
  destruct (k s) as [caps|] eqn:K.
  - exists [c], s, caps. auto.
  - destruct (IH _ _ H) as (pre & post & caps & -> & K'). exists (c :: pre), post, caps. auto.
Qed.

Lemma greedyDots_some (k : jsstring -> option (list jsstring)) (s : jsstring) :
  forall taken r, Regex.greedyDots k taken s = Some r ->
                  exists pre post caps, s = pre ++ post /\ k post = Some caps.
Proof.
  induction s as [|c s IH]; intros taken r H; cbn [Regex.greedyDots] in H; [discriminate|].
  destruct (Regex.dot c); [|discriminate].
  destruct (Regex.greedyDots k (c :: taken) s) as [r'|] eqn:G.
  - destruct (IH _ _ G) as (pre & post & caps & -> & K'). exists (c :: pre), post, caps. auto.
  - destruct (k s) as [caps|] eqn:K; [|discriminate].
    exists [c], s, caps. auto.
Qed.

(** A match uses every literal of the pattern: each one matches some code
    unit of the input. *)
Lemma matchHere_literal_occurs (ic : bool) (l : N) (p : list Regex.item) :
  In (Regex.Chr l) p ->
  forall s caps, Regex.matchHere ic p s = Some caps ->
                 exists c, In c s /\ Regex.chrMatches ic l c = true.
Proof.
  induction p as [|i p IH]; intros HIn s caps H; [contradiction|].
  destruct i as [l'| |]; cbn [Regex.matchHere] in H.
  - destruct s as [|c s]; [discriminate|].
    destruct (Regex.chrMatches ic l' c) eqn:C; [|discriminate].
    destruct HIn as [E|HIn].
    + injection E as ->. exists c. split; [now left | assumption].
    + destruct (IH HIn _ _ H) as (c' & Hc' & M). exists c'. split; [now right | assumption].
  - destruct HIn as [E|HIn]; [discriminate|].
    apply lazyDots_some in H as (pre & post & caps' & -> & K).
    destruct (IH HIn _ _ K) as (c' & Hc' & M). exists c'. split; [|assumption].
    apply in_or_app. now right.
  - destruct HIn as [E|HIn]; [discriminate|].
    apply greedyDots_some in H as (pre & post & caps' & -> & K).
    destruct (IH HIn _ _ K) as (c' & Hc' & M). exists c'. split; [|assumption].
    apply in_or_app. now right.
Qed.

Lemma search_some (ic : bool) (p : list Regex.item) (s : jsstring) (caps : list jsstring) :
  Regex.search ic p s = Some caps ->
  exists pre post, s = pre ++ post /\ Regex.matchHere ic p post = Some caps.
Proof.
  induction s as [|c s IH]; cbn [Regex.search]; intros H.
  - destruct (Regex.matchHere ic p []) eqn:M; [|discriminate].
    injection H as <-. exists [], []. auto.
  - destruct (Regex.matchHere ic p (c :: s)) eqn:M.
    + injection H as <-. exists [], (c :: s). auto.
    + destruct (IH H) as (pre & post & -> & M'). exists (c :: pre), post. auto.
Qed.

Lemma search_literal_occurs (ic : bool) (l : N) (p : list Regex.item)
      (s : jsstring) (caps : list jsstring) :
  In (Regex.Chr l) p ->
  Regex.search ic p s = Some caps ->
  exists c, In c s /\ Regex.chrMatches ic l c = true.
Proof.
  intros HIn H. apply search_some in H as (pre & post & -> & M).
  destruct (matchHere_literal_occurs ic l p HIn _ M) as (c & Hc & C).
  exists c. split; [apply in_or_app; now right | assumption].
Qed.

(** No pattern with a space matches a text that has none. *)
Lemma search_needs_space (ic : bool) (p : list Regex.item) (s : jsstring) :
  In (Regex.Chr 32) p ->
  Forall (fun c => c <> 32%N) s ->
  Regex.search ic p s = None.
Proof.
  intros HIn Hs. destruct (Regex.search ic p s) as [caps|] eqn:E; [|reflexivity].
  destruct (search_literal_occurs ic 32 p s HIn E) as (c & Hc & C).
  apply chrMatches_space in C. rewrite Forall_forall in Hs. now destruct (Hs c Hc).
Qed.

(** Nor does a pattern with an opening parenthesis (the three function
    forms) match a text that has none. *)
Lemma search_needs_paren (p : list Regex.item) (s : jsstring) :
  In (Regex.Chr 40) p ->
  Forall (fun c => c <> 40%N) s ->
  Regex.search false p s = None.
Proof.
  intros HIn Hs. destruct (Regex.search false p s) as [caps|] eqn:E; [|reflexivity].
  destruct (search_literal_occurs false 40 p s HIn E) as (c & Hc & C).
  cbn [Regex.chrMatches] in C. apply N.eqb_eq in C. subst c.
  rewrite Forall_forall in Hs. now destruct (Hs _ Hc).
Qed.

(* ================================================================= *)
(** ** Clauses that are dropped, clauses that are read *)

(** X15. A clause with no space and no opening parenthesis matches none of
    the eleven patterns: it makes no call and raises nothing. *)
Theorem clause_without_operator_dropped
        (nts : JsNumber.t -> jsstring) (this : ODataBuilder) (filter : jsstring)
        (index : nat) (qb : list call) :
  Forall (fun c => c <> 32%N /\ c <> 40%N) filter ->
  parseAndApplyFilter nts this filter index qb = Ok tt qb.
Proof.
  intros H.
  assert (Hs : Forall (fun c => c <> 32%N) filter)
    by (eapply Forall_impl; [|exact H]; now intros c [? ?]).
  assert (Hp : Forall (fun c => c <> 40%N) filter)
    by (eapply Forall_impl; [|exact H]; now intros c [? ?]).
  apply firstMatch_none. unfold strategies. cbn [firstMatch].
  unfold Regex.exec.
  cbn [pattern nullStrategy compareStrategy likeStrategy Regex.ignoreCase Regex.items].
  rewrite !(search_needs_space _ _ (s := filter)) by (assumption || (cbn; tauto)).
  rewrite !(search_needs_paren _ (s := filter)) by (assumption || (cbn; tauto)).
  reflexivity.
Qed.

Lemma clause_without_operator_dropped_witness :
  parseAndApplyFilter JsNumber.toString (for_ noRequest) (js "name=John;--") 0 [] = Ok tt [].
Proof.
  apply (@clause_without_operator_dropped JsNumber.toString (for_ noRequest) (js "name=John;--") 0 []).
  repeat (constructor; [split; discriminate|]). constructor.
Defined.

Lemma asciiUpper_idempotent (c : N) :
  Regex.asciiUpper (Regex.asciiUpper c) = Regex.asciiUpper c.
Proof.
  unfold Regex.asciiUpper.
  destruct ((97 <=? c) && (c <=? 122))%N eqn:E; [|now rewrite E].
  apply andb_true_iff in E as [E1 E2]. apply N.leb_le in E1, E2.
  assert ((97 <=? c - 32)%N = false) as -> by (apply N.leb_gt; lia).
  reflexivity.
Qed.

(** Under the [i] flag a run of literals reads the input up to case. *)
Lemma matchHere_lits_upper (l : jsstring) :
  forall s, Regex.matchHere true (map Regex.Chr l) s
            = Regex.matchHere true (map Regex.Chr l) (map Regex.asciiUpper s).
Proof.
  induction l as [|a l IH]; intros s; [reflexivity|].
  destruct s as [|c s]; [reflexivity|].
  cbn [map Regex.matchHere]. unfold Regex.chrMatches.
  rewrite asciiUpper_idempotent, <- IH. reflexivity.
Qed.

(** The first match of a null test written in any case. *)
Lemma firstMatch_null_any_case (nts : JsNumber.t -> jsstring) (index : nat)
      (f w : jsstring) (src sql : string) :
  In (src, sql) nullForms ->
  map Regex.asciiUpper w = map Regex.asciiUpper (js src) ->
  f <> [] ->
  Forall (fun c => Regex.dot c = true) f ->
  Forall (fun c => c <> 32%N) f ->
  firstMatch (f ++ w) (strategies nts index) = Some (nullStrategy src sql, [f]).
Proof.
  intros HIn Hw Hne Hdot Hsp.
  assert (W : forall l, map Regex.asciiUpper w = map Regex.asciiUpper (js l) ->
                        Regex.matchHere true (Regex.lits l) w = Some []).
  { intros l E. unfold Regex.lits. rewrite matchHere_lits_upper, E, <- matchHere_lits_upper.
    clear. induction (js l) as [|a r IH]; [reflexivity|].
    cbn [map Regex.matchHere]. unfold Regex.chrMatches. now rewrite N.eqb_refl. }
  unfold strategies. cbn [firstMatch]. unfold Regex.exec.
  cbn [pattern nullStrategy Regex.ignoreCase Regex.items].
  change (Regex.lits " eq 'null'") with (Regex.Chr 32 :: Regex.lits "eq 'null'") in *.
  change (Regex.lits " ne 'null'") with (Regex.Chr 32 :: Regex.lits "ne 'null'") in *.
  cbn [nullForms In] in HIn.
  destruct HIn as [E | [E | []]]; injection E as <- <-.
  - rewrite (@search_field true (Regex.lits "eq 'null'") f w [] Hne Hdot Hsp (W _ Hw)).
    reflexivity.
  - rewrite search_none_after_field; [|assumption|].
    + rewrite (@search_field true (Regex.lits "ne 'null'") f w [] Hne Hdot Hsp
                 (W " ne 'null'"%string Hw)).
      reflexivity.
    + intros l post E.
      change (Regex.Chr 32 :: Regex.lits "eq 'null'")
        with (map Regex.Chr (js " eq 'null'")).
      rewrite matchHere_lits_upper.
      apply (f_equal (map Regex.asciiUpper)) in E. rewrite Hw, map_app in E.
      remember (map Regex.asciiUpper l) as l' eqn:El.
      remember (map Regex.asciiUpper post) as post' eqn:Ep.
      clear - E. cbn in E. cuts E.
Qed.

(** X16. The null tests are read in any case: [f EQ 'NULL'], [f Eq 'Null']
    and the like are the test [f IS NULL], and likewise for [ne], for a field
    with no space and no line terminator that passes the allow-list. *)
Theorem null_test_ignores_case
        (nts : JsNumber.t -> jsstring) (this : ODataBuilder) (f w : jsstring)
        (src sql : string) (index : nat) (qb : list call) :
  In (src, sql) nullForms ->
  map Regex.asciiUpper w = map Regex.asciiUpper (js src) ->
  f <> [] ->
  Forall (fun c => isLineTerminator c = false) f ->
  Forall (fun c => c <> 32%N) f ->
  authorized (allowedFiltersList this) (trim f) ->
  parseAndApplyFilter nts this (f ++ w) index qb
  = Ok tt (qb ++ [andWhere (qualify (trim f) ++ js sql) []]).
Proof.
  intros HIn Hw Hne Hlt Hsp A. apply guard_authorized in A.
  assert (Hdot : Forall (fun c => Regex.dot c = true) f).
  { eapply Forall_impl; [|exact Hlt]. intros c Hc. unfold Regex.dot. now rewrite Hc. }
  unfold parseAndApplyFilter. rewrite tryStrategies_firstMatch.
  rewrite (@firstMatch_null_any_case nts index f w src sql HIn Hw Hne Hdot Hsp).
  cbn [nth_error option_map]. rewrite A. cbn [handle nullStrategy].
  rewrite addWhere_qualify.
  cbn [nullForms In] in HIn.
  destruct HIn as [E | [E | []]]; injection E as <- <-;
    now rewrite qualify_app by reflexivity.
Qed.

Lemma null_test_ignores_case_witness :
  parseAndApplyFilter JsNumber.toString (for_ noRequest) (js "deletedAt" ++ js " Ne 'NULL'") 0 []
  = Ok tt ([] ++ [andWhere (qualify (trim (js "deletedAt")) ++ js " IS NOT NULL") []]).
Proof.
  apply (@null_test_ignores_case JsNumber.toString (for_ noRequest) (js "deletedAt")
           (js " Ne 'NULL'") " ne 'null'" " IS NOT NULL" 0 []).
  - right. left. reflexivity.
  - reflexivity.
  - discriminate.
  - repeat constructor.
  - repeat (constructor; [discriminate|]). constructor.
  - left. reflexivity.
Defined.

(** The greedy group at the end of a pattern takes all that is left of the
    line. *)
Lemma greedyDots_all (ic : bool) (v : jsstring) :
  v <> [] ->
  Forall (fun c => Regex.dot c = true) v ->
  forall taken,
    Regex.greedyDots (Regex.matchHere ic []) taken v = Some [rev taken ++ v].
Proof.
  induction v as [|c v IH]; intros Hne Hdot taken; [contradiction|].
  inversion Hdot as [|? ? Hc Hv]; subst.
  cbn [Regex.greedyDots]. rewrite Hc.
  destruct v as [|c' v].
  - cbn [Regex.greedyDots Regex.matchHere rev]. reflexivity.
  - rewrite IH by (assumption || discriminate). cbn [rev]. now rewrite <- app_assoc.
Qed.

Lemma chrMatches_space_false (ic : bool) (c : N) :
  c <> 32%N -> Regex.chrMatches ic 32 c = false.
Proof.
  intros H. destruct (Regex.chrMatches ic 32 c) eqn:E; [|reflexivity].
  now apply chrMatches_space in E.
Qed.

(** An operator pattern is two letters between two spaces: it cannot start
    inside a text that has no space. *)
Lemma operator_not_in_word (ic : bool) (a b : N) (p : list Regex.item) (v : jsstring) :
  Forall (fun c => c <> 32%N) v ->
  Regex.matchHere ic (Regex.Chr a :: Regex.Chr b :: Regex.Chr 32 :: p) v = None.
Proof.
  intros H. destruct v as [|v1 [|v2 [|v3 v]]]; cbn [Regex.matchHere].
  1: reflexivity.
  1: now destruct (Regex.chrMatches ic a v1).
  1: now destruct (Regex.chrMatches ic a v1), (Regex.chrMatches ic b v2).
  assert (S3 : v3 <> 32%N).
  { rewrite Forall_forall in H. apply H. right. right. now left. }
  rewrite (chrMatches_space_false ic S3).
  now destruct (Regex.chrMatches ic a v1), (Regex.chrMatches ic b v2).
Qed.

(** An operator pattern finds nothing in [f op v], for words [f] and [v]
    with no space, unless it matches at the operator. *)
Lemma operator_search_none (ic : bool) (pat : list Regex.item) (op : jsstring)
      (a b x y : N) (p : list Regex.item) (f v : jsstring) :
  pat = Regex.Chr 32 :: Regex.Chr a :: Regex.Chr b :: Regex.Chr 32 :: p ->
  op = [32%N; x; y; 32%N] ->
  x <> 32%N -> y <> 32%N ->
  Forall (fun c => c <> 32%N) f ->
  Forall (fun c => c <> 32%N) v ->
  Regex.matchHere ic (Regex.Chr a :: Regex.Chr b :: Regex.Chr 32 :: p) (x :: y :: 32%N :: v)
  = None ->
  Regex.search ic (Regex.LazyDots :: pat) (f ++ op ++ v) = None.
Proof.
  intros -> -> Hx Hy Hf Hv Hop.
  apply search_none_after_field; [assumption|].
  intros l post E. cbn [app] in E.
  destruct l as [|l0 l]; cbn [app] in E.
  { subst post. cbn [Regex.matchHere] in *.
    assert (X : Regex.chrMatches ic 32 32 = true) by now destruct ic.
    rewrite X in *. exact Hop. }
  injection E as <- E.
  destruct l as [|l1 l]; cbn [app] in E.
  { subst post. now apply matchHere_space_head. }
  injection E as <- E.
  destruct l as [|l2 l]; cbn [app] in E.
  { subst post. now apply matchHere_space_head. }
  injection E as <- E.
  destruct l as [|l3 l]; cbn [app] in E.
  { subst post. cbn [Regex.matchHere].
    assert (Regex.chrMatches ic 32 32 = true) as -> by now destruct ic.
    now apply operator_not_in_word. }
  injection E as <- E. subst v.
  destruct post as [|c post]; [reflexivity|].
  apply matchHere_space_head.
  apply Forall_app in Hv as [_ Hv]. now inversion Hv.
Qed.

Lemma isPlain_inv (s : jsstring) :
  isPlain s = true ->
  s <> []
  /\ Forall (fun c => Regex.dot c = true) s
  /\ Forall (fun c => c <> 32%N) s
  /\ Forall (fun c => c <> 40%N) s
  /\ Forall (fun c => c <> 41%N) s
  /\ Forall (fun c => c <> 44%N) s
  /\ trim s = s.
Proof.
  unfold isPlain. destruct s as [|x s]; [discriminate|]. intros H.
  split; [discriminate|].
  rewrite forallb_forall in H.
  assert (T : Forall (fun c => isTrimmed c = false) (x :: s)).
  { apply Forall_forall. intros c Hc. specialize (H c Hc).
    repeat (apply andb_true_iff in H as [H ?]). now apply negb_true_iff in H. }
  repeat split; try (now apply trim_no_space);
    apply Forall_forall; intros c Hc; specialize (H c Hc);
    repeat (apply andb_true_iff in H as [H ?]);
    repeat match goal with
           | X : negb _ = true |- _ => apply negb_true_iff in X
           end;
    try (now apply N.eqb_neq).
  - unfold Regex.dot. unfold isTrimmed in H. apply orb_false_iff in H as [_ H].
    now rewrite H.
  - intros ->. discriminate H.
Qed.

Lemma search_field_at (ic : bool) (pat p : list Regex.item) (f rest : jsstring)
      (caps : list jsstring) :
  pat = Regex.Chr 32 :: p ->
  f <> [] ->
  Forall (fun c => Regex.dot c = true) f ->
  Forall (fun c => c <> 32%N) f ->
  Regex.matchHere ic pat rest = Some caps ->
  Regex.search ic (Regex.LazyDots :: pat) (f ++ rest) = Some (f :: caps).
Proof. intros ->. apply search_field. Qed.

Ltac operator_none f v Hf Hv Hnull :=
  match goal with
  | |- context [Regex.search ?ic (Regex.LazyDots :: ?pat) (f ++ ?op ++ v)] =>
      rewrite (@operator_search_none ic pat op _ _ _ _ _ f v eq_refl eq_refl);
      [ cbv iota | discriminate | discriminate | exact Hf | exact Hv
        | first [reflexivity | exact Hnull] ]
  end.

(** The first match of [f op v] for the six comparisons. *)
Lemma firstMatch_compare (nts : JsNumber.t -> jsstring) (index : nat)
      (src sql : string) (f v : jsstring) :
  In (src, sql) compareForms ->
  isPlain f = true -> isPlain v = true ->
  Regex.matchHere true (Regex.lits "'null'") v = None ->
  firstMatch (f ++ js src ++ v) (strategies nts index)
  = Some (compareStrategy index src sql, [f; v]).
Proof.
  intros HIn Pf Pv Hnull.
  apply isPlain_inv in Pf as (Hfne & Hfd & Hf & _).
  apply isPlain_inv in Pv as (Hvne & Hvd & Hv & _).
  assert (G : Regex.greedyDots (Regex.matchHere false []) [] v = Some [v])
    by now apply greedyDots_all.
  unfold strategies. cbn [firstMatch]. unfold Regex.exec.
  cbn [pattern nullStrategy compareStrategy Regex.ignoreCase Regex.items].
  cbn [compareForms In] in HIn.
  repeat (destruct HIn as [E | HIn]; [injection E as <- <-|]); try contradiction.
  - do 2 operator_none f v Hf Hv Hnull.
    now rewrite (@search_field_at false (Regex.lits " eq " ++ [Regex.GreedyDots]) _ f
                   (js " eq " ++ v) [v] eq_refl Hfne Hfd Hf G).
  - do 3 operator_none f v Hf Hv Hnull.
    now rewrite (@search_field_at false (Regex.lits " ne " ++ [Regex.GreedyDots]) _ f
                   (js " ne " ++ v) [v] eq_refl Hfne Hfd Hf G).
  - do 4 operator_none f v Hf Hv Hnull.
    now rewrite (@search_field_at false (Regex.lits " gt " ++ [Regex.GreedyDots]) _ f
                   (js " gt " ++ v) [v] eq_refl Hfne Hfd Hf G).
  - do 5 operator_none f v Hf Hv Hnull.
    now rewrite (@search_field_at false (Regex.lits " ge " ++ [Regex.GreedyDots]) _ f
                   (js " ge " ++ v) [v] eq_refl Hfne Hfd Hf G).
  - do 6 operator_none f v Hf Hv Hnull.
    now rewrite (@search_field_at false (Regex.lits " lt " ++ [Regex.GreedyDots]) _ f
                   (js " lt " ++ v) [v] eq_refl Hfne Hfd Hf G).
  - do 7 operator_none f v Hf Hv Hnull.
    now rewrite (@search_field_at false (Regex.lits " le " ++ [Regex.GreedyDots]) _ f
                   (js " le " ++ v) [v] eq_refl Hfne Hfd Hf G).
Qed.

(** X17. A comparison written and read back: for two plain words [f] and
    [v] (no white space, parenthesis or comma; [v] not starting with
    ['null'] in any case) and each of the six operators, the clause [f op v]
    makes the one condition [<qualified f> <sql op> :val<index>] and binds
    the coerced [v], when [f] passes the allow-list. *)
Theorem compare_clause_read
        (nts : JsNumber.t -> jsstring) (this : ODataBuilder) (index : nat) (qb : list call)
        (src sql : string) (f v : jsstring) :
  In (src, sql) compareForms ->
  isPlain f = true -> isPlain v = true ->
  Regex.matchHere true (Regex.lits "'null'") v = None ->
  authorized (allowedFiltersList this) f ->
  parseAndApplyFilter nts this (f ++ js src ++ v) index qb
  = Ok tt (qb ++ [andWhere (qualify f ++ js sql ++ js ":val" ++ ofIndex index)
                           [(js "val" ++ ofIndex index, parseValue v)]]).
Proof.
  intros HIn Pf Pv Hnull A.
  unfold parseAndApplyFilter. rewrite tryStrategies_firstMatch.
  rewrite (@firstMatch_compare nts index src sql f v HIn Pf Pv Hnull).
  apply isPlain_inv in Pf as (_ & _ & _ & _ & _ & _ & Tf).
  apply isPlain_inv in Pv as (_ & _ & _ & _ & _ & _ & Tv).
  cbn [nth_error option_map]. rewrite Tf, Tv.
  apply guard_authorized in A. rewrite A.
  cbn [handle compareStrategy]. unfold bind, parseValueOf, ret.
  rewrite addWhere_qualify.
  cbn [compareForms In] in HIn.
  repeat (destruct HIn as [E | HIn]; [injection E as <- <-|]); try contradiction;
    now rewrite qualify_app by (apply rest_no_dot; reflexivity).
Qed.

Lemma compare_clause_read_witness :
  parseAndApplyFilter JsNumber.toString (allowedFilters [js "age"] (for_ noRequest))
                      (js "age" ++ js " ge " ++ js "18") 2 []
  = Ok tt ([] ++ [andWhere (qualify (js "age") ++ js " >= " ++ js ":val" ++ ofIndex 2)
                           [(js "val" ++ ofIndex 2, parseValue (js "18"))]]).
Proof.
  apply (@compare_clause_read JsNumber.toString (allowedFilters [js "age"] (for_ noRequest)) 2 []
           " ge " " >= " (js "age") (js "18")).
  - do 3 right. left. reflexivity.
  - reflexivity.
  - reflexivity.
  - reflexivity.
  - right. left. reflexivity.
Defined.

(** The lazy group stops at the first occurrence of the delimiter that
    follows it in the pattern, when the rest matches there. *)
Lemma lazyDots_until (c : N) (p : list Regex.item) (rest : jsstring) (caps : list jsstring) :
  Regex.matchHere false (Regex.Chr c :: p) rest = Some caps ->
  forall f taken,
    f <> [] ->
    Forall (fun x => Regex.dot x = true) f ->
    Forall (fun x => x <> c) f ->
    Regex.lazyDots (Regex.matchHere false (Regex.Chr c :: p)) taken (f ++ rest)
    = Some ((rev taken ++ f) :: caps).
Proof.
  intros K f. induction f as [|x f IH]; intros taken Hne Hdot Hc; [contradiction|].
  inversion Hdot as [|? ? Hx Hdot']. inversion Hc as [|? ? Hxc Hc']. subst.
  cbn [app Regex.lazyDots]. rewrite Hx.
  destruct f as [|x' f].
  - cbn [app]. rewrite K. reflexivity.
  - assert (Regex.matchHere false (Regex.Chr c :: p) ((x' :: f) ++ rest) = None) as ->.
    { cbn [app Regex.matchHere Regex.chrMatches].
      inversion Hc' as [|? ? Hx' _]. now rewrite (proj2 (N.eqb_neq c x')) by congruence. }
    rewrite IH by (assumption || discriminate).
    cbn [rev]. now rewrite <- app_assoc.
Qed.

Lemma search_here (ic : bool) (p : list Regex.item) (s : jsstring) (caps : list jsstring) :
  Regex.matchHere ic p s = Some caps -> Regex.search ic p s = Some caps.
Proof. intros M. destruct s; cbn [Regex.search]; now rewrite M. Qed.

Lemma search_none_all (ic : bool) (p : list Regex.item) (s : jsstring) :
  (forall pre post, s = pre ++ post -> Regex.matchHere ic p post = None) ->
  Regex.search ic p s = None.
Proof.
  induction s as [|c s IH]; intros H; cbn [Regex.search].
  - now rewrite (H [] [] eq_refl).
  - rewrite (H [] (c :: s) eq_refl). apply IH.
    intros pre post ->. apply (H (c :: pre) post). reflexivity.
Qed.

(** A function form [name(f,v)] read by its own pattern. *)
Lemma like_match (w f v : jsstring) :
  f <> [] -> Forall (fun x => Regex.dot x = true) f -> Forall (fun x => x <> 44%N) f ->
  v <> [] -> Forall (fun x => Regex.dot x = true) v -> Forall (fun x => x <> 41%N) v ->
  Regex.matchHere false
    (map Regex.Chr w ++ Regex.LazyDots :: Regex.Chr 44 :: Regex.LazyDots :: [Regex.Chr 41])
    (w ++ f ++ 44%N :: v ++ [41%N])
  = Some [f; v].
Proof.
  intros Hfne Hfd Hfc Hvne Hvd Hvc.
  induction w as [|a w IH].
  - cbn [map app Regex.matchHere].
    apply (@lazyDots_until 44 (Regex.LazyDots :: [Regex.Chr 41]) (44%N :: v ++ [41%N]) [v]);
      try assumption.
    cbn [Regex.matchHere Regex.chrMatches N.eqb Pos.eqb].
    apply (@lazyDots_until 41 [] [41%N] []); try assumption. reflexivity.
  - cbn [map app Regex.matchHere Regex.chrMatches]. now rewrite N.eqb_refl.
Qed.

(** The pattern of another function form finds nothing in [name(f,v)]: not
    in the name, which is another one, and not after it, where there is no
    opening parenthesis. *)
Lemma like_search_none (p : list Regex.item) (w tail : jsstring) :
  In (Regex.Chr 40) p ->
  Forall (fun c => c <> 40%N) tail ->
  (forall l m, w = l ++ m -> m <> [] -> Regex.matchHere false p (m ++ tail) = None) ->
  Regex.search false p (w ++ tail) = None.
Proof.
  intros HIn Ht Hw. apply search_none_all. intros pre post E.
  apply app_eq_app in E as [l [[-> ->] | [-> ->]]].
  - destruct l as [|x l].
    + destruct (Regex.matchHere false p ([] ++ tail)) as [caps|] eqn:M; [|reflexivity].
      destruct (matchHere_literal_occurs false 40 p HIn _ M) as (c & Hc & C).
      cbn [Regex.chrMatches] in C. apply N.eqb_eq in C. subst c.
      rewrite Forall_forall in Ht. now destruct (Ht _ Hc).
    + apply (Hw pre (x :: l) eq_refl). discriminate.
  - destruct (Regex.matchHere false p post) as [caps|] eqn:M; [|reflexivity].
    destruct (matchHere_literal_occurs false 40 p HIn _ M) as (c & Hc & C).
    cbn [Regex.chrMatches] in C. apply N.eqb_eq in C. subst c.
    apply Forall_app in Ht as [_ Ht]. rewrite Forall_forall in Ht. now destruct (Ht _ Hc).
Qed.

Ltac name_cuts H Hm :=
  repeat match type of H with
         | _ = ?l ++ _ =>
             destruct l as [|? l]; cbn [app] in H;
             [ subst; first [reflexivity | congruence]
             | first [discriminate H | injection H as _ H] ]
         end.

(** The first match of [name(f,v)] for the three function forms. *)
Lemma firstMatch_like (nts : JsNumber.t -> jsstring) (index : nat)
      (src before after : string) (f v : jsstring) :
  In (src, before, after) likeForms ->
  isPlain f = true -> isPlain v = true ->
  firstMatch (js src ++ f ++ js "," ++ v ++ js ")") (strategies nts index)
  = Some (likeStrategy nts index src before after, [f; v]).
Proof.
  intros HIn Pf Pv.
  apply isPlain_inv in Pf as (Hfne & Hfd & Hfs & Hfo & _ & Hfc & _).
  apply isPlain_inv in Pv as (Hvne & Hvd & Hvs & Hvo & Hvp & _ & _).
  assert (Htail : Forall (fun c => c <> 40%N) (f ++ js "," ++ v ++ js ")")).
  { apply Forall_app. split; [assumption|].
    apply Forall_app. split; [repeat constructor; discriminate|].
    apply Forall_app. split; [assumption | repeat constructor; discriminate]. }
  assert (Hspace : forall w, Forall (fun c => c <> 32%N) w ->
                             Forall (fun c => c <> 32%N) (w ++ f ++ js "," ++ v ++ js ")")).
  { intros w Hw. apply Forall_app. split; [assumption|].
    apply Forall_app. split; [assumption|].
    apply Forall_app. split; [repeat constructor; discriminate|].
    apply Forall_app. split; [assumption | repeat constructor; discriminate]. }
  assert (M : forall w b a,
             Regex.exec (pattern (likeStrategy nts index w b a))
                        (js w ++ f ++ js "," ++ v ++ js ")") = Some [f; v]).
  { intros w b a. apply search_here. now apply (like_match (js w)). }
  assert (S : forall st w, In (Regex.Chr 32) (Regex.items (pattern st)) ->
                           Forall (fun c => c <> 32%N) w ->
                           Regex.exec (pattern st) (w ++ f ++ js "," ++ v ++ js ")") = None).
  { intros st w HI Hw. apply search_needs_space; [assumption | now apply Hspace]. }
  unfold strategies. cbn [firstMatch].
  cbn [likeForms In] in HIn.
  destruct HIn as [E | [E | [E | []]]]; injection E as <- <- <-.
  - rewrite !S by (cbn; tauto || (repeat constructor; discriminate)).
    now rewrite M.
  - rewrite !S by (cbn; tauto || (repeat constructor; discriminate)).
    assert (Regex.exec (pattern (likeStrategy nts index "contains(" "%" "%"))
                       (js "startswith(" ++ f ++ js "," ++ v ++ js ")") = None) as ->.
    { apply like_search_none; [cbn; tauto | assumption |].
      intros l m E Hm. name_cuts E Hm. }
    now rewrite M.
  - rewrite !S by (cbn; tauto || (repeat constructor; discriminate)).
    assert (Regex.exec (pattern (likeStrategy nts index "contains(" "%" "%"))
                       (js "endswith(" ++ f ++ js "," ++ v ++ js ")") = None) as ->.
    { apply like_search_none; [cbn; tauto | assumption |].
      intros l m E Hm. name_cuts E Hm. }
    assert (Regex.exec (pattern (likeStrategy nts index "startswith(" "" "%"))
                       (js "endswith(" ++ f ++ js "," ++ v ++ js ")") = None) as ->.
    { apply like_search_none; [cbn; tauto | assumption |].
      intros l m E Hm. name_cuts E Hm. }
    now rewrite M.
Qed.

(** X18. A function form written and read back: for two plain words [f] and
    [v], [contains(f,v)], [startswith(f,v)] and [endswith(f,v)] make the one
    condition [<qualified f> LIKE :val<index>] and bind the text of the
    coerced [v] with a [%] on both sides, after it, and before it, when [f]
    passes the allow-list. *)
Theorem like_clause_read
        (nts : JsNumber.t -> jsstring) (this : ODataBuilder) (index : nat) (qb : list call)
        (src before after : string) (f v : jsstring) :
  In (src, before, after) likeForms ->
  isPlain f = true -> isPlain v = true ->
  authorized (allowedFiltersList this) f ->
  parseAndApplyFilter nts this (js src ++ f ++ js "," ++ v ++ js ")") index qb
  = Ok tt (qb ++ [andWhere (qualify f ++ js " LIKE :val" ++ ofIndex index)
                           [(js "val" ++ ofIndex index,
                             VString (js before ++ ToString nts (parseValue v) ++ js after))]]).
Proof.
  intros HIn Pf Pv A.
  unfold parseAndApplyFilter. rewrite tryStrategies_firstMatch.
  rewrite (@firstMatch_like nts index src before after f v HIn Pf Pv).
  apply isPlain_inv in Pf as (_ & _ & _ & _ & _ & _ & Tf).
  apply isPlain_inv in Pv as (_ & _ & _ & _ & _ & _ & Tv).
  cbn [nth_error option_map]. rewrite Tf, Tv.
  apply guard_authorized in A. rewrite A.
  cbn [handle likeStrategy]. unfold bind, parseValueOf, ret.
  rewrite addWhere_qualify.
  now rewrite qualify_app by (apply (rest_no_dot (js " LIKE ")); reflexivity).
Qed.

Lemma like_clause_read_witness :
  parseAndApplyFilter JsNumber.toString (for_ noRequest)
                      (js "startswith(" ++ js "name" ++ js "," ++ js "'Jo'" ++ js ")") 0 []
  = Ok tt ([] ++ [andWhere (qualify (js "name") ++ js " LIKE :val" ++ ofIndex 0)
                           [(js "val" ++ ofIndex 0,
                             VString (js "" ++ ToString JsNumber.toString (parseValue (js "'Jo'"))
                                            ++ js "%"))]]).
Proof.
  apply (@like_clause_read JsNumber.toString (for_ noRequest) 0 []
           "startswith(" "" "%" (js "name") (js "'Jo'")).
  - right. left. reflexivity.
  - reflexivity.
  - reflexivity.
  - left. reflexivity.
Defined.

(* ================================================================= *)
(** ** Bounds written in decimal *)

Lemma ofUint_uintDigits (d : Decimal.uint) : ofUint d = map digitChar (uintDigits d).
Proof. induction d; cbn [ofUint uintDigits map]; [reflexivity | f_equal; assumption ..]. Qed.

Lemma valueOfDigits_uint (d : Decimal.uint) :
  forall acc,
    fold_left (fun a k => (a * 10 + k)%N) (map (fun k => (k mod 10)%N) (uintDigits d))
              (N.of_nat acc)
    = N.of_nat (Nat.of_uint_acc d acc).
Proof.
  induction d; intros acc; cbn [uintDigits map fold_left Nat.of_uint_acc];
    [reflexivity | rewrite <- IHd; f_equal; rewrite Nat.tail_mul_spec ..].
  all: match goal with
       | |- (_ * 10 + ?k mod 10)%N = _ =>
           let v := eval vm_compute in (k mod 10)%N in change (k mod 10)%N with v
       end; lia.
Qed.

Lemma to_uint_not_Nil (n : nat) : Nat.to_uint n <> Decimal.Nil.
Proof.
  rewrite <- (Unsigned.of_to n) at 1. rewrite Unsigned.to_of.
  unfold Decimal.unorm. destruct (Decimal.nzhead (Nat.to_uint n)); discriminate.
Qed.

(** [parseInt] reads back the decimal digits of a natural number up to
    [2^53]. *)
Lemma parseInt_ofIndex (n : nat) :
  (Z.of_nat n <= 2 ^ 53)%Z ->
  JsNumber.parseInt (ofIndex n) = JsNumber.ofZ (Z.of_nat n).
Proof.
  intros Bn.
  assert (R : (let mathInt := Z.of_N (N.of_nat n) in
               if (mathInt =? 0)%Z then JsNumber.zero false
               else JsNumber.round (inject_Z (JsNumber.signed false mathInt)))
              = JsNumber.ofZ (Z.of_nat n)).
  { cbv zeta. rewrite nat_N_Z. cbn [JsNumber.signed].
    destruct (Z.eqb_spec (Z.of_nat n) 0) as [E|_]; [now rewrite E|].
    apply round_integer; [lia | reflexivity]. }
  unfold ofIndex. rewrite ofUint_uintDigits.
  pose proof (valueOfDigits_uint (Nat.to_uint n) 0) as V.
  fold (Nat.of_uint (Nat.to_uint n)) in V. rewrite Unsigned.of_to in V.
  change (N.of_nat 0) with 0%N in V.
  pose proof (to_uint_not_Nil n) as NN.
  destruct (uintDigits (Nat.to_uint n)) as [|d ds] eqn:D.
  { destruct (Nat.to_uint n); try contradiction; discriminate D. }
  unfold JsNumber.parseInt.
  pose proof (digitChar_isDigit d) as Hd.
  cbn [map]. unfold trimStart. cbn [dropWhile]. rewrite (digit_not_trimmed _ Hd).
  unfold JsNumber.readSign. rewrite !(digit_eqb_false _ Hd) by lia.
  destruct ds as [|x ds]; cbn [map].
  - change [digitChar d] with (map digitChar [d]). rewrite spanDigits_all.
    cbn [fst map]. unfold JsNumber.valueOfDigits.
    cbn [map] in V. rewrite V. exact R.
  - rewrite !(digit_eqb_false _ (digitChar_isDigit x)) by lia.
    rewrite andb_false_r.
    change (digitChar d :: digitChar x :: map digitChar ds)
      with (map digitChar (d :: x :: ds)).
    rewrite spanDigits_all. cbn [fst].
    unfold JsNumber.valueOfDigits.
    cbn [map] in *. rewrite V. exact R.
Qed.

Lemma ofIndex_nonempty (n : nat) : ofIndex n <> [].
Proof.
  unfold ofIndex. pose proof (to_uint_not_Nil n).
  destruct (Nat.to_uint n); try contradiction; discriminate.
Qed.

(** X19. Bounds written in decimal are forwarded as written: for naturals
    [n] and [m] below [2^53], a request with [$top] the digits of [n] and
    [$skip] the digits of [m] makes [take(n)] then [skip(m)], and the
    envelope of [execute] works with limit [n] and offset [m]: a page has
    [n] rows (all the rows when [n] is 0) and the first row is row [m + 1]. *)
Theorem pagination_of_decimal_bounds
        (nts : JsNumber.t -> jsstring) (up : jsstring -> jsstring) (T : Type)
        (getManyAndCount : M (list T * JsNumber.t)) (this : ODataBuilder)
        (n m : nat) (rows : list T) (count : JsNumber.t) (qb : list call) :
  (Z.of_nat n < 2 ^ 53)%Z ->
  (Z.of_nat m < 2 ^ 53)%Z ->
  _top (request this) = Some (ofIndex n) ->
  _skip (request this) = Some (ofIndex m) ->
  applyPagination this qb
  = Ok tt (qb ++ [take (JsNumber.ofZ (Z.of_nat n)); skip (JsNumber.ofZ (Z.of_nat m))])
  /\ ((forall qb0, exists qb1, applySorts up this qb0 = Ok tt qb1) ->
      (forall qb0, getManyAndCount qb0 = Ok (rows, count) qb0) ->
      exists response qb',
        execute nts up getManyAndCount this qb = Ok response qb'
        /\ per_page response = (if (0 <? Z.of_nat n)%Z then JsNumber.ofZ (Z.of_nat n) else count)
        /\ from response = (if JsNumber.isZero count then JsNumber.ofZ 0
                            else JsNumber.ofZ (Z.of_nat m + 1))).
Proof.
  intros Bn Bm Ht Hs.
  assert (El : requestLimit this = JsNumber.ofZ (Z.of_nat n)).
  { unfold requestLimit. rewrite Ht. pose proof (ofIndex_nonempty n).
    destruct (ofIndex n) as [|c t] eqn:En; [contradiction|].
    cbn [truthy templated]. rewrite <- En. apply parseInt_ofIndex. lia. }
  assert (Es : requestSkip this = JsNumber.ofZ (Z.of_nat m)).
  { unfold requestSkip. rewrite Hs. pose proof (ofIndex_nonempty m).
    destruct (ofIndex m) as [|c t] eqn:Em; [contradiction|].
    cbn [truthy templated]. rewrite <- Em. apply parseInt_ofIndex. lia. }
  split.
  - rewrite applyPagination_calls. rewrite Ht, Hs.
    pose proof (ofIndex_nonempty n). pose proof (ofIndex_nonempty m).
    destruct (ofIndex n) as [|c t] eqn:En; [contradiction|].
    destruct (ofIndex m) as [|c' s] eqn:Em; [contradiction|].
    rewrite <- En, <- Em, !parseInt_ofIndex by lia. reflexivity.
  - intros Hsorts Hq.
    destruct (@execute_returns nts up T getManyAndCount this rows count qb Hsorts Hq)
      as [qb' E].
    rewrite El, Es, gtZero_ofZ in E.
    eexists. exists qb'. split; [exact E|]. cbn [per_page from].
    split; [reflexivity|].
    destruct (JsNumber.isZero count); [reflexivity|]. apply add_ofZ. lia.
Qed.

Lemma pagination_of_decimal_bounds_witness :
  applyPagination (withPage "25" "100") []
  = Ok tt ([] ++ [take (JsNumber.ofZ (Z.of_nat 25)); skip (JsNumber.ofZ (Z.of_nat 100))])
  /\ exists response qb',
      execute JsNumber.toString asciiToUpperCase (ret ([1; 2]%nat, JsNumber.ofZ 102))
              (withPage "25" "100") [] = Ok response qb'
      /\ per_page response = JsNumber.ofZ (Z.of_nat 25)
      /\ from response = JsNumber.ofZ (Z.of_nat 100 + 1).
Proof.
  destruct (@pagination_of_decimal_bounds JsNumber.toString asciiToUpperCase nat
              (ret ([1; 2]%nat, JsNumber.ofZ 102)) (withPage "25" "100") 25 100
              [1; 2]%nat (JsNumber.ofZ 102) []) as [H1 H2].
  - simpl. lia.
  - simpl. lia.
  - reflexivity.
  - reflexivity.
  - split; [exact H1|]. apply H2.
    + intros qb0. exists qb0. reflexivity.
    + intros qb0. reflexivity.
Defined.

(** Beyond [2^53] the digits are not forwarded as written: [2^53 + 1] is
    forwarded as [2^53]. *)
Example pagination_rounds_beyond_2_53 :
  run (applyPagination (withPage "9007199254740993" "0"))
  = Ok tt [take (JsNumber.ofZ 9007199254740992); skip (JsNumber.ofZ 0)].
Proof. reflexivity. Qed.

(* ================================================================= *)
(** ** addWhere on its own *)

(** X20. [addWhere] is public: whatever condition it is given, the condition
    it hands to [andWhere] has a dot; a condition with a dot anywhere, be it
    in a literal, goes through unchanged, any other gets [entity.] in front;
    and qualifying twice is qualifying once. *)
Theorem addWhere_qualifies_once
        (condition : jsstring) (parameters : list (jsstring * jsvalue)) (qb : list call) :
  exists qualified,
    addWhere condition parameters qb = Ok tt (qb ++ [andWhere qualified parameters])
    /\ includes (js ".") qualified = true
    /\ ((includes (js ".") condition = true /\ qualified = condition)
        \/ (includes (js ".") condition = false /\ qualified = js "entity." ++ condition))
    /\ addWhere qualified parameters qb = Ok tt (qb ++ [andWhere qualified parameters]).
Proof.
  exists (qualify condition).
  assert (D : includes (js ".") (qualify condition) = true).
  { unfold qualify. destruct (includes (js ".") condition) eqn:E; [assumption|].
    change (js "entity." ++ condition) with (js "entity" ++ (js "." ++ condition)).
    change (js ".") with [46%N]. rewrite includes_char_app.
    change ([46%N] ++ condition) with (46%N :: condition).
    rewrite (includes_char 46 (46%N :: condition)). cbn [existsb].
    rewrite N.eqb_refl. apply orb_true_r. }
  split; [apply addWhere_qualify|]. split; [exact D|].
  split.
  - unfold qualify. destruct (includes (js ".") condition); [left | right]; auto.
  - rewrite addWhere_qualify. unfold qualify at 1. now rewrite D.
Qed.

(* ================================================================= *)
(** ** A whole filter, written and read back *)

(** Reading a piece in which [" and "] starts nowhere, whatever follows. *)
Lemma split_go_and_piece (p : jsstring) :
  forall cur rest,
    (forall l m, p = l ++ m -> m <> [] -> startsWith (js " and ") (m ++ rest) = false) ->
    split_go (js " and ") 0 cur (p ++ rest) = split_go (js " and ") 0 (rev p ++ cur) rest.
Proof.
  induction p as [|x p IH]; intros cur rest H; [reflexivity|].
  pose proof (H [] (x :: p) eq_refl ltac:(discriminate)) as E.
  cbn [app] in E. cbn [app split_go]. rewrite E.
  rewrite IH.
  - cbn [rev]. now rewrite <- app_assoc.
  - intros l m -> Hm. apply (H (x :: l) m eq_refl Hm).
Qed.

(** [split] gives back the clauses that [" and "] joins, when it starts in
    none of them, neither alone nor with what follows. *)
Lemma split_joinAnd (pieces : list jsstring) :
  pieces <> [] ->
  Forall (fun p => forall rest, rest = [] \/ (exists r, rest = 32%N :: r) ->
                   forall l m, p = l ++ m -> m <> [] ->
                               startsWith (js " and ") (m ++ rest) = false) pieces ->
  split (js " and ") (joinAnd pieces) = pieces.
Proof.
  unfold split. induction pieces as [|p ps IH]; intros Hne H; [contradiction|].
  inversion H as [|? ? Hp Hps]; subst.
  destruct ps as [|q ps].
  - cbn [joinAnd]. rewrite <- (app_nil_r p) at 1.
    rewrite split_go_and_piece by (apply Hp; now left).
    cbn [split_go]. now rewrite app_nil_r, rev_involutive.
  - change (joinAnd (p :: q :: ps)) with (p ++ js " and " ++ joinAnd (q :: ps)).
    rewrite split_go_and_piece by (apply Hp; right; eexists; reflexivity).
    change (js " and " ++ joinAnd (q :: ps))
      with (32%N :: 97%N :: 110%N :: 100%N :: 32%N :: joinAnd (q :: ps)).
    cbn [split_go]. change (js " and ") with [32%N; 97%N; 110%N; 100%N; 32%N].
    cbn [startsWith N.eqb Pos.eqb andb length Nat.sub].
    rewrite app_nil_r, rev_involutive.
    f_equal. apply IH; [discriminate | assumption].
Qed.

Lemma startsWith_head_false (sep : jsstring) (a x : N) (s : jsstring) :
  x <> a -> startsWith (a :: sep) (x :: s) = false.
Proof. intros H. cbn [startsWith]. now rewrite (proj2 (N.eqb_neq a x)) by congruence. Qed.

(** [" and "] starts nowhere in a word with no space. *)
Lemma no_and_in_word (w rest : jsstring) :
  Forall (fun c => c <> 32%N) w ->
  forall l m, w = l ++ m -> m <> [] -> startsWith (js " and ") (m ++ rest) = false.
Proof.
  intros Hw l m -> Hm. destruct m as [|x m]; [contradiction|].
  apply startsWith_head_false. apply Forall_app in Hw as [_ Hw]. now inversion Hw.
Qed.

(** Nor after a word, in [name(...)], [ op ] or [ eq 'null'], nor in the
    value of a comparison unless the value is [and]. *)
Lemma and_not_after_space (v rest : jsstring) :
  Forall (fun c => c <> 32%N) v ->
  v <> js "and" ->
  rest = [] \/ (exists r, rest = 32%N :: r) ->
  startsWith (js " and ") (32%N :: v ++ rest) = false.
Proof.
  intros Hv Hand Hrest.
  change (js " and ") with [32%N; 97%N; 110%N; 100%N; 32%N].
  cbn [startsWith]. rewrite N.eqb_refl. cbn [andb].
  rewrite Forall_forall in Hv.
  destruct v as [|v1 [|v2 [|v3 [|v4 v]]]]; cbn [app startsWith].
  - destruct Hrest as [-> | [r ->]]; reflexivity.
  - destruct (97 =? v1)%N; [|reflexivity].
    destruct Hrest as [-> | [r ->]]; reflexivity.
  - destruct (97 =? v1)%N; [|reflexivity]. destruct (110 =? v2)%N; [|reflexivity].
    destruct Hrest as [-> | [r ->]]; reflexivity.
  - destruct (97 =? v1)%N eqn:E1; [|reflexivity].
    destruct (110 =? v2)%N eqn:E2; [|reflexivity].
    destruct (100 =? v3)%N eqn:E3; [|reflexivity].
    apply N.eqb_eq in E1, E2, E3. subst. now destruct Hand.
  - assert (v4 <> 32%N) by (apply Hv; do 3 right; now left).
    rewrite (proj2 (N.eqb_neq 32 v4)) by congruence.
    now rewrite !andb_false_r.
Qed.

Lemma trim_id (s : jsstring) :
  (exists x r, s = x :: r /\ isTrimmed x = false) ->
  (exists r y, s = r ++ [y] /\ isTrimmed y = false) ->
  trim s = s.
Proof.
  intros (x & r & E & Hx) (r' & y & E' & Hy).
  unfold trim, trimStart, trimEnd.
  assert (dropWhile isTrimmed s = s) as -> by (rewrite E; cbn [dropWhile]; now rewrite Hx).
  rewrite E', rev_unit. cbn [dropWhile]. rewrite Hy.
  rewrite <- rev_unit. apply rev_involutive.
Qed.

Lemma isPlain_ends (s : jsstring) :
  isPlain s = true ->
  (exists x r, s = x :: r /\ isTrimmed x = false)
  /\ (exists r y, s = r ++ [y] /\ isTrimmed y = false).
Proof.
  intros P. unfold isPlain in P. destruct s as [|x s]; [discriminate|].
  rewrite forallb_forall in P.
  assert (T : forall c, In c (x :: s) -> isTrimmed c = false).
  { intros c Hc. specialize (P c Hc). repeat (apply andb_true_iff in P as [P ?]).
    now apply negb_true_iff in P. }
  split.
  - exists x, s. split; [reflexivity | apply T; now left].
  - destruct (exists_last (l := x :: s) ltac:(discriminate)) as (r & y & E).
    exists r, y. split; [assumption|]. apply T. rewrite E. apply in_or_app. right. now left.
Qed.

(** A written clause has no white space at its ends. *)
Lemma trim_writeClause (c : clause) : wellFormedClause c -> trim (writeClause c) = writeClause c.
Proof.
  destruct c as [src sql f | src sql f v | src before after f v]; cbn [wellFormedClause writeClause].
  - intros (HIn & Pf). destruct (isPlain_ends f Pf) as ((x & r & -> & Hx) & _).
    apply trim_id; [exists x, (r ++ js src); now split|].
    cbn [nullForms In] in HIn. destruct HIn as [E | [E | []]]; injection E as <- <-.
    + exists ((x :: r) ++ js " eq 'null"), 39%N. split; [|reflexivity].
      now rewrite <- app_assoc.
    + exists ((x :: r) ++ js " ne 'null"), 39%N. split; [|reflexivity].
      now rewrite <- app_assoc.
  - intros (HIn & Pf & Pv & _).
    destruct (isPlain_ends f Pf) as ((x & r & -> & Hx) & _).
    destruct (isPlain_ends v Pv) as (_ & (r' & y & -> & Hy)).
    apply trim_id; [exists x, (r ++ js src ++ r' ++ [y]); now split|].
    exists ((x :: r) ++ js src ++ r'), y. split; [|assumption].
    now rewrite <- !app_assoc.
  - intros (HIn & Pf & Pv).
    apply trim_id.
    + cbn [likeForms In] in HIn.
      destruct HIn as [E | [E | [E | []]]]; injection E as <- <- <-;
        eexists _, _; (split; [reflexivity | reflexivity]).
    + exists (js src ++ f ++ js "," ++ v), 41%N. split; [|reflexivity].
      now rewrite <- !app_assoc.
Qed.

(** [" and "] starts nowhere in [ op v]: the operators do not start with
    an [a], and the value is not [and]. *)
Lemma no_and_after_field (x y : N) (v rest k m : jsstring) :
  x <> 97%N -> x <> 32%N -> y <> 32%N ->
  Forall (fun c => c <> 32%N) v ->
  v <> js "and" ->
  rest = [] \/ (exists r, rest = 32%N :: r) ->
  32%N :: x :: y :: 32%N :: v = k ++ m ->
  m <> [] ->
  startsWith (js " and ") (m ++ rest) = false.
Proof.
  intros Ha Hx Hy Hv Hand Hrest E Hm.
  destruct k as [|k0 k]; cbn [app] in E.
  { subst m. cbn [app]. change (js " and ") with [32%N; 97%N; 110%N; 100%N; 32%N].
    cbn [startsWith]. rewrite N.eqb_refl, (proj2 (N.eqb_neq 97 x)) by congruence.
    reflexivity. }
  injection E as _ E. destruct k as [|k1 k]; cbn [app] in E.
  { subst m. now apply startsWith_head_false. }
  injection E as _ E. destruct k as [|k2 k]; cbn [app] in E.
  { subst m. now apply startsWith_head_false. }
  injection E as _ E. destruct k as [|k3 k]; cbn [app] in E.
  { subst m. now apply and_not_after_space. }
  injection E as _ E. subst v.
  destruct m as [|c m]; [contradiction|].
  apply startsWith_head_false. apply Forall_app in Hv as [_ Hv]. now inversion Hv.
Qed.

(** [" and "] starts nowhere in a written clause, also when another clause
    follows. *)
Lemma no_and_in_writeClause (c : clause) :
  wellFormedClause c ->
  forall rest, rest = [] \/ (exists r, rest = 32%N :: r) ->
  forall l m, writeClause c = l ++ m -> m <> [] ->
              startsWith (js " and ") (m ++ rest) = false.
Proof.
  destruct c as [src sql f | src sql f v | src before after f v];
    cbn [wellFormedClause writeClause].
  - intros (HIn & Pf) rest Hrest l m E Hm.
    apply isPlain_inv in Pf as (_ & _ & Hf & _).
    apply app_eq_app in E as [k [[-> ->] | [-> E]]].
    + destruct k as [|x k].
      * cbn [app]. cbn [nullForms In] in HIn.
        destruct HIn as [E | [E | []]]; injection E as <- <-; reflexivity.
      * rewrite <- app_assoc. apply startsWith_head_false.
        apply Forall_app in Hf as [_ Hf]. now inversion Hf.
    + cbn [nullForms In] in HIn.
      destruct HIn as [X | [X | []]]; injection X as <- <-; cbn in E;
        repeat (destruct k as [|? k]; cbn [app] in E;
                [ subst m; first [reflexivity | contradiction]
                | first [discriminate E | injection E as _ E] ]).
  - intros (HIn & Pf & Pv & _ & Hand) rest Hrest l m E Hm.
    apply isPlain_inv in Pf as (_ & _ & Hf & _).
    apply isPlain_inv in Pv as (_ & _ & Hv & _).
    apply app_eq_app in E as [k [[-> ->] | [-> E]]].
    + destruct k as [|x k].
      * cbn [app]. cbn [compareForms In] in HIn.
        repeat (destruct HIn as [E | HIn]; [injection E as <- <-; reflexivity|]).
        contradiction.
      * rewrite <- app_assoc. apply startsWith_head_false.
        apply Forall_app in Hf as [_ Hf]. now inversion Hf.
    + cbn [compareForms In] in HIn.
      repeat (destruct HIn as [X | HIn];
              [ injection X as <- <-;
                eapply no_and_after_field;
                [ | | | exact Hv | exact Hand | exact Hrest | exact E | exact Hm ];
                discriminate |]).
      contradiction.
  - intros (HIn & Pf & Pv) rest Hrest l m E Hm.
    apply isPlain_inv in Pf as (_ & _ & Hf & _).
    apply isPlain_inv in Pv as (_ & _ & Hv & _).
    apply (@no_and_in_word (js src ++ f ++ js "," ++ v ++ js ")") rest) with (l := l);
      try assumption.
    apply Forall_app. split.
    { cbn [likeForms In] in HIn.
      destruct HIn as [X | [X | [X | []]]]; injection X as <- <- <-;
        repeat (constructor; [discriminate|]); constructor. }
    apply Forall_app. split; [assumption|].
    apply Forall_app. split; [repeat constructor; discriminate|].
    apply Forall_app. split; [assumption | repeat constructor; discriminate].
Qed.

(** The calls of a written clause. *)
Lemma clauseCalls_written (nts : JsNumber.t -> jsstring) (this : ODataBuilder)
      (index : nat) (c : clause) :
  wellFormedClause c ->
  clauseCalls nts this (writeClause c) index
  = if authorizedb (allowedFiltersList this) (clauseField c)
    then [clauseCall nts index c] else [].
Proof.
  unfold clauseCalls, parseAndApplyFilter. rewrite tryStrategies_firstMatch.
  destruct c as [src sql f | src sql f v | src before after f v];
    cbn [wellFormedClause writeClause clauseField clauseCall].
  - intros (HIn & Pf).
    apply isPlain_inv in Pf as (Hne & Hd & Hs & _ & _ & _ & T).
    rewrite (@firstMatch_null_any_case nts index f (js src) src sql HIn eq_refl Hne Hd Hs).
    cbn [nth_error option_map]. rewrite T, authorizedb_guard.
    destruct (authorizedb (allowedFiltersList this) f); cbn [negb]; [|reflexivity].
    cbn [handle nullStrategy]. rewrite addWhere_qualify.
    cbn [nullForms In] in HIn.
    destruct HIn as [E | [E | []]]; injection E as <- <-;
      now rewrite qualify_app by reflexivity.
  - intros (HIn & Pf & Pv & Hnull & _).
    rewrite (@firstMatch_compare nts index src sql f v HIn Pf Pv Hnull).
    apply isPlain_inv in Pf as (_ & _ & _ & _ & _ & _ & Tf).
    apply isPlain_inv in Pv as (_ & _ & _ & _ & _ & _ & Tv).
    cbn [nth_error option_map]. rewrite Tf, Tv, authorizedb_guard.
    destruct (authorizedb (allowedFiltersList this) f); cbn [negb]; [|reflexivity].
    cbn [handle compareStrategy]. unfold bind, parseValueOf, ret.
    rewrite addWhere_qualify.
    cbn [compareForms In] in HIn.
    repeat (destruct HIn as [E | HIn]; [injection E as <- <-|]); try contradiction;
      now rewrite qualify_app by (apply rest_no_dot; reflexivity).
  - intros (HIn & Pf & Pv).
    rewrite (@firstMatch_like nts index src before after f v HIn Pf Pv).
    apply isPlain_inv in Pf as (_ & _ & _ & _ & _ & _ & Tf).
    apply isPlain_inv in Pv as (_ & _ & _ & _ & _ & _ & Tv).
    cbn [nth_error option_map]. rewrite Tf, Tv, authorizedb_guard.
    destruct (authorizedb (allowedFiltersList this) f); cbn [negb]; [|reflexivity].
    cbn [handle likeStrategy]. unfold bind, parseValueOf, ret.
    rewrite addWhere_qualify.
    now rewrite qualify_app by (apply (rest_no_dot (js " LIKE ")); reflexivity).
Qed.

Lemma callsFrom_map {A B : Type} (h : A -> B) (g : B -> nat -> list call) (l : list A) :
  forall index, callsFrom index g (map h l) = callsFrom index (fun x i => g (h x) i) l.
Proof. induction l as [|x l IH]; intros index; cbn [map callsFrom]; [|rewrite IH]; reflexivity. Qed.

Lemma callsFrom_ext_in {A : Type} (g g' : A -> nat -> list call) (l : list A) :
  (forall x, In x l -> forall i, g x i = g' x i) ->
  forall index, callsFrom index g l = callsFrom index g' l.
Proof.
  induction l as [|x l IH]; intros H index; cbn [callsFrom]; [reflexivity|].
  rewrite (H x (or_introl eq_refl)), IH; [reflexivity|].
  intros y Hy. apply H. now right.
Qed.

Lemma writeClause_nonempty (c : clause) : wellFormedClause c -> writeClause c <> [].
Proof.
  destruct c as [src sql f | src sql f v | src before after f v];
    cbn [wellFormedClause writeClause];
    [ intros (_ & Pf) E | intros (_ & Pf & _) E | intros (_ & Pf & _) E ];
    apply isPlain_inv in Pf as (Hne & _).
  - apply app_eq_nil in E as [E _]. contradiction.
  - apply app_eq_nil in E as [E _]. contradiction.
  - apply app_eq_nil in E as [_ E]. apply app_eq_nil in E as [E _]. contradiction.
Qed.

(** X21. A filter written and read back: for clauses on plain words, written
    one after the other with [" and "] between them, [applyFilters] makes the
    condition of each clause whose field passes the allow-list, in order, and
    the parameter of a clause is named after its position among all the
    clauses, the dropped ones included. *)
Theorem filter_of_written_clauses
        (nts : JsNumber.t -> jsstring) (this : ODataBuilder) (clauses : list clause)
        (qb : list call) :
  clauses <> [] ->
  Forall wellFormedClause clauses ->
  _filter (request this) = Some (joinAnd (map writeClause clauses)) ->
  applyFilters nts this qb
  = Ok tt (qb ++ callsFrom 0
                   (fun c index => if authorizedb (allowedFiltersList this) (clauseField c)
                                   then [clauseCall nts index c] else [])
                   clauses).
Proof.
  intros Hne W Hf. rewrite Forall_forall in W.
  assert (Hsplit : split (js " and ") (joinAnd (map writeClause clauses))
                   = map writeClause clauses).
  { apply split_joinAnd.
    - destruct clauses; [contradiction | discriminate].
    - apply Forall_forall. intros p Hp. apply in_map_iff in Hp as (c & <- & Hc).
      intros rest Hrest l m E Hm. now apply (@no_and_in_writeClause c (W c Hc) rest Hrest l m). }
  assert (Hnonempty : joinAnd (map writeClause clauses) <> []).
  { destruct clauses as [|c cs]; [contradiction|].
    pose proof (writeClause_nonempty c (W c (or_introl eq_refl))) as N.
    intros E. destruct cs as [|c' cs]; cbn [map joinAnd] in E; [contradiction|].
    apply app_eq_nil in E as [E _]. contradiction. }
  rewrite applyFilters_clauses. unfold clausesOf. rewrite Hf.
  destruct (joinAnd (map writeClause clauses)); [contradiction|].
  rewrite Hsplit, callsFrom_map.
  f_equal. f_equal. apply callsFrom_ext_in. intros c Hc i.
  rewrite (trim_writeClause c (W c Hc)). apply clauseCalls_written. auto.
Qed.

Lemma filter_of_written_clauses_witness :
  applyFilters JsNumber.toString
    (allowedFilters [js "age"; js "name"]
       (withFilter "age ge 18 and role eq 'admin' and contains(name,'Jo') and name ne 'null'")) []
  = Ok tt [ andWhere (js "entity.age >= :val0") [(js "val0", VNumber (JsNumber.ofZ 18))];
            andWhere (js "entity.name LIKE :val2") [(js "val2", VString (js "%Jo%"))];
            andWhere (js "entity.name IS NOT NULL") [] ].
Proof.
  apply (@filter_of_written_clauses JsNumber.toString
           (allowedFilters [js "age"; js "name"]
              (withFilter "age ge 18 and role eq 'admin' and contains(name,'Jo') and name ne 'null'"))
           [ Comparison " ge " " >= " (js "age") (js "18");
             Comparison " eq " " = " (js "role") (js "'admin'");
             FunctionForm "contains(" "%" "%" (js "name") (js "'Jo'");
             NullTest " ne 'null'" " IS NOT NULL" (js "name") ] []).
  - discriminate.
  - repeat constructor; cbn; tauto || discriminate.
  - reflexivity.
Defined.
